(** * rosjs: a shallow embedding of the spinner, the master RPC client,
      the TCPROS header utilities, the publisher, the subscriber and the
      service client, with the properties their specification states. *)

From Stdlib Require Import ZArith Lia.
From stdpp Require Import base option list strings gmap pretty.

Local Open Scope Z_scope.

(* ===================================================================== *)
(** * JavaScript conventions shared by the embedded modules *)
(* ===================================================================== *)

Module Js.

(** Exceptions, by constructor name and message. *)
Inductive exn : Type :=
| Error (message : string)
| TypeError (message : string)
| RangeError (message : string)
| ReferenceError (message : string).

(** A call either returns or throws. *)
Inductive Result (A : Type) : Type :=
| Ok (a : A)
| Throw (e : exn).
Arguments Ok {A} a.
Arguments Throw {A} e.

(** A method of an object with state [S]: it mutates the object, performs
    the observable calls [E] in order, and returns or throws.  On a throw
    the object stays as it was when the exception was raised. *)
Definition Eff (S E A : Type) : Type := S → S * list E * Result A.

Definition ret {S E A} (a : A) : Eff S E A := λ s, (s, [], Ok a).

Definition bind {S E A B} (m : Eff S E A) (k : A → Eff S E B) : Eff S E B :=
  λ s, match m s with
       | (s1, out1, Ok a) =>
           match k a s1 with (s2, out2, r) => (s2, out1 ++ out2, r) end
       | (s1, out1, Throw e) => (s1, out1, Throw e)
       end.

Definition get {S E} : Eff S E S := λ s, (s, [], Ok s).
Definition modify {S E} (f : S → S) : Eff S E unit := λ s, (f s, [], Ok tt).
Definition emit {S E} (e : E) : Eff S E unit := λ s, (s, [e], Ok tt).
Definition throw {S E A} (e : exn) : Eff S E A := λ s, (s, [], Throw e).

(** The three components of a finished call. *)
Definition state {S E A} (r : S * list E * Result A) : S := fst (fst r).
Definition out {S E A} (r : S * list E * Result A) : list E := snd (fst r).
Definition result {S E A} (r : S * list E * Result A) : Result A := snd r.

(** [m] keeps the property [P] of the object, returning or throwing. *)
Definition preserves {S E A} (P : S → Prop) (m : Eff S E A) : Prop :=
  ∀ s, P s → P (state (m s)).

(** [arr.forEach(f)] for a callback that may throw. *)
Fixpoint forEach {S E A} (f : A → Eff S E unit) (l : list A) : Eff S E unit :=
  match l with
  | [] => ret tt
  | x :: l' => bind (f x) (λ _, forEach f l')
  end.

(** A [Map] with string keys, in insertion order: [set] on a present key
    replaces the value in place, on an absent key appends the entry. *)
Abbreviation Map V := (list (string * V)) (only parsing).

Fixpoint Map_get {V} (k : string) (m : Map V) : option V :=
  match m with
  | [] => None
  | (k', v) :: m' => if decide (k' = k) then Some v else Map_get k m'
  end.

Fixpoint Map_set {V} (k : string) (v : V) (m : Map V) : Map V :=
  match m with
  | [] => [(k, v)]
  | (k', v') :: m' =>
      if decide (k' = k) then (k', v) :: m' else (k', v') :: Map_set k v m'
  end.

Definition Map_delete {V} (k : string) (m : Map V) : Map V :=
  filter (λ kv, kv.1 ≠ k) m.

(** The last [n] elements of an array, [arr.slice(-n)] for [n > 0]. *)
Definition lastn {A} (n : nat) (l : list A) : list A := drop (length l - n) l.

(** A [Set] of strings, in insertion order. *)
Abbreviation StrSet := (list string) (only parsing).

Definition Set_has (k : string) (s : StrSet) : bool := bool_decide (k ∈ s).
Definition Set_add (k : string) (s : StrSet) : StrSet :=
  if Set_has k s then s else s ++ [k].
Definition Set_delete (k : string) (s : StrSet) : StrSet :=
  filter (λ k', k' ≠ k) s.
(** [new Set(array)]: later duplicates are dropped. *)
Definition Set_of_array (l : list string) : StrSet :=
  foldl (λ s k, Set_add k s) [] l.

End Js.

Export Js(Ok, Throw).

#[global] Instance eff_ret {S E} : MRet (Js.Eff S E) := λ A, @Js.ret S E A.
#[global] Instance eff_bind {S E} : MBind (Js.Eff S E) :=
  λ A B k m, @Js.bind S E A B m k.

(* ===================================================================== *)
(** * The spinner: [ClientQueue] and [GlobalSpinner] (string client ids) *)
(* ===================================================================== *)

Module Spinner.
Section Spinner.

(** [Client] is the publisher or subscriber owning a queue, [Msg] what it
    queues.  Queue sizes, throttle times and clock readings are whole
    numbers. *)
Context {Client Msg : Type}.

Record ClientQueue : Type := mkClientQueue {
  _client : Client;
  _queue : list Msg;
  _queueSize : Z;
  throttleMs : Z;
  _handleTime : option Z          (* null until the first dispatch *)
}.

(** Calls the spinner makes on the outside world. *)
Inductive Effect : Type :=
| HandleMsgQueue (client : Client) (msgQueue : list Msg)
    (* client._handleMsgQueue(msgQueue) *)
| SetTimeout.                     (* setTimeout(_handleQueue, _spinTime) *)

(** [new ClientQueue(client, queueSize, throttleMs)] *)
Definition ClientQueue_new (client : Client) (queueSize throttleMs : Z)
  : Js.Result ClientQueue :=
  if bool_decide (queueSize < 1) then
    Throw (Js.Error ("Unable to create client message queue with size "
                       +:+ pretty queueSize +:+ " - minimum is 1"))
  else
    Ok {| _client := client; _queue := []; _queueSize := queueSize;
          throttleMs := throttleMs; _handleTime := None |}.

Definition length_ (q : ClientQueue) : Z := Z.of_nat (length (_queue q)).

Definition with_queue (q : ClientQueue) (l : list Msg) : ClientQueue :=
  {| _client := _client q; _queue := l; _queueSize := _queueSize q;
     throttleMs := throttleMs q; _handleTime := _handleTime q |}.

(** [push(item)]: append, then shift once when over capacity. *)
Definition push (item : Msg) (q : ClientQueue) : ClientQueue :=
  let q1 := with_queue q (_queue q ++ [item]) in
  if bool_decide (length_ q1 > _queueSize q1) then with_queue q1 (tail (_queue q1))
  else q1.

(** The throttle test of [handleClientMessages]. *)
Definition eligible (time : Z) (q : ClientQueue) : bool :=
  match _handleTime q with
  | None => true
  | Some t => bool_decide (time - t > throttleMs q)
  end.

(** [handleClientMessages(time)]: the queue afterwards, the calls made, and
    the returned flag. *)
Definition handleClientMessages (time : Z) (q : ClientQueue)
  : ClientQueue * list Effect * bool :=
  if eligible time q then
    ({| _client := _client q; _queue := []; _queueSize := _queueSize q;
        throttleMs := throttleMs q; _handleTime := Some time |},
     [HandleMsgQueue (_client q) (_queue q)], true)
  else (q, [], false).

(** [_spinTime] and [_expectedSpinExpire] are written and never read by the
    dispatch logic; the armed timer is what [_spinTimer !== null] tests. *)
Record GlobalSpinner : Type := mkGlobalSpinner {
  _spinTimer : bool;                       (* true: a timer is armed *)
  _clientCallQueue : Js.StrSet;
  _clientQueueMap : Js.Map ClientQueue
}.

Definition GlobalSpinner_new : GlobalSpinner :=
  {| _spinTimer := false; _clientCallQueue := []; _clientQueueMap := [] |}.

Local Abbreviation M A := (Js.Eff GlobalSpinner Effect A).

Definition set_clientQueueMap (m : Js.Map ClientQueue) (s : GlobalSpinner) :=
  {| _spinTimer := _spinTimer s; _clientCallQueue := _clientCallQueue s;
     _clientQueueMap := m |}.
Definition set_clientCallQueue (c : Js.StrSet) (s : GlobalSpinner) :=
  {| _spinTimer := _spinTimer s; _clientCallQueue := c;
     _clientQueueMap := _clientQueueMap s |}.
Definition set_spinTimer (b : bool) (s : GlobalSpinner) :=
  {| _spinTimer := b; _clientCallQueue := _clientCallQueue s;
     _clientQueueMap := _clientQueueMap s |}.

(** [addClient(client, clientId, queueSize, throttleMs)] *)
Definition addClient (client : Client) (clientId : string)
    (queueSize throttleMs : Z) : M unit :=
  if bool_decide (queueSize > 0) then
    match ClientQueue_new client queueSize throttleMs with
    | Ok cq => Js.modify (λ s, set_clientQueueMap
                                 (Js.Map_set clientId cq (_clientQueueMap s)) s)
    | Throw e => Js.throw e
    end
  else mret tt.

(** [_queueMessage(clientId, message)] *)
Definition _queueMessage (clientId : string) (message : Msg) : M unit :=
  s ← Js.get;
  match Js.Map_get clientId (_clientQueueMap s) with
  | None => Js.throw (Js.Error "Unable to queue message for unknown client")
  | Some clientQueue =>
      Js.modify (set_clientQueueMap
                   (Js.Map_set clientId (push message clientQueue)
                      (_clientQueueMap s)))
  end.

(** [_setTimer()] *)
Definition _setTimer : M unit :=
  s ← Js.get;
  if _spinTimer s then mret tt
  else Js.modify (set_spinTimer true) ;; Js.emit SetTimeout.

(** [ping(clientId, msg)] *)
Definition ping (clientId : string) (msg : Msg) : M unit :=
  _queueMessage clientId msg ;;
  Js.modify (λ s, set_clientCallQueue (Js.Set_add clientId (_clientCallQueue s)) s) ;;
  _setTimer.

(** [disconnect(clientId)] *)
Definition disconnect (clientId : string) : M unit :=
  Js.modify (λ s, set_clientCallQueue (Js.Set_delete clientId (_clientCallQueue s)) s) ;;
  Js.modify (λ s, set_clientQueueMap (Js.Map_delete clientId (_clientQueueMap s)) s).

(** [_getClientsWithQueuedMessages()]: the consistency check run on every
    tick; the map is visited in insertion order. *)
Definition _getClientsWithQueuedMessages : M unit :=
  s ← Js.get;
  Js.forEach (λ kv : string * ClientQueue,
      let queueSize := length_ kv.2 in
      if bool_decide (queueSize > 0) && negb (Js.Set_has kv.1 (_clientCallQueue s))
      then Js.throw (Js.Error ("Client " +:+ kv.1 +:+ " has " +:+ pretty queueSize
                                +:+ " queued messages but is not in call list!"))
      else mret tt)
    (_clientQueueMap s).

(** The body of the [forEach] of [_handleQueue]: dispatch one client and
    return whether it has to stay on the call queue.  A client id without
    a queue makes [clientQueue.handleClientMessages] a call on undefined. *)
Definition handleOne (now : Z) (clientId : string) : M bool :=
  s ← Js.get;
  match Js.Map_get clientId (_clientQueueMap s) with
  | None => Js.throw (Js.TypeError
              "Cannot read property 'handleClientMessages' of undefined")
  | Some clientQueue =>
      match handleClientMessages now clientQueue with
      | (cq', out, handled) =>
          Js.modify (set_clientQueueMap
                       (Js.Map_set clientId cq' (_clientQueueMap s))) ;;
          Js.forEach Js.emit out ;;
          mret (negb handled)
      end
  end.

Fixpoint handleAll (now : Z) (ids : list string) (keepOnQueue : list string)
  : M (list string) :=
  match ids with
  | [] => mret keepOnQueue
  | clientId :: ids' =>
      handleOne now clientId ≫= λ keep : bool,
      handleAll now ids' (if keep then keepOnQueue ++ [clientId] else keepOnQueue)
  end.

(** [_handleQueue()], with [now] the value of [Date.now()]. *)
Definition _handleQueue (now : Z) : M unit :=
  s ← Js.get;
  keepOnQueue ← handleAll now (_clientCallQueue s) [];
  Js.modify (set_spinTimer false) ;;
  _getClientsWithQueuedMessages ;;
  (if bool_decide (Z.of_nat (length keepOnQueue) > 0)
   then Js.modify (set_clientCallQueue (Js.Set_of_array keepOnQueue))
   else Js.modify (set_clientCallQueue [])) ;;
  s' ← Js.get;
  if bool_decide (Z.of_nat (length (_clientCallQueue s')) > 0) then _setTimer
  else mret tt.

(** *** The outcome of a tick, client by client *)

(** The queue of a client after [handleClientMessages(now)]. *)
Definition dispatched (now : Z) (q : ClientQueue) : ClientQueue :=
  fst (fst (handleClientMessages now q)).

(** The clients named in [ids] have been handled, the others not. *)
Definition tick_map (now : Z) (ids : list string) (m : Js.Map ClientQueue)
  : Js.Map ClientQueue :=
  (λ kv, if bool_decide (kv.1 ∈ ids) then (kv.1, dispatched now kv.2) else kv) <$> m.

(** The [_handleMsgQueue] calls of the clients in [ids], in that order. *)
Definition tick_out (now : Z) (ids : list string) (m : Js.Map ClientQueue)
  : list Effect :=
  concat ((λ id, match Js.Map_get id m with
                 | Some q => snd (fst (handleClientMessages now q))
                 | None => []
                 end) <$> ids).

(** A client has to wait for a later tick. *)
Definition stays (now : Z) (m : Js.Map ClientQueue) (id : string) : bool :=
  match Js.Map_get id m with
  | Some q => negb (eligible now q)
  | None => false
  end.

Definition tick_keep (now : Z) (ids : list string) (m : Js.Map ClientQueue)
  : list string :=
  concat ((λ id, if stays now m id then [id] else []) <$> ids).

(** The invariant of a spinner: the call queue and the map hold each id
    once, every client on the call queue has a queue, and every client with
    queued messages is on the call queue. *)
Definition wf (s : GlobalSpinner) : Prop :=
  NoDup (_clientCallQueue s)
  ∧ NoDup (_clientQueueMap s).*1
  ∧ (∀ id, id ∈ _clientCallQueue s → is_Some (Js.Map_get id (_clientQueueMap s)))
  ∧ (∀ id q, Js.Map_get id (_clientQueueMap s) = Some q → _queue q ≠ [] →
             id ∈ _clientCallQueue s).

(** What user code and the timer do to a spinner, one call after the
    other.  The [_handleMsgQueue] of a client is a call to the outside: a
    client that calls back into the spinner while [_handleQueue] is still
    going through the call queue is not among these histories. *)
Inductive Op : Type :=
| AddClient (client : Client) (clientId : string) (queueSize throttleMs : Z)
| Ping (clientId : string) (msg : Msg)
| Disconnect (clientId : string)
| Tick (now : Z).

Definition exec (op : Op) : M unit :=
  match op with
  | AddClient c id n t => addClient c id n t
  | Ping id m => ping id m
  | Disconnect id => disconnect id
  | Tick now => _handleQueue now
  end.

(** The spinner after a history of operations, a throwing one leaving it
    as it was at the throw. *)
Definition run (ops : list Op) (s : GlobalSpinner) : GlobalSpinner :=
  foldl (λ (s : GlobalSpinner) (op : Op), Js.state (exec op s)) s ops.

(** [op] puts a queue under [clientId]. *)
Definition registers (clientId : string) (op : Op) : Prop :=
  match op with
  | AddClient _ id n _ => id = clientId ∧ n > 0
  | _ => False
  end.

End Spinner.
Arguments ClientQueue : clear implicits.
Arguments GlobalSpinner : clear implicits.
Arguments Effect : clear implicits.
Arguments Op : clear implicits.
End Spinner.

(* ===================================================================== *)
(** * The spinner that keys its clients by object: its [ClientQueue] *)
(* ===================================================================== *)

Module LegacySpinner.
Section LegacySpinner.

Context {Client Msg : Type}.

(** This variant's queue holds no back-reference; the client is passed to
    [handleClientMessages]. *)
Record ClientQueue : Type := mkClientQueue {
  _queue : list Msg;
  _queueSize : Z;
  throttleMs : Z;
  _handleTime : option Z
}.

Inductive Effect : Type :=
| HandleMsgQueue (client : Client) (msgQueue : list Msg).

(** [push(item)] *)
Definition push (item : Msg) (q : ClientQueue) : ClientQueue :=
  let queue := _queue q ++ [item] in
  {| _queue := if bool_decide (Z.of_nat (length queue) > _queueSize q)
               then tail queue else queue;
     _queueSize := _queueSize q; throttleMs := throttleMs q;
     _handleTime := _handleTime q |}.

(** [handleClientMessages(client, time)] *)
Definition handleClientMessages (client : Client) (time : Z) (q : ClientQueue)
  : ClientQueue * list Effect * bool :=
  if match _handleTime q with
     | None => true
     | Some t => bool_decide (time - t > throttleMs q)
     end
  then
    ({| _queue := []; _queueSize := _queueSize q; throttleMs := throttleMs q;
        _handleTime := Some time |},
     [HandleMsgQueue client (_queue q)], true)
  else (q, [], false).

End LegacySpinner.
Arguments ClientQueue : clear implicits.
Arguments Effect : clear implicits.
End LegacySpinner.

(* ===================================================================== *)
(** * The master RPC client: [utils/XmlrpcClient.js] *)
(* ===================================================================== *)

Module XmlrpcClient.

Definition CONNECTION_REFUSED : string := "ECONNREFUSED".
Definition TRY_AGAIN_LIST : list Z :=
  [1; 2; 2; 4; 4; 4; 4; 8; 8; 8; 8; 16; 32; 64; 128; 256; 512; 1000].

(** The error object of a failed [methodCall]; [code] is undefined on errors
    that are not system errors. *)
Record Err : Type := mkErr { code : option string }.

(** The response array [[statusCode, statusMessage, value]]. *)
Record Resp : Type := mkResp {
  statusCode : Z; statusMessage : string; value : string
}.

(** What [client.methodCall] passes to its callback: [(err)] or
    [(null, resp)]. *)
Inductive Reply : Type :=
| ReplyErr (err : Err)
| ReplyResp (resp : Resp).

(** An [XmlrpcCall]; [callId] stands for the identity of the object and of
    its [resolve] and [reject] callbacks. *)
Record XmlrpcCall : Type := mkCall {
  callId : nat; method : string; data : list string
}.

(** How the promise of [XmlrpcCall.call] settles.  The rejection reason is
    [err] alone (a promise keeps one argument), null when the call failed
    by its status code. *)
Inductive Settled : Type :=
| Fulfilled (resp : Resp)
| Rejected (err : option Err).

(** The callback of [XmlrpcCall.call]. *)
Definition XmlrpcCall_call (reply : Reply) : Settled :=
  match reply with
  | ReplyErr err => Rejected (Some err)
  | ReplyResp resp =>
      if bool_decide (statusCode resp ≠ 1) then Rejected None else Fulfilled resp
  end.

(** The armed retry timer is kept by its delay; only [=== null] is ever
    asked of [_timeoutId]. *)
Record XmlrpcClient : Type := mkClient {
  _callQueue : list XmlrpcCall;
  _timeout : nat;                   (* index into TRY_AGAIN_LIST *)
  _timeoutId : option Z
}.

Definition XmlrpcClient_new : XmlrpcClient :=
  {| _callQueue := []; _timeout := 0; _timeoutId := None |}.

(** Calls on the outside world, in order. *)
Inductive Effect : Type :=
| MethodCall (call : XmlrpcCall)    (* client.methodCall(call.method, call.data, …) *)
| Resolve (call : XmlrpcCall) (resp : Resp)       (* call.resolve(resp) *)
| Reject (call : XmlrpcCall) (err : option Err)   (* call.reject(err, resp) *)
| SetTimeout (delay : Z)            (* setTimeout(_tryExecuteCall, delay) *)
| Warn (message : string).

Local Abbreviation M A := (Js.Eff XmlrpcClient Effect A).

(** [_tryExecuteCall()], up to the start of the RPC. *)
Definition _tryExecuteCall : M unit :=
  s ← Js.get;
  match _callQueue s with
  | [] => Js.emit (Warn "Tried executing xmlprc call on empty queue")
  | call :: _ => Js.emit (MethodCall call)
  end.

(** [call(method, data, resolve, reject)] *)
Definition call (newCall : XmlrpcCall) : M unit :=
  s ← Js.get;
  let numCalls := length (_callQueue s) in
  Js.modify (λ s, {| _callQueue := _callQueue s ++ [newCall];
                     _timeout := _timeout s; _timeoutId := _timeoutId s |}) ;;
  if bool_decide (numCalls = 0%nat) then _tryExecuteCall else mret tt.

Definition _shiftQueue : M unit :=
  Js.modify (λ s, {| _callQueue := tail (_callQueue s);
                     _timeout := _timeout s; _timeoutId := _timeoutId s |}).

Definition _resetTimeout : M unit :=
  Js.modify (λ s, {| _callQueue := _callQueue s;
                     _timeout := 0; _timeoutId := None |}).

(** [_scheduleTryAgain()]; an index past the list would read undefined,
    which [setTimeout] takes as 1 ms. *)
Definition _scheduleTryAgain : M unit :=
  s ← Js.get;
  let timeout := default 1 (TRY_AGAIN_LIST !! _timeout s) in
  Js.modify (λ s, {| _callQueue := _callQueue s;
                     _timeout := if bool_decide (_timeout s + 1 < length TRY_AGAIN_LIST)%nat
                                 then S (_timeout s) else _timeout s;
                     _timeoutId := Some timeout |}) ;;
  Js.emit (SetTimeout timeout).

(** [err && err.code === CONNECTION_REFUSED] *)
Definition is_refused (err : option Err) : bool :=
  match err with
  | Some e => bool_decide (code e = Some CONNECTION_REFUSED)
  | None => false
  end.

(** The [then]/[catch]/[then] chain that [_tryExecuteCall] hangs on the RPC
    of [call], run when the RPC comes back with [reply]. *)
Definition settle (call : XmlrpcCall) (reply : Reply) : M unit :=
  match XmlrpcCall_call reply with
  | Fulfilled resp =>
      _shiftQueue ;; _resetTimeout ;; Js.emit (Resolve call resp)
  | Rejected err =>
      if is_refused err then _scheduleTryAgain
      else _shiftQueue ;; _resetTimeout ;; Js.emit (Reject call err)
  end ;;
  s ← Js.get;
  if bool_decide (_timeoutId s = None) && bool_decide (0 < length (_callQueue s))%nat
  then _tryExecuteCall else mret tt.

(** What the final [then] of the chain does once the head is gone: the
    next call, if any, starts at once. *)
Definition next_call (queue : list XmlrpcCall) : list Effect :=
  match queue with
  | [] => []
  | next :: _ => [MethodCall next]
  end.

(** The refusal every retry answers. *)
Definition refused : Reply := ReplyErr {| code := Some CONNECTION_REFUSED |}.

(** The client after [k] rounds, each one the head call refused and then
    the retry timer firing, with [news k] enqueued by [call] while the timer
    of round [k] is pending. *)
Fixpoint after_refusals (news : nat → list XmlrpcCall) (k : nat)
    (head : XmlrpcCall) (s : XmlrpcClient) : XmlrpcClient :=
  match k with
  | O => s
  | S k' =>
      let s1 := Js.state (settle head refused (after_refusals news k' head s)) in
      let s2 := Js.state (Js.forEach call (news k') s1) in
      Js.state (_tryExecuteCall s2)
  end.

End XmlrpcClient.

(* ===================================================================== *)
(** * The service client: the call queue of [lib/ServiceClient.js] *)
(* ===================================================================== *)

Module ServiceClient.
Section ServiceClient.

Context {Request : Type}.

(** A [ServiceCall]; [callId] stands for the identity of the object and of
    the promise whose [resolve] and [reject] it holds. *)
Record ServiceCall : Type := mkServiceCall {
  callId : nat; request : Request
}.

(** [executing] lists the calls that [_executeCall] has taken off the queue
    and that the promise chains started there still hold. *)
Record ServiceClient : Type := mkServiceClient {
  _persist : bool;
  _maxQueueLength : Z;
  _calling : bool;
  _serviceClient : option nat;      (* the cached socket, null at first *)
  _callQueue : list ServiceCall;
  executing : list ServiceCall
}.

(** [new ServiceClient(options, nodeHandle)]: [options.queueLength || -1]
    turns an absent or zero length into -1. *)
Definition ServiceClient_new (persist : bool) (queueLength : option Z)
  : ServiceClient :=
  {| _persist := persist;
     _maxQueueLength := match queueLength with
                        | Some n => if bool_decide (n = 0) then -1 else n
                        | None => -1
                        end;
     _calling := false; _serviceClient := None;
     _callQueue := []; executing := [] |}.

Inductive Effect : Type :=
| Reject (call : ServiceCall) (reason : option string)
    (* call.reject(reason); [None] is a rejection without a value *)
| LookupService (call : ServiceCall)
    (* nodeHandle.lookupService(…), then connect and send the request *)
| SendOnCachedSocket (call : ServiceCall) (socket : nat)
    (* the persistent connection is reused for the request *)
| Warn (message : string).

Local Abbreviation M A := (Js.Eff ServiceClient Effect A).

Definition set_callQueue (l : list ServiceCall) (s : ServiceClient) :=
  {| _persist := _persist s; _maxQueueLength := _maxQueueLength s;
     _calling := _calling s; _serviceClient := _serviceClient s;
     _callQueue := l; executing := executing s |}.

(** [_executeCall()], up to the start of the promise chain. *)
Definition _executeCall : M unit :=
  s ← Js.get;
  match _callQueue s with
  | [] => Js.emit (Warn "Tried executing service call on empty queue")
  | call :: rest =>
      Js.modify (λ s, {| _persist := _persist s;
                         _maxQueueLength := _maxQueueLength s;
                         _calling := true;
                         _serviceClient := _serviceClient s;
                         _callQueue := rest;
                         executing := executing s ++ [call] |}) ;;
      match _serviceClient s with
      | Some socket =>
          if _persist s then Js.emit (SendOnCachedSocket call socket)
          else Js.emit (LookupService call)
      | None => Js.emit (LookupService call)
      end
  end.

(** [call(request)], the body of the promise executor. *)
Definition call (newCall : ServiceCall) : M unit :=
  Js.modify (λ s, set_callQueue (_callQueue s ++ [newCall]) s) ;;
  s ← Js.get;
  (if bool_decide (_maxQueueLength s > 0)
      && bool_decide (Z.of_nat (length (_callQueue s)) > _maxQueueLength s)
   then
     match _callQueue s with
     | oldCall :: rest =>
         Js.modify (set_callQueue rest) ;; Js.emit (Reject oldCall None)
     | [] => Js.throw (Js.TypeError "Cannot read property 'reject' of undefined")
     end
   else mret tt) ;;
  s ← Js.get;
  if bool_decide (length (_callQueue s) = 1%nat) then _executeCall else mret tt.

(** What happens to a service client between two turns of the event loop:
    user code calls, or a scheduled [_executeCall] runs. *)
Inductive Op : Type :=
| Call (newCall : ServiceCall)
| ExecuteCall.

Definition exec (op : Op) : M unit :=
  match op with
  | Call c => call c
  | ExecuteCall => _executeCall
  end.

Definition is_Reject (e : Effect) : Prop :=
  match e with Reject _ _ => True | _ => False end.

End ServiceClient.
Arguments ServiceCall : clear implicits.
Arguments ServiceClient : clear implicits.
Arguments Effect : clear implicits.
Arguments Op : clear implicits.
End ServiceClient.

(* ===================================================================== *)
(** * Buffers and the primitive codecs of [ros_msg_utils] *)
(* ===================================================================== *)

Module Wire.

(** A Node [Buffer]: bytes as numbers 0..255; a cell that was allocated and
    never written holds no defined value. *)
Abbreviation Buffer := (list (option Z)).

(** [new Buffer(n)] *)
Definition Buffer_new (n : nat) : Buffer := replicate n None.

(** A received buffer, every byte defined. *)
Definition received (bytes : list Z) : Buffer := Some <$> bytes.

(** Writing [bytes] at [off]; a write that does not fit raises the
    RangeError of the Buffer API. *)
Definition write_at (bytes : list Z) (buf : Buffer) (off : nat)
  : Js.Result Buffer :=
  if bool_decide (off + length bytes ≤ length buf)%nat
  then Ok (take off buf ++ (Some <$> bytes) ++ drop (off + length bytes) buf)
  else Throw (Js.RangeError "Index out of range").

(** The four bytes of an unsigned 32-bit integer, little-endian; a larger
    number wraps around. *)
Definition u32le (n : Z) : list Z :=
  [n mod 256; (n / 256) mod 256; (n / 65536) mod 256; (n / 16777216) mod 256].

Definition u32le_decode (bytes : list Z) : Z :=
  match bytes with
  | [b0; b1; b2; b3] => b0 + 256 * b1 + 65536 * b2 + 16777216 * b3
  | _ => 0
  end.

(** The bytes of a string and back.  Strings are kept by their bytes; for
    the ASCII text of connection headers [str.length] is the byte count. *)
Definition bytes_of_string (str : string) : list Z :=
  (λ c, Z.of_N (Ascii.N_of_ascii c)) <$> String.list_ascii_of_string str.

Definition string_of_bytes (bytes : list Z) : string :=
  String.string_of_list_ascii ((λ b, Ascii.ascii_of_N (Z.to_N b)) <$> bytes).

(** Modelled from the spec: [base_serializers.uint8] of the package
    ros_msg_utils, whose code is not among these sources; booleans and
    flags are one byte ("Booleans as u8").  Returns the buffer written and
    the offset behind the byte. *)
Definition uint8 (val : Z) (buf : Buffer) (off : nat)
  : Js.Result (Buffer * nat) :=
  match write_at [val mod 256] buf off with
  | Ok buf' => Ok (buf', (off + 1)%nat)
  | Throw e => Throw e
  end.

(** Modelled from the spec: [base_serializers.uint32] of ros_msg_utils,
    "little-endian fixed-width primitives". *)
Definition uint32 (val : Z) (buf : Buffer) (off : nat)
  : Js.Result (Buffer * nat) :=
  match write_at (u32le val) buf off with
  | Ok buf' => Ok (buf', (off + 4)%nat)
  | Throw e => Throw e
  end.

(** Modelled from the spec: [base_serializers.string] of ros_msg_utils,
    "String as u32 little-endian length followed by raw bytes". *)
Definition string_ (str : string) (buf : Buffer) (off : nat)
  : Js.Result (Buffer * nat) :=
  let bytes := bytes_of_string str in
  match write_at (u32le (Z.of_nat (length bytes)) ++ bytes) buf off with
  | Ok buf' => Ok (buf', (off + 4 + length bytes)%nat)
  | Throw e => Throw e
  end.

(** Modelled from the spec: [base_deserializers.string] of ros_msg_utils,
    reading a "u32 little-endian length followed by raw bytes" at the
    start of [bytes]; returns the string and the cursor behind it.  Fewer
    than four bytes for the length raise the RangeError of the Buffer API;
    a string cut short by the end of the buffer is returned as far as it
    goes. *)
Definition deserialize_string (bytes : list Z) : Js.Result (string * nat) :=
  if bool_decide (length bytes < 4)%nat
  then Throw (Js.RangeError "Index out of range")
  else
    let len := Z.to_nat (u32le_decode (take 4 bytes)) in
    Ok (string_of_bytes (take len (drop 4 bytes)), (4 + len)%nat).

(** The contract of a generated message class, as the core uses it. *)
Record MessageClass (Msg : Type) : Type := mkMessageClass {
  md5sum : string;
  getMessageSize : Msg → Js.Result nat;
  (** [serialize(message, buffer, offset)] writes into [buffer] and
      returns the offset behind what it wrote. *)
  serialize : Msg → Buffer → nat → Js.Result (Buffer * nat);
  (** [deserialize(buffer, [0])] on a received buffer. *)
  deserialize : list Z → Js.Result Msg;
  Resolve : Msg → Js.Result Msg
}.
Arguments md5sum {Msg} _.
Arguments getMessageSize {Msg} _ _.
Arguments serialize {Msg} _ _ _ _.
Arguments deserialize {Msg} _ _.
Arguments Resolve {Msg} _ _.

(** A message class keeps its contract when [getMessageSize] is the length
    of the wire form and [serialize] writes exactly the wire form. *)
Definition well_behaved {Msg} (C : MessageClass Msg) (wire : Msg → list Z) : Prop :=
  (∀ m, getMessageSize C m = Ok (length (wire m)))
  ∧ (∀ m buf off, serialize C m buf off
                  = match write_at (wire m) buf off with
                    | Ok buf' => Ok (buf', (off + length (wire m))%nat)
                    | Throw e => Throw e
                    end).

(** A message class for the examples: [std_msgs/String], one string field
    [data]. *)
Definition StringMsg : MessageClass string :=
  {| md5sum := "992ce8a1687cec8c8bd883ec73ca41d1";
     getMessageSize := λ m, Ok (4 + length (bytes_of_string m))%nat;
     serialize := λ m buf off, string_ m buf off;
     deserialize := λ bytes,
       match deserialize_string bytes with
       | Ok (s, _) => Ok s
       | Throw e => Throw e
       end;
     Resolve := λ m, Ok m |}.

End Wire.

#[global] Instance result_ret : MRet Js.Result := λ A a, Ok a.
#[global] Instance result_bind : MBind Js.Result :=
  λ A B k r, match r with Ok a => k a | Throw e => Throw e end.
#[global] Instance result_fmap : FMap Js.Result :=
  λ A B f r, match r with Ok a => Ok (f a) | Throw e => Throw e end.

(* ===================================================================== *)
(** * [utils/tcpros_utils.js] *)
(* ===================================================================== *)

Module TcprosUtils.
Import Wire.

Definition callerIdPrefix : string := "callerid=".
Definition md5Prefix : string := "md5sum=".
Definition topicPrefix : string := "topic=".
Definition servicePrefix : string := "service=".
Definition typePrefix : string := "type=".
Definition latchingPrefix : string := "latching=".
Definition persistentPrefix : string := "persistent=".

(** [str.length] of an ASCII text: one unit for a character, which is one
    byte.  Text with other characters, where JavaScript counts UTF-16 units
    and the buffer holds UTF-8 bytes, is outside the embedding; statements
    about texts that come from a peer ask for ASCII text. *)
Definition strlen (str : string) : nat := length (bytes_of_string str).

(** The second [forEach] of [serializeStringFields]. *)
Fixpoint write_fields (fields : list string) (buf : Buffer) (offset : nat)
  : Js.Result (Buffer * nat) :=
  match fields with
  | [] => Ok (buf, offset)
  | field :: fields' =>
      '(buf', offset') ← string_ field buf offset;
      write_fields fields' buf' offset'
  end.

(** [serializeStringFields(fields)] *)
Definition serializeStringFields (fields : list string) : Js.Result Buffer :=
  let length_ := foldl (λ length_ field, (length_ + (strlen field + 4))%nat) 0%nat fields in
  let buffer := Buffer_new (4 + length_) in
  '(buffer, offset) ← uint32 (Z.of_nat length_) buffer 0;
  '(buffer, _) ← write_fields fields buffer offset;
  mret buffer.

(** [prefix + latching] for a boolean. *)
Definition string_of_bool (b : bool) : string := if b then "true" else "false".

(** [createSubHeader(callerId, md5sum, topic, type)] *)
Definition createSubHeader (callerId md5sum topic type : string) : Js.Result Buffer :=
  serializeStringFields
    [callerIdPrefix +:+ callerId; md5Prefix +:+ md5sum;
     topicPrefix +:+ topic; typePrefix +:+ type].

(** [createPubHeader(callerId, md5sum, type, latching)] *)
Definition createPubHeader (callerId md5sum type : string) (latching : bool)
  : Js.Result Buffer :=
  serializeStringFields
    [callerIdPrefix +:+ callerId; md5Prefix +:+ md5sum;
     typePrefix +:+ type; latchingPrefix +:+ string_of_bool latching].

(** [serializeString(str)] *)
Definition serializeString (str : string) : Js.Result Buffer :=
  let buf := Buffer_new (strlen str + 4) in
  '(buf, _) ← string_ str buf 0;
  mret buf.

(** [deserializeString(buffer, true)]: the string at the front and the
    buffer sliced behind it. *)
Definition deserializeString (buffer : list Z) : Js.Result (string * list Z) :=
  '(val, offset) ← deserialize_string buffer;
  mret (val, drop offset buffer).

(** ** The header parsers *)

(** [\w] *)
Definition is_word (c : Ascii.ascii) : bool :=
  let n := Ascii.nat_of_ascii c in
  ((48 <=? n) && (n <=? 57) || (65 <=? n) && (n <=? 90)
   || (97 <=? n) && (n <=? 122) || (n =? 95))%nat.

(** The line terminators among single bytes: [.] matches none of them and
    under the [m] flag [^] matches behind each. *)
Definition is_terminator (c : Ascii.ascii) : bool :=
  let n := Ascii.nat_of_ascii c in ((n =? 10) || (n =? 13))%nat.

Fixpoint take_while (p : Ascii.ascii → bool) (s : string) : string :=
  match s with
  | String c s' => if p c then String c (take_while p s') else EmptyString
  | EmptyString => EmptyString
  end.

Fixpoint drop_while (p : Ascii.ascii → bool) (s : string) : string :=
  match s with
  | String c s' => if p c then drop_while p s' else s
  | EmptyString => EmptyString
  end.

(** [(\w+)=(.+)] tried at the start of [s]: the two groups. *)
Definition match_here (s : string) : option (string * string) :=
  let key := take_while is_word s in
  match key, drop_while is_word s with
  | String _ _, String c rest =>
      if negb (Ascii.eqb c (Ascii.ascii_of_nat 61)) then None else (* '=' *)
      match take_while (λ c, negb (is_terminator c)) rest with
      | String _ _ as value => Some (key, value)
      | EmptyString => None
      end
  | _, _ => None
  end.

(** [string.match(/^(\w+)=(.+)/m)]: the first line start, from the left,
    where the pattern matches.  [at_start] says that [s] begins a line. *)
Fixpoint regex_match (at_start : bool) (s : string) : option (string * string) :=
  match (if at_start then match_here s else None) with
  | Some groups => Some groups
  | None =>
      match s with
      | String c s' => regex_match (is_terminator c) s'
      | EmptyString => None
      end
  end.

(** [info[key] = value] on an object literal, for a string [value]: the key
    becomes a property of the object itself, except [__proto__], which names
    the accessor of [Object.prototype]; its setter ignores a value that is no
    object, and the object gets no property. *)
Definition set_property (key value : string) (info : gmap string string)
  : gmap string string :=
  if bool_decide (key = "__proto__") then info else <[key := value]> info.

(** The loop of [parseTcpRosHeader]; every round takes at least four bytes
    off [header], so [length header] rounds always suffice. *)
Fixpoint parseTcpRosHeader_loop (fuel : nat) (header : list Z)
    (info : gmap string string) : Js.Result (gmap string string) :=
  match header, fuel with
  | [], _ => Ok info
  | _, O => Ok info
  | _, S fuel' =>
      '(str, buffer) ← deserializeString header;
      match regex_match true str with
      | None =>
          (* console.error('…', field): no variable [field] is in scope *)
          Throw (Js.ReferenceError "field is not defined")
      | Some (key, value) =>
          parseTcpRosHeader_loop fuel' buffer (set_property key value info)
      end
  end.

(** [parseTcpRosHeader(header)] *)
Definition parseTcpRosHeader (header : list Z) : Js.Result (gmap string string) :=
  parseTcpRosHeader_loop (length header) header ∅.

(** [field.startsWith(prefix)] and [field.substr(prefix.length)] *)
Definition startsWith (pre field : string) : bool := String.prefix pre field.
Definition substr_from (n : nat) (field : string) : string :=
  String.substring n (String.length field - n) field.

Fixpoint parsePubHeader_loop (fuel : nat) (header : list Z)
    (info : gmap string string) : Js.Result (gmap string string) :=
  match header, fuel with
  | [], _ => Ok info
  | _, O => Ok info
  | _, S fuel' =>
      '(field, buffer) ← deserializeString header;
      parsePubHeader_loop fuel' buffer
        (if startsWith md5Prefix field then
           <["md5sum" := substr_from (String.length md5Prefix) field]> info
         else if startsWith latchingPrefix field then
           <["latching" := substr_from (String.length latchingPrefix) field]> info
         else if startsWith callerIdPrefix field then
           <["callerId" := substr_from (String.length callerIdPrefix) field]> info
         else if startsWith typePrefix field then
           <["type" := substr_from (String.length typePrefix) field]> info
         else info)
  end.

(** [parsePubHeader(header)] *)
Definition parsePubHeader (header : list Z) : Js.Result (gmap string string) :=
  parsePubHeader_loop (length header) header ∅.

(** ** Validation *)

(** [header.hasOwnProperty(name)] on a parsed header, an object whose own
    properties are the entries of [header].  The method is the one of
    [Object.prototype] unless the header has a property of its own named
    [hasOwnProperty]: that one is a string, and calling it raises a
    TypeError. *)
Definition hasOwnProperty (header : gmap string string) (name : string)
  : Js.Result bool :=
  match header !! "hasOwnProperty" with
  | Some _ => Throw (Js.TypeError "header.hasOwnProperty is not a function")
  | None => Ok (bool_decide (is_Some (header !! name)))
  end.

(** [validateSubHeader(header, topic, type, md5sum)]: [Ok None] is the
    returned null, [Ok (Some buffer)] the serialized error text. *)
Definition validateSubHeader (header : gmap string string)
    (topic type md5sum : string) : Js.Result (option Buffer) :=
  has_topic ← hasOwnProperty header "topic";
  if negb has_topic then
    Some <$> serializeString "Connection header missing expected field [topic]"
  else
    (has_type ← hasOwnProperty header "type";
     if negb has_type then
       Some <$> serializeString "Connection header missing expected field [type]"
     else
       (has_md5sum ← hasOwnProperty header "md5sum";
        if negb has_md5sum then
          Some <$> serializeString "Connection header missing expected field [md5sum]"
        else
          match header !! "topic", header !! "type", header !! "md5sum" with
          | Some header_topic, Some header_type, Some header_md5sum =>
              if bool_decide (header_topic ≠ topic) then
                Some <$> serializeString ("Got incorrect topic [" +:+ header_topic
                                            +:+ "] expected [" +:+ topic +:+ "]")
              else if bool_decide (header_type ≠ type)
                      && bool_decide (header_type ≠ "*") then
                Some <$> serializeString ("Got incorrect message type [" +:+ header_type
                                            +:+ "] expected [" +:+ type +:+ "]")
              else if bool_decide (header_md5sum ≠ md5sum)
                      && bool_decide (header_md5sum ≠ "*") then
                Some <$> serializeString ("Got incorrect md5sum [" +:+ header_md5sum
                                            +:+ "] expected [" +:+ md5sum +:+ "]")
              else Ok None
          | _, _, _ => Ok None   (* the three are properties of the header here *)
          end)).

(** The header is turned down by [validateSubHeader]: a field is missing,
    the topic is another one, or type or md5sum differ without the header
    carrying '*'. *)
Definition turned_down (header : gmap string string) (topic type md5 : string)
  : Prop :=
  header !! "topic" = None ∨ header !! "type" = None ∨ header !! "md5sum" = None
  ∨ (∃ t, header !! "topic" = Some t ∧ t ≠ topic)
  ∨ (∃ ty, header !! "type" = Some ty ∧ ty ≠ type ∧ ty ≠ "*")
  ∨ (∃ m, header !! "md5sum" = Some m ∧ m ≠ md5 ∧ m ≠ "*").

(** [TcprosUtils.validatePubHeader]: the object literal that
    tcpros_utils.js exports has no property of this name, so the member
    expression evaluates to undefined. *)
Definition validatePubHeader
  : option (gmap string string → string → string → Js.Result (option Buffer)) :=
  None.

(** ** Messages and service responses *)

(** [serializeMessage(MessageClass, message, prependMessageLength)] *)
Definition serializeMessage {Msg} (C : MessageClass Msg) (message : Msg)
    (prependMessageLength : bool) : Js.Result Buffer :=
  msgSize ← getMessageSize C message;
  '(msgBuffer, offset) ←
    (if prependMessageLength
     then uint32 (Z.of_nat msgSize) (Buffer_new (msgSize + 4)) 0
     else Ok (Buffer_new msgSize, 0%nat));
  '(msgBuffer, _) ← serialize C message msgBuffer offset;
  mret msgBuffer.

(** [serializeServiceResponse(ResponseClass, response, success,
    prependResponseInfo)] *)
Definition serializeServiceResponse {Msg} (C : MessageClass Msg) (response : Msg)
    (success prependResponseInfo : bool) : Js.Result Buffer :=
  if prependResponseInfo then
    if success then
      respSize ← getMessageSize C response;
      let responseBuffer := Buffer_new (respSize + 5) in
      '(responseBuffer, _) ← uint8 1 responseBuffer 0;
      '(responseBuffer, _) ← uint32 (Z.of_nat respSize) responseBuffer 1;
      '(responseBuffer, _) ← serialize C response responseBuffer 5;
      mret responseBuffer
    else
      let errorMessage := "Unable to handle service call" in
      let errLen := strlen errorMessage in
      let responseBuffer := Buffer_new (5 + errLen) in
      '(responseBuffer, _) ← uint8 0 responseBuffer 0;
      '(responseBuffer, _) ← string_ errorMessage responseBuffer 1;
      mret responseBuffer
  else
    respSize ← getMessageSize C response;
    mret (Buffer_new respSize).

(** [deserializeMessage(MessageClass, messageBuffer)] *)
Definition deserializeMessage {Msg} (C : MessageClass Msg) (messageBuffer : list Z)
  : Js.Result Msg :=
  deserialize C messageBuffer.

End TcprosUtils.

(* ===================================================================== *)
(** * [lib/Publisher.js] *)
(* ===================================================================== *)

(** Sockets, by the [name] the listener gave them and an identity. *)
Record Socket : Type := mkSocket { name : string; socketId : nat }.

#[global] Instance Socket_eq_dec : EqDecision Socket.
Proof. solve_decision. Defined.

Module Publisher.
Section Publisher.
Import Wire.

Context {Msg : Type}.

(** [Serialize] of serialization_utils.js, a file that is not among these
    sources: the framing put around a buffer before it goes on a socket. *)
Variable Serialize : Buffer → Buffer.

Record Publisher : Type := mkPublisher {
  _topic : string;
  _type : string;
  _latching : bool;
  _tcpNoDelay : bool;
  _queueSize : Z;
  _throttleMs : Z;
  _resolve : bool;
  _lastSentMsg : option Buffer;          (* null until a latched send *)
  _subClients : Js.Map Socket;           (* object keyed by socket name *)
  _messageHandler : MessageClass Msg;
  nodeName : string                      (* _nodeHandle.getNodeName() *)
}.

(** Calls on sockets, the spinner, the event emitter and the error log;
    info and debug logging is left out. *)
Inductive Effect : Type :=
| SocketWrite (socket : Socket) (data : Buffer)
| SocketEnd (socket : Socket) (data : Buffer)
| SocketSetNoDelay (socket : Socket)
| SocketOn (socket : Socket) (event : string)
| Emit (event : string)
| SpinnerPing (clientId : string) (msg : Msg)
| LogError (message : string).

Local Abbreviation M A := (Js.Eff Publisher Effect A).

(** A synchronous call that may throw, inside a method. *)
Definition lift {A} (r : Js.Result A) : M A :=
  match r with Ok a => mret a | Throw e => Js.throw e end.

Definition _getSpinnerId (p : Publisher) : string := "Publisher://" +:+ _topic p.

Definition set_lastSentMsg (m : option Buffer) (p : Publisher) : Publisher :=
  {| _topic := _topic p; _type := _type p; _latching := _latching p;
     _tcpNoDelay := _tcpNoDelay p; _queueSize := _queueSize p;
     _throttleMs := _throttleMs p; _resolve := _resolve p;
     _lastSentMsg := m; _subClients := _subClients p;
     _messageHandler := _messageHandler p; nodeName := nodeName p |}.

Definition set_subClients (c : Js.Map Socket) (p : Publisher) : Publisher :=
  {| _topic := _topic p; _type := _type p; _latching := _latching p;
     _tcpNoDelay := _tcpNoDelay p; _queueSize := _queueSize p;
     _throttleMs := _throttleMs p; _resolve := _resolve p;
     _lastSentMsg := _lastSentMsg p; _subClients := c;
     _messageHandler := _messageHandler p; nodeName := nodeName p |}.

(** What the try block of [_handleMsgQueue] computes before it writes:
    the message resolved, if asked for, and serialized behind its length. *)
Definition serialized (p : Publisher) (msg : Msg) : Js.Result Buffer :=
  msg' ← (if _resolve p then Resolve (_messageHandler p) msg else Ok msg);
  TcprosUtils.serializeMessage (_messageHandler p) msg' true.

(** The body of the [forEach] of [_handleMsgQueue], with its try/catch. *)
Definition publishOne (msg : Msg) : M unit :=
  p ← Js.get;
  match serialized p msg with
  | Ok serializedMsg =>
      Js.forEach (λ kv : string * Socket, Js.emit (SocketWrite kv.2 serializedMsg))
        (_subClients p) ;;
      if _latching p then Js.modify (set_lastSentMsg (Some serializedMsg))
      else mret tt
  | Throw err =>
      Js.emit (LogError ("Error when publishing message on topic " +:+ _topic p))
  end.

(** [_handleMsgQueue(msgQueue)]; [_pubTime] is written here and read
    nowhere. *)
Definition _handleMsgQueue (msgQueue : list Msg) : M unit :=
  Js.forEach publishOne msgQueue.

(** [publish(msg, throttleMs)]; [None] is an argument that is not a
    number. *)
Definition publish (msg : Msg) (throttleMs : option Z) : M unit :=
  p ← Js.get;
  let throttleMs := default (_throttleMs p) throttleMs in
  if bool_decide (throttleMs < 0) then _handleMsgQueue [msg]
  else Js.emit (SpinnerPing (_getSpinnerId p) msg).

(** [handleSubscriberConnection(subscriber, header)] *)
Definition handleSubscriberConnection (subscriber : Socket)
    (header : gmap string string) : M unit :=
  p ← Js.get;
  error ← lift (TcprosUtils.validateSubHeader header (_topic p) (_type p)
                  (md5sum (_messageHandler p)));
  match error with
  | Some error =>
      Js.emit (LogError "Unable to validate subscriber connection header") ;;
      Js.emit (SocketEnd subscriber (Serialize error))
  | None =>
      respHeader ← lift (TcprosUtils.createPubHeader (nodeName p)
                           (md5sum (_messageHandler p)) (_type p) (_latching p));
      Js.emit (SocketWrite subscriber respHeader) ;;
      (if _tcpNoDelay p then Js.emit (SocketSetNoDelay subscriber) else mret tt) ;;
      Js.emit (SocketOn subscriber "close") ;;
      Js.emit (SocketOn subscriber "end") ;;
      Js.emit (SocketOn subscriber "error") ;;
      match _lastSentMsg p with
      | Some lastSentMsg => Js.emit (SocketWrite subscriber lastSentMsg)
      | None => mret tt
      end ;;
      Js.modify (λ p, set_subClients
                        (Js.Map_set (name subscriber) subscriber (_subClients p)) p) ;;
      Js.emit (Emit "connection")
  end.

(** The calls [handleSubscriberConnection] makes for an accepted header,
    in order. *)
Definition accepted_calls (subscriber : Socket) (p : Publisher)
    (respHeader : Buffer) : list Effect :=
  [SocketWrite subscriber respHeader]
  ++ (if _tcpNoDelay p then [SocketSetNoDelay subscriber] else [])
  ++ [SocketOn subscriber "close"; SocketOn subscriber "end";
      SocketOn subscriber "error"]
  ++ match _lastSentMsg p with
     | Some lastSentMsg => [SocketWrite subscriber lastSentMsg]
     | None => []
     end
  ++ [Emit "connection"].

(** The ['close'] handler of a subscriber socket. *)
Definition onClose (subscriber : Socket) : M unit :=
  Js.modify (λ p, set_subClients (Js.Map_delete (name subscriber) (_subClients p)) p) ;;
  Js.emit (Emit "disconnect").

(** The writes among the calls made on one socket. *)
Definition writes_to (subscriber : Socket) (out : list Effect) : list Buffer :=
  omap (λ e, match e with
             | SocketWrite s data =>
                 if bool_decide (s = subscriber) then Some data else None
             | _ => None
             end) out.

End Publisher.
Arguments Publisher : clear implicits.
Arguments Effect : clear implicits.
End Publisher.

(* ===================================================================== *)
(** * [lib/Subscriber.js]: the frames of a publisher connection *)
(* ===================================================================== *)

Module Subscriber.
Section Subscriber.
Import Wire.

Context {Msg : Type}.

(** [Serialize] of serialization_utils.js, as for the publisher. *)
Variable Serialize : Buffer → Buffer.

(** The socket to one publisher, with the [$initialized] flag that
    [_handleMessage] keeps on it. *)
Record Client : Type := mkClient {
  client_socket : Socket;
  nodeUri : string;
  _initialized : bool
}.

Record Subscriber : Type := mkSubscriber {
  _topic : string;
  _type : string;
  _queueSize : Z;
  _throttleMs : Z;
  _pubClients : Js.Map Socket;
  _messageHandler : MessageClass Msg
}.

Inductive Effect : Type :=
| LogError (message : string)
| LogWarn (message : string)
| SocketEnd (socket : Socket) (data : Buffer)
| SocketOn (socket : Socket) (event : string)
| Emit (event : string)
| EmitMessage (msg : Msg)            (* emit('message', msg): the user callback *)
| SpinnerPing (clientId : string) (frame : list Z).

(** [_handleMessage] works on the subscriber and on the client socket. *)
Local Abbreviation M A := (Js.Eff (Subscriber * Client) Effect A).

Definition lift {A} (r : Js.Result A) : M A :=
  match r with Ok a => mret a | Throw e => Js.throw e end.

Definition _getSpinnerId (s : Subscriber) : string := "Subscriber://" +:+ _topic s.

(** [_handleMsgQueue(msgQueue)] *)
Definition _handleMsgQueue (msgQueue : list (list Z)) : M unit :=
  Js.forEach (λ msg,
      st ← Js.get;
      match deserialize (_messageHandler st.1) msg with
      | Ok m => Js.emit (EmitMessage m)
      | Throw err => Js.emit (LogWarn "Error while dispatching message")
      end) msgQueue.

Definition initialize : M unit :=
  Js.modify (λ st : Subscriber * Client,
    ({| _topic := _topic st.1; _type := _type st.1; _queueSize := _queueSize st.1;
        _throttleMs := _throttleMs st.1;
        _pubClients := Js.Map_set (name (client_socket st.2)) (client_socket st.2)
                         (_pubClients st.1);
        _messageHandler := _messageHandler st.1 |},
     {| client_socket := client_socket st.2; nodeUri := nodeUri st.2;
        _initialized := true |})).

(** The body of [_handleMessage(client, msg)], with [validatePubHeader] what
    the member expression [TcprosUtils.validatePubHeader] evaluates to:
    a function, or undefined. *)
Definition _handleMessage_using
    (validatePubHeader :
       option (gmap string string → string → string → Js.Result (option Buffer)))
    (msg : list Z) : M unit :=
  st ← Js.get;
  let '(s, client) := st in
  if negb (_initialized client) then
    header ← lift (TcprosUtils.parseTcpRosHeader msg);
    match header !! "error" with
    | Some error => Js.emit (LogError error)
    | None =>
        match validatePubHeader with
        | None =>
            Js.throw (Js.TypeError "TcprosUtils.validatePubHeader is not a function")
        | Some validatePubHeader =>
            error ← lift (validatePubHeader header (_type s)
                            (md5sum (_messageHandler s)));
            match error with
            | Some error =>
                Js.emit (LogError ("Unable to validate subscriber " +:+ _topic s
                                     +:+ " connection header")) ;;
                lift (TcprosUtils.parsePubHeader msg) ;;
                Js.emit (SocketEnd (client_socket client) (Serialize error))
            | None =>
                initialize ;;
                Js.emit (Emit "connection") ;;
                Js.emit (SocketOn (client_socket client) "close")
            end
        end
    end
  else
    if bool_decide (_throttleMs s < 0) then _handleMsgQueue [msg]
    else Js.emit (SpinnerPing (_getSpinnerId s) msg).

(** [_handleMessage(client, msg)] *)
Definition _handleMessage (msg : list Z) : M unit :=
  _handleMessage_using TcprosUtils.validatePubHeader msg.

(** The calls made while the frames of a connection come in one after the
    other; a frame whose handler throws leaves the subscriber and the
    client as they were at the throw. *)
Fixpoint frames_out (frames : list (list Z)) (st : Subscriber * Client)
  : list Effect :=
  match frames with
  | [] => []
  | msg :: frames' =>
      let r := _handleMessage msg st in
      Js.out r ++ frames_out frames' (Js.state r)
  end.

(** A frame reaches the user callback, at once or through the spinner. *)
Definition delivers (e : Effect) : Prop :=
  match e with
  | EmitMessage _ | SpinnerPing _ _ => True
  | _ => False
  end.

End Subscriber.
Arguments Client : clear implicits.
Arguments Subscriber : clear implicits.
Arguments Effect : clear implicits.
End Subscriber.

(* ===================================================================== *)
(** * The wire formats, as the specification words them *)
(* ===================================================================== *)

Module WireFormat.

(** "String as u32 little-endian length followed by raw bytes." *)
Definition enc_string (str : string) : list Z :=
  Wire.u32le (Z.of_nat (TcprosUtils.strlen str)) ++ Wire.bytes_of_string str.

(** "A sequence of u32-length-prefixed key=value strings." *)
Definition enc_fields (fields : list string) : list Z :=
  concat (enc_string <$> fields).

(** "A connection header is a u32-length-prefixed block" of such fields. *)
Definition enc_header (fields : list string) : list Z :=
  Wire.u32le (Z.of_nat (length (enc_fields fields))) ++ enc_fields fields.

(** A frame: "a u32 little-endian length followed by that many bytes". *)
Definition enc_frame (payload : list Z) : list Z :=
  Wire.u32le (Z.of_nat (length payload)) ++ payload.

(** A service response: "one byte (1 success, 0 failure) followed by
    u32-length and then either the serialized response (on success) or a
    human-readable error string (on failure)". *)
Definition enc_service_response (success : bool) (payload : list Z) : list Z :=
  [if success then 1 else 0] ++ enc_frame payload.

End WireFormat.

(* ===================================================================== *)
(** * The validation the subscriber calls for *)
(* ===================================================================== *)

Module Specified.

(** Modelled from the spec: [validatePubHeader(header, type, md5sum)], which
    lib/Subscriber.js calls and utils/tcpros_utils.js does not define, by
    "Subscribers apply the symmetric rule when reading the publisher
    response": the rule of [validateSubHeader] without the topic, which the
    response of a publisher does not carry. *)
Definition validatePubHeader (header : gmap string string) (type md5sum : string)
  : Js.Result (option Wire.Buffer) :=
  match header !! "type", header !! "md5sum" with
  | None, _ =>
      Some <$> TcprosUtils.serializeString
                 "Connection header missing expected field [type]"
  | Some _, None =>
      Some <$> TcprosUtils.serializeString
                 "Connection header missing expected field [md5sum]"
  | Some header_type, Some header_md5sum =>
      if bool_decide (header_type ≠ type) && bool_decide (header_type ≠ "*") then
        Some <$> TcprosUtils.serializeString
                   ("Got incorrect message type [" +:+ header_type
                      +:+ "] expected [" +:+ type +:+ "]")
      else if bool_decide (header_md5sum ≠ md5sum) && bool_decide (header_md5sum ≠ "*") then
        Some <$> TcprosUtils.serializeString
                   ("Got incorrect md5sum [" +:+ header_md5sum
                      +:+ "] expected [" +:+ md5sum +:+ "]")
      else Ok None
  end.

End Specified.

(* ===================================================================== *)
(** * Histories of the spinner *)
(* ===================================================================== *)

Module SpinnerHistory.
Section SpinnerHistory.

Context {Client Msg : Type}.

(** The calls a spinner makes on the outside world over a history of
    operations, a throwing operation leaving the spinner as it was at the
    throw. *)
Fixpoint trace (ops : list (Spinner.Op Client Msg))
    (s : Spinner.GlobalSpinner Client Msg) : list (Spinner.Effect Client Msg) :=
  match ops with
  | [] => []
  | op :: ops' =>
      let r := Spinner.exec op s in
      Js.out r ++ trace ops' (Js.state r)
  end.

(** The [setTimeout] calls among the calls made. *)
Fixpoint count_timers (out : list (Spinner.Effect Client Msg)) : nat :=
  match out with
  | [] => 0
  | Spinner.SetTimeout :: out' => S (count_timers out')
  | Spinner.HandleMsgQueue _ _ :: out' => count_timers out'
  end.

(** The runs of [_handleQueue] in a history. *)
Fixpoint count_ticks (ops : list (Spinner.Op Client Msg)) : nat :=
  match ops with
  | [] => 0
  | Spinner.Tick _ :: ops' => S (count_ticks ops')
  | _ :: ops' => count_ticks ops'
  end.

(** A waiting client keeps the timer armed. *)
Definition timer_covers (s : Spinner.GlobalSpinner Client Msg) : Prop :=
  Spinner._clientCallQueue s ≠ [] → Spinner._spinTimer s = true.

End SpinnerHistory.
End SpinnerHistory.


(* ===================================================================== *)
(** * The promise chain of the master RPC client, handler by handler *)
(* ===================================================================== *)

Module XmlrpcChain.
Import XmlrpcClient.

Local Abbreviation M A := (Js.Eff XmlrpcClient Effect A).

(** The first [then] and the [catch] of the chain that [_tryExecuteCall]
    hangs on the RPC of [call], run when the RPC comes back with [reply]. *)
Definition on_settled (call : XmlrpcCall) (reply : Reply) : M unit :=
  match XmlrpcCall_call reply with
  | Fulfilled resp =>
      _shiftQueue ;; _resetTimeout ;; Js.emit (Resolve call resp)
  | Rejected err =>
      if is_refused err then _scheduleTryAgain
      else _shiftQueue ;; _resetTimeout ;; Js.emit (Reject call err)
  end.

(** The last [then] of the chain. *)
Definition final_then : M unit :=
  s ← Js.get;
  if bool_decide (_timeoutId s = None) && bool_decide (0 < length (_callQueue s))%nat
  then _tryExecuteCall else mret tt.

(** The methods of the client and the handlers of its chains, as the event
    loop may run them one after the other. *)
Inductive Op : Type :=
| Call (newCall : XmlrpcCall)
| TryExecuteCall
| ShiftQueue
| ResetTimeout
| ScheduleTryAgain
| OnSettled (call : XmlrpcCall) (reply : Reply)
| FinalThen.

Definition exec (op : Op) : M unit :=
  match op with
  | Call c => call c
  | TryExecuteCall => _tryExecuteCall
  | ShiftQueue => _shiftQueue
  | ResetTimeout => _resetTimeout
  | ScheduleTryAgain => _scheduleTryAgain
  | OnSettled c reply => on_settled c reply
  | FinalThen => final_then
  end.

(** The calls made on the outside world over a history. *)
Fixpoint trace (ops : list Op) (s : XmlrpcClient) : list Effect :=
  match ops with
  | [] => []
  | op :: ops' =>
      let r := exec op s in
      Js.out r ++ trace ops' (Js.state r)
  end.

End XmlrpcChain.

(* ===================================================================== *)
(** * The service client: completion of a call, and [close] *)
(* ===================================================================== *)

Module ServiceClientChain.
Section ServiceClientChain.

Context {Request Response : Type}.

Local Abbreviation ServiceCall := (ServiceClient.ServiceCall Request).
Local Abbreviation ServiceClientT := (ServiceClient.ServiceClient Request).

(** The calls of a history of [call]s and [_executeCall] runs, in order. *)
Definition calls_of (ops : list (ServiceClient.Op Request)) : list ServiceCall :=
  omap (λ op, match op with
              | ServiceClient.Call c => Some c
              | ServiceClient.ExecuteCall => None
              end) ops.

(** The calls whose request is started, by a lookup of the service or on
    the cached socket, in order. *)
Definition started (out : list (ServiceClient.Effect Request)) : list ServiceCall :=
  omap (λ e, match e with
             | ServiceClient.LookupService c
             | ServiceClient.SendOnCachedSocket c _ => Some c
             | _ => None
             end) out.

Inductive Effect : Type :=
| Resolve (call : ServiceCall) (msg : Response)     (* call.resolve(msg) *)
| NextTick                         (* process.nextTick(_executeCall) *)
| Warn (message : string).

Local Abbreviation M A := (Js.Eff ServiceClientT Effect A).

Definition set_calling (b : bool) (s : ServiceClientT) : ServiceClientT :=
  {| ServiceClient._persist := ServiceClient._persist s;
     ServiceClient._maxQueueLength := ServiceClient._maxQueueLength s;
     ServiceClient._calling := b;
     ServiceClient._serviceClient := ServiceClient._serviceClient s;
     ServiceClient._callQueue := ServiceClient._callQueue s;
     ServiceClient.executing := ServiceClient.executing s |}.

Definition set_serviceClient (c : option nat) (s : ServiceClientT) : ServiceClientT :=
  {| ServiceClient._persist := ServiceClient._persist s;
     ServiceClient._maxQueueLength := ServiceClient._maxQueueLength s;
     ServiceClient._calling := ServiceClient._calling s;
     ServiceClient._serviceClient := c;
     ServiceClient._callQueue := ServiceClient._callQueue s;
     ServiceClient.executing := ServiceClient.executing s |}.

(** [isCallInProgress()] *)
Definition isCallInProgress (s : ServiceClientT) : bool := ServiceClient._calling s.

(** [close()] *)
Definition close : M unit :=
  s ← Js.get;
  if negb (isCallInProgress s) then Js.modify (set_serviceClient None)
  else mret tt.

(** [_scheduleNextCall()] *)
Definition _scheduleNextCall : M unit :=
  s ← Js.get;
  if bool_decide (Z.of_nat (length (ServiceClient._callQueue s)) > 0)
  then Js.emit NextTick else mret tt.

(** The [then] handler of [_executeCall] behind [_sendRequest]. *)
Definition onFulfilled (call : ServiceCall) (msg : Response) : M unit :=
  Js.modify (set_calling false) ;;
  _scheduleNextCall ;;
  Js.emit (Resolve call msg).

(** The [catch] handler of [_executeCall].  [err] is the value the chain was
    rejected with, [None] for the undefined of a [reject()] without a value
    and for null.  The argument of the log call reads [err.stack] before
    anything else is done; the handler ends by throwing [err] again. *)
Definition onRejected (err : option Js.exn) : M unit :=
  match err with
  | None => Js.throw (Js.TypeError "Cannot read property 'stack' of undefined")
  | Some e =>
      Js.emit (Warn "Error during service call") ;;
      Js.modify (set_calling false) ;;
      _scheduleNextCall ;;
      Js.throw e
  end.

(** The ['message'] listener of [_sendRequest] and the handler of
    [_executeCall] it sets off.  [deserialize] is
    [_messageHandler.Response.deserialize]; an exception it raises leaves
    the listener before the promise is settled. *)
Definition onMessage (deserialize : list Z → Js.Result Response)
    (call : ServiceCall) (msg : list Z) (success : bool) : M unit :=
  if success then
    match deserialize msg with
    | Ok response => onFulfilled call response
    | Throw e => Js.throw e
    end
  else
    Js.emit (Warn "Service error") ;;
    onRejected None.

End ServiceClientChain.
Arguments Effect : clear implicits.
End ServiceClientChain.


(* ===================================================================== *)
(** * [utils/tcpros_utils.js]: the other headers and their parsers *)
(* ===================================================================== *)

Module TcprosHeaders.
Import Wire TcprosUtils.

(** [createServiceClientHeader(callerId, service, md5sum, type, persistent)];
    the parameter [type] is not used by the body. *)
Definition createServiceClientHeader (callerId service md5sum type : string)
    (persistent : bool) : Js.Result Buffer :=
  let fields := [callerIdPrefix +:+ callerId; servicePrefix +:+ service;
                 md5Prefix +:+ md5sum] in
  let fields := if persistent then fields ++ [persistentPrefix +:+ "1"] else fields in
  serializeStringFields fields.

(** [createServiceServerHeader(callerId, md5sum, type)] *)
Definition createServiceServerHeader (callerId md5sum type : string)
  : Js.Result Buffer :=
  serializeStringFields
    [callerIdPrefix +:+ callerId; md5Prefix +:+ md5sum; typePrefix +:+ type].

(** The loop of [parseSubHeader]. *)
Fixpoint parseSubHeader_loop (fuel : nat) (header : list Z)
    (info : gmap string string) : Js.Result (gmap string string) :=
  match header, fuel with
  | [], _ => Ok info
  | _, O => Ok info
  | _, S fuel' =>
      '(field, buffer) ← deserializeString header;
      parseSubHeader_loop fuel' buffer
        (if startsWith md5Prefix field then
           <["md5sum" := substr_from (String.length md5Prefix) field]> info
         else if startsWith topicPrefix field then
           <["topic" := substr_from (String.length topicPrefix) field]> info
         else if startsWith callerIdPrefix field then
           <["callerId" := substr_from (String.length callerIdPrefix) field]> info
         else if startsWith typePrefix field then
           <["type" := substr_from (String.length typePrefix) field]> info
         else info)
  end.

(** [parseSubHeader(header)] *)
Definition parseSubHeader (header : list Z) : Js.Result (gmap string string) :=
  parseSubHeader_loop (length header) header ∅.

(** The loop of [parseServiceClientHeader]. *)
Fixpoint parseServiceClientHeader_loop (fuel : nat) (header : list Z)
    (info : gmap string string) : Js.Result (gmap string string) :=
  match header, fuel with
  | [], _ => Ok info
  | _, O => Ok info
  | _, S fuel' =>
      '(field, buffer) ← deserializeString header;
      parseServiceClientHeader_loop fuel' buffer
        (if startsWith md5Prefix field then
           <["md5sum" := substr_from (String.length md5Prefix) field]> info
         else if startsWith servicePrefix field then
           <["service" := substr_from (String.length servicePrefix) field]> info
         else if startsWith callerIdPrefix field then
           <["callerId" := substr_from (String.length callerIdPrefix) field]> info
         else if startsWith typePrefix field then
           <["type" := substr_from (String.length typePrefix) field]> info
         else info)
  end.

(** [parseServiceClientHeader(header)] *)
Definition parseServiceClientHeader (header : list Z)
  : Js.Result (gmap string string) :=
  parseServiceClientHeader_loop (length header) header ∅.

(** The loop of [parseServiceServerHeader]. *)
Fixpoint parseServiceServerHeader_loop (fuel : nat) (header : list Z)
    (info : gmap string string) : Js.Result (gmap string string) :=
  match header, fuel with
  | [], _ => Ok info
  | _, O => Ok info
  | _, S fuel' =>
      '(field, buffer) ← deserializeString header;
      parseServiceServerHeader_loop fuel' buffer
        (if startsWith md5Prefix field then
           <["md5sum" := substr_from (String.length md5Prefix) field]> info
         else if startsWith callerIdPrefix field then
           <["callerId" := substr_from (String.length callerIdPrefix) field]> info
         else if startsWith typePrefix field then
           <["type" := substr_from (String.length typePrefix) field]> info
         else info)
  end.

(** [parseServiceServerHeader(header)] *)
Definition parseServiceServerHeader (header : list Z)
  : Js.Result (gmap string string) :=
  parseServiceServerHeader_loop (length header) header ∅.

(** ** What the statements about headers ask of a text *)

(** The text is ASCII: its [length] is its byte count, and it reads back
    from its bytes as it was written. *)
Definition ascii_text (str : string) : bool :=
  forallb (λ b, bool_decide (b < 128)) (bytes_of_string str).

(** The text fits a length prefix of four bytes. *)
Definition fits (str : string) : Prop := Z.of_nat (strlen str) < 2 ^ 32.


(** A key of a connection header: one word character or more. *)
Definition word (str : string) : bool :=
  negb (String.eqb str "") && forallb is_word (String.list_ascii_of_string str).

(** A value that [(.+)] takes whole: not empty, and on one line. *)
Definition one_line (str : string) : bool :=
  negb (String.eqb str "")
  && forallb (λ c, negb (is_terminator c)) (String.list_ascii_of_string str).

(** The text holds no ['=']. *)
Definition no_equals (str : string) : bool :=
  forallb (λ c, negb (Ascii.eqb c (Ascii.ascii_of_nat 61)))
    (String.list_ascii_of_string str).

(** The field [key=value]. *)
Definition field_of (kv : string * string) : string := kv.1 +:+ "=" +:+ kv.2.

(** ** The shape the parsers by prefix share *)

(** The first case whose prefix starts the field stores the rest of the
    field under the key of the case. *)
Fixpoint store_field (cases : list (string * string)) (field : string)
    (info : gmap string string) : gmap string string :=
  match cases with
  | [] => info
  | (pre, key) :: cases' =>
      if startsWith pre field then <[key := substr_from (String.length pre) field]> info
      else store_field cases' field info
  end.

Fixpoint parse_by_prefix (cases : list (string * string)) (fuel : nat)
    (header : list Z) (info : gmap string string) : Js.Result (gmap string string) :=
  match header, fuel with
  | [], _ => Ok info
  | _, O => Ok info
  | _, S fuel' =>
      '(field, buffer) ← deserializeString header;
      parse_by_prefix cases fuel' buffer (store_field cases field info)
  end.

End TcprosHeaders.


(* ===================================================================== *)
(** * The publisher from its construction on *)
(* ===================================================================== *)

Module PublisherLife.
Section PublisherLife.
Import Wire.

Context {Msg : Type}.

(** The options that [new Publisher(options, nodeHandle)] reads.
    [latching], [tcpNoDelay] and [resolve] are what [!!] makes of the
    option; [queueSize] and [throttleMs] are [None] when the property is
    absent. *)
Record Options : Type := mkOptions {
  topic : string;
  type : string;
  latching : bool;
  tcpNoDelay : bool;
  queueSize : option Z;
  throttleMs : option Z;
  resolve : bool;
  typeClass : MessageClass Msg
}.

(** The fields the constructor sets; a [queueSize] of 0 is falsy and gives
    1 like an absent one. *)
Definition Publisher_new (options : Options) (nodeName : string)
  : Publisher.Publisher Msg :=
  {| Publisher._topic := topic options;
     Publisher._type := type options;
     Publisher._latching := latching options;
     Publisher._tcpNoDelay := tcpNoDelay options;
     Publisher._queueSize := match queueSize options with
                             | Some n => if bool_decide (n = 0) then 1 else n
                             | None => 1
                             end;
     Publisher._throttleMs := default 0 (throttleMs options);
     Publisher._resolve := resolve options;
     Publisher._lastSentMsg := None;
     Publisher._subClients := [];
     Publisher._messageHandler := typeClass options;
     Publisher.nodeName := nodeName |}.

(** [getNumSubscribers()] *)
Definition getNumSubscribers (p : Publisher.Publisher Msg) : nat :=
  length (Publisher._subClients p).

(** The subscriber table holds each name once, every socket under its own
    name. *)
Definition keyed (p : Publisher.Publisher Msg) : Prop :=
  NoDup (Publisher._subClients p).*1
  ∧ Forall (λ kv : string * Socket, kv.1 = name kv.2) (Publisher._subClients p).

(** What one message of a batch makes the publisher do: one write per
    subscriber, in the order of the table, or one log entry. *)
Definition calls_for (p : Publisher.Publisher Msg) (msg : Msg)
  : list (Publisher.Effect Msg) :=
  match Publisher.serialized p msg with
  | Ok bytes => (λ kv : string * Socket, Publisher.SocketWrite kv.2 bytes)
                  <$> Publisher._subClients p
  | Throw _ => [Publisher.LogError ("Error when publishing message on topic "
                                      +:+ Publisher._topic p)]
  end.

(** The bytes of the last message of a batch that serialized, [last] when
    none did. *)
Definition last_serialized (p : Publisher.Publisher Msg) (last : option Buffer)
    (msgs : list Msg) : option Buffer :=
  foldl (λ last msg, match Publisher.serialized p msg with
                     | Ok bytes => Some bytes
                     | Throw _ => last
                     end) last msgs.

(** [Serialize] of serialization_utils.js, as for the publisher. *)
Variable Serialize : Buffer → Buffer.

(** What happens to a publisher: the spinner or [publish] hands it a batch,
    user code publishes, a subscriber connects with its parsed header, the
    ['close'] handler of a socket runs. *)
Inductive Op : Type :=
| HandleMsgQueue (msgQueue : list Msg)
| Publish (msg : Msg) (throttleMs : option Z)
| Connect (subscriber : Socket) (header : gmap string string)
| Close (subscriber : Socket).

Definition exec (op : Op) : Js.Eff (Publisher.Publisher Msg) (Publisher.Effect Msg) unit :=
  match op with
  | HandleMsgQueue msgQueue => Publisher._handleMsgQueue msgQueue
  | Publish msg throttleMs => Publisher.publish msg throttleMs
  | Connect subscriber header =>
      Publisher.handleSubscriberConnection Serialize subscriber header
  | Close subscriber => Publisher.onClose subscriber
  end.

(** The publisher after a history, a throwing operation leaving it as it
    was at the throw. *)
Definition run (ops : list Op) (p : Publisher.Publisher Msg) : Publisher.Publisher Msg :=
  foldl (λ (p : Publisher.Publisher Msg) (op : Op), Js.state (exec op p)) p ops.

End PublisherLife.
Arguments Options : clear implicits.
Arguments Op : clear implicits.
End PublisherLife.


(* ===================================================================== *)
(** * A publisher on the spinner of its node *)
(* ===================================================================== *)

Module Node.
Section Node.
Import Wire.

Context {Msg : Type}.

(** A publisher together with the spinner that
    [this._nodeHandle.getSpinner()] gives it.  The spinner keeps a reference
    to each client; here a client is named by its spinner id. *)
Record Node : Type := mkNode {
  spinner : Spinner.GlobalSpinner string Msg;
  publisher : Publisher.Publisher Msg
}.

Inductive Effect : Type :=
| OfPublisher (e : Publisher.Effect Msg)       (* a call the publisher makes *)
| ToOtherClient (clientId : string) (msgQueue : list Msg)
    (* [_handleMsgQueue] of another client of the spinner *)
| SetTimeout.

Local Abbreviation M A := (Js.Eff Node Effect A).

(** A method of the publisher, run on the publisher of the node. *)
Definition on_publisher {A}
    (m : Js.Eff (Publisher.Publisher Msg) (Publisher.Effect Msg) A) : M A :=
  λ n, match m (publisher n) with
       | (p, out, r) => ({| spinner := spinner n; publisher := p |},
                         OfPublisher <$> out, r)
       end.

(** A call the spinner makes, as a call of the node. *)
Definition of_spinner (e : Spinner.Effect string Msg) : Effect :=
  match e with
  | Spinner.HandleMsgQueue client msgQueue => ToOtherClient client msgQueue
  | Spinner.SetTimeout => SetTimeout
  end.

(** The constructor of the publisher, on a new spinner: the fields are set
    and the publisher adds itself to the spinner. *)
Definition Node_new (options : PublisherLife.Options Msg) (nodeName : string) : Node :=
  let p := PublisherLife.Publisher_new options nodeName in
  {| spinner := Js.state (Spinner.addClient (Publisher._getSpinnerId p)
                            (Publisher._getSpinnerId p) (Publisher._queueSize p)
                            (Publisher._throttleMs p) Spinner.GlobalSpinner_new);
     publisher := p |}.

(** [publish(msg, throttleMs)], the ping going to the spinner of the node. *)
Definition publish (msg : Msg) (throttleMs : option Z) : M unit :=
  n ← Js.get;
  let throttleMs := default (Publisher._throttleMs (publisher n)) throttleMs in
  if bool_decide (throttleMs < 0) then on_publisher (Publisher._handleMsgQueue [msg])
  else
    λ n, match Spinner.ping (Publisher._getSpinnerId (publisher n)) msg (spinner n) with
         | (sp, out, r) => ({| spinner := sp; publisher := publisher n |},
                            of_spinner <$> out, r)
         end.

(** The calls of a run of [_handleQueue], carried out: a batch for the
    publisher goes to its [_handleMsgQueue]. *)
Fixpoint dispatch (out : list (Spinner.Effect string Msg)) : M unit :=
  match out with
  | [] => mret tt
  | Spinner.HandleMsgQueue client msgQueue :: out' =>
      (n ← Js.get;
       if bool_decide (client = Publisher._getSpinnerId (publisher n))
       then on_publisher (Publisher._handleMsgQueue msgQueue)
       else Js.emit (ToOtherClient client msgQueue)) ;;
      dispatch out'
  | Spinner.SetTimeout :: out' => Js.emit SetTimeout ;; dispatch out'
  end.

(** The spin timer fires at time [now]. *)
Definition tick (now : Z) : M unit :=
  λ n, match Spinner._handleQueue now (spinner n) with
       | (sp, out, r) =>
           match dispatch out {| spinner := sp; publisher := publisher n |} with
           | (n', out', Ok _) => (n', out', r)
           | (n', out', Throw e) => (n', out', Throw e)
           end
       end.

(** A subscriber connects to the publisher of the node. *)
Definition connect (Serialize : Buffer → Buffer) (n : Node)
    (conn : Socket * gmap string string) : Node :=
  Js.state (on_publisher
              (Publisher.handleSubscriberConnection Serialize conn.1 conn.2) n).

End Node.
Arguments Node : clear implicits.
Arguments Effect : clear implicits.
End Node.


(* ===================================================================== *)
(** * The logger: once and throttled methods *)
(* ===================================================================== *)

Module Logger.

(** What a log method is given for its first argument: a string, an object
    (or array) by the list of its own enumerable keys, null, or anything
    else (undefined, a number, a boolean, a function).  String objects,
    which [instanceof String] lets through by identity, are left out. *)
Inductive Arg : Type :=
| AString (s : string)
| AObject (keys : list string)
| ANull
| AOther.

Record Logger : Type := mkLogger {
  _throttledLogs : Js.StrSet;
  _onceLogs : Js.StrSet
}.

(** [new Logger(options)], the two sets. *)
Definition Logger_new : Logger := {| _throttledLogs := []; _onceLogs := [] |}.

Inductive Effect : Type :=
| SetTimeout (logId : string) (delay : Z)
    (* setTimeout(() => _throttledLogs.delete(logId), delay) *)
| Write (method : string) (args : list Arg).
    (* this[method].apply(this, args): the entry is written *)

Local Abbreviation M A := (Js.Eff Logger Effect A).

(** [array.toString()]: the elements joined by commas. *)
Fixpoint join_commas (keys : list string) : string :=
  match keys with
  | [] => ""
  | [k] => k
  | k :: keys' => k +:+ "," +:+ join_commas keys'
  end.

(** The key a log entry is remembered by: the string itself, the keys of
    an object, none for what is neither; [Object.keys(null)] throws. *)
Definition key_of (arg : Arg) : Js.Result (option string) :=
  match arg with
  | AString s => Ok (Some s)
  | AObject keys => Ok (Some (join_commas keys))
  | ANull => Throw (Js.TypeError "Cannot convert undefined or null to object")
  | AOther => Ok None
  end.

(** [_throttle(args)] with [args[0]] the time and [args[1]] the first
    argument of the entry: true when the entry has to be held back. *)
Definition _throttle (timeArg : Z) (stringArg : Arg) : M bool :=
  match key_of stringArg with
  | Throw e => Js.throw e
  | Ok None => mret false
  | Ok (Some stringArg) =>
      s ← Js.get;
      if negb (Js.Set_has stringArg (_throttledLogs s)) then
        Js.modify (λ s, {| _throttledLogs := Js.Set_add stringArg (_throttledLogs s);
                           _onceLogs := _onceLogs s |}) ;;
        Js.emit (SetTimeout stringArg timeArg) ;;
        mret false
      else mret true
  end.

(** The callback of the timer that [_throttle] sets. *)
Definition expire (logId : string) : M unit :=
  Js.modify (λ s, {| _throttledLogs := Js.Set_delete logId (_throttledLogs s);
                     _onceLogs := _onceLogs s |}).

(** [_once(args)] with [args[0]] the first argument of the entry: true when
    the entry has to be written. *)
Definition _once (logKey : Arg) : M bool :=
  match key_of logKey with
  | Throw e => Js.throw e
  | Ok None => mret true
  | Ok (Some logKey) =>
      s ← Js.get;
      if negb (Js.Set_has logKey (_onceLogs s)) then
        Js.modify (λ s, {| _throttledLogs := _throttledLogs s;
                           _onceLogs := Js.Set_add logKey (_onceLogs s) |}) ;;
        mret true
      else mret false
  end.

(** [args[i]] of an arguments object: undefined past its end. *)
Definition nth_arg (i : nat) (args : list Arg) : Arg := default AOther (args !! i).

(** The method [method + 'Throttle'] called with [throttleTime] and [args];
    [enabled] is what [this[method]()] answers, whether the level of the
    method is written at all. *)
Definition throttleMethod (method : string) (enabled : bool) (throttleTime : Z)
    (args : list Arg) : M unit :=
  if enabled then
    throttled ← _throttle throttleTime (nth_arg 0 args);
    if negb throttled then Js.emit (Write method args) else mret tt
  else mret tt.

(** The method [method + 'Once'] called with [args]. *)
Definition onceMethod (method : string) (enabled : bool) (args : list Arg) : M unit :=
  if enabled then
    _once (nth_arg 0 args) ≫= λ first : bool,
    if first then Js.emit (Write method args) else mret tt
  else mret tt.

(** What happens to a logger. *)
Inductive Op : Type :=
| Throttle (method : string) (enabled : bool) (throttleTime : Z) (args : list Arg)
| Once (method : string) (enabled : bool) (args : list Arg)
| Expire (logId : string).

Definition exec (op : Op) : M unit :=
  match op with
  | Throttle method enabled throttleTime args =>
      throttleMethod method enabled throttleTime args
  | Once method enabled args => onceMethod method enabled args
  | Expire logId => expire logId
  end.

Definition run (ops : list Op) (s : Logger) : Logger :=
  foldl (λ (s : Logger) (op : Op), Js.state (exec op s)) s ops.

(** The timer of [logId] does not fire in the history. *)
Definition keeps (logId : string) (op : Op) : Prop :=
  match op with
  | Expire logId' => logId' ≠ logId
  | _ => True
  end.

End Logger.

(* ===================================================================== *)
(** * The entry point: one node for a process *)
(* ===================================================================== *)

Module Rosnodejs.

(** [_validateNodeName(nodeName)] *)
Definition _validateNodeName (nodeName : string) : string :=
  if TcprosUtils.startsWith "/" nodeName then nodeName else "/" +:+ nodeName.

(** [_anonymizeNodeName(nodeName)], with the process id and the clock
    reading that [util.format('%s_%s_%s', …)] prints behind the name. *)
Definition _anonymizeNodeName (nodeName : string) (pid now : Z) : string :=
  nodeName +:+ "_" +:+ pretty pid +:+ "_" +:+ pretty now.

Inductive Effect : Type :=
| NewRosNode (nodeName : string)     (* rosNode = new RosNode(nodeName, rosMasterUri) *)
| ResolveNodeHandle.                 (* return Promise.resolve(this.getNodeHandle()) *)

(** [initNode(nodeName, options)] down to the creation of the node.  The
    module variable [rosNode] is kept by the name the node was created
    with, which is what [rosNode.getNodeName()] is asked for; [anonymous] is
    [options.anonymous]. *)
Definition initNode (nodeName : string) (anonymous : bool) (pid now : Z)
  : Js.Eff (option string) Effect unit :=
  let nodeName := if anonymous then _anonymizeNodeName nodeName pid now else nodeName in
  let nodeName := _validateNodeName nodeName in
  rosNode ← Js.get;
  match rosNode with
  | Some existing =>
      if bool_decide (nodeName = existing) then Js.emit ResolveNodeHandle
      else Js.throw (Js.Error ("Unable to initialize node [" +:+ nodeName
                                 +:+ "] - node [" +:+ existing +:+ "] already exists"))
  | None =>
      Js.modify (λ _, Some nodeName) ;;
      Js.emit (NewRosNode nodeName)
  end.

(** A call of [initNode], with what the process and the clock give it. *)
Record Call : Type := mkCall {
  call_nodeName : string; call_anonymous : bool; call_pid : Z; call_now : Z
}.

Definition exec (c : Call) : Js.Eff (option string) Effect unit :=
  initNode (call_nodeName c) (call_anonymous c) (call_pid c) (call_now c).

Fixpoint trace (calls : list Call) (rosNode : option string) : list Effect :=
  match calls with
  | [] => []
  | c :: calls' =>
      let r := exec c rosNode in
      Js.out r ++ trace calls' (Js.state r)
  end.

(** The nodes created among the calls made. *)
Definition created (out : list Effect) : list string :=
  omap (λ e, match e with NewRosNode nodeName => Some nodeName | _ => None end) out.

End Rosnodejs.

(* ===================================================================== *)
(** * The spinner with clients that ping from inside a run *)
(* ===================================================================== *)

Module SpinnerReentry.
Section SpinnerReentry.

Context {Client Msg : Type}.

(** What a client does to the spinner from inside its [_handleMsgQueue]: the
    pings it makes, in order, for the batch it is handed.  A subscriber whose
    listener publishes pings the spinner id of the publisher.  A ping that
    throws is taken to leave the client's [_handleMsgQueue].  Calls of
    [addClient] and [disconnect] from inside a run are not modelled, nor is
    what a client that pings its own id sees of the batch it is going
    through, which is the array that the ping pushes on. *)
Variable react : Client → list Msg → list (string * Msg).

Local Abbreviation ClientQueue := (Spinner.ClientQueue Client Msg).
Local Abbreviation M A :=
  (Js.Eff (Spinner.GlobalSpinner Client Msg) (Spinner.Effect Client Msg) A).

Definition set_handleTime (time : Z) (q : ClientQueue) : ClientQueue :=
  {| Spinner._client := Spinner._client q; Spinner._queue := Spinner._queue q;
     Spinner._queueSize := Spinner._queueSize q;
     Spinner.throttleMs := Spinner.throttleMs q;
     Spinner._handleTime := Some time |}.

(** An assignment to a field of the [ClientQueue] object that the map keeps
    under [clientId]. *)
Definition assign (clientId : string) (f : ClientQueue → ClientQueue) : M unit :=
  Js.modify (λ s, match Js.Map_get clientId (Spinner._clientQueueMap s) with
                  | Some q =>
                      Spinner.set_clientQueueMap
                        (Js.Map_set clientId (f q) (Spinner._clientQueueMap s)) s
                  | None => s
                  end).

(** [handleClientMessages(time)] of the queue [clientQueue] kept under
    [clientId], statement by statement: the time is stored, the client is
    handed the queue and pings, and the queue is replaced by an empty one
    when the client returns. *)
Definition handleClientMessages (time : Z) (clientId : string)
    (clientQueue : ClientQueue) : M bool :=
  if Spinner.eligible time clientQueue then
    assign clientId (set_handleTime time) ;;
    Js.emit (Spinner.HandleMsgQueue (Spinner._client clientQueue)
               (Spinner._queue clientQueue)) ;;
    Js.forEach (λ p : string * Msg, Spinner.ping p.1 p.2)
      (react (Spinner._client clientQueue) (Spinner._queue clientQueue)) ;;
    assign clientId (λ q, Spinner.with_queue q []) ;;
    mret true
  else mret false.

(** The [forEach] of [_handleQueue] over the call queue, a Set: an id that a
    ping adds behind the ids already there is visited in the same run, an id
    that is there already is not visited again.  [i] is the place in the
    call queue that is visited next; every round visits one id, and a run
    visits each id of the map once at most, so the rounds that
    [_handleQueue] gives it suffice. *)
Fixpoint handleAll (rounds : nat) (now : Z) (i : nat) (keepOnQueue : list string)
  : M (list string) :=
  match rounds with
  | O => mret keepOnQueue
  | S rounds' =>
      s ← Js.get;
      match Spinner._clientCallQueue s !! i with
      | None => mret keepOnQueue
      | Some clientId =>
          match Js.Map_get clientId (Spinner._clientQueueMap s) with
          | None => Js.throw (Js.TypeError
                      "Cannot read property 'handleClientMessages' of undefined")
          | Some clientQueue =>
              handleClientMessages now clientId clientQueue ≫= λ handled : bool,
              handleAll rounds' now (S i)
                (if handled then keepOnQueue else keepOnQueue ++ [clientId])
          end
      end
  end.

(** [_handleQueue()], with [now] the value of [Date.now()]. *)
Definition _handleQueue (now : Z) : M unit :=
  s ← Js.get;
  keepOnQueue ← handleAll (length (Spinner._clientCallQueue s)
                           + length (Spinner._clientQueueMap s)) now 0 [];
  Js.modify (Spinner.set_spinTimer false) ;;
  Spinner._getClientsWithQueuedMessages ;;
  (if bool_decide (Z.of_nat (length keepOnQueue) > 0)
   then Js.modify (Spinner.set_clientCallQueue (Js.Set_of_array keepOnQueue))
   else Js.modify (Spinner.set_clientCallQueue [])) ;;
  s' ← Js.get;
  if bool_decide (Z.of_nat (length (Spinner._clientCallQueue s')) > 0)
  then Spinner._setTimer
  else mret tt.

(** What a run has still to do: the ids of the call queue from place [i]
    on, and the ids of the map that a ping can still add to it. *)
Definition to_visit (i : nat) (s : Spinner.GlobalSpinner Client Msg) : nat :=
  length (Spinner._clientCallQueue s) - i
  + length (filter (λ id, id ∉ Spinner._clientCallQueue s)
              (Spinner._clientQueueMap s).*1).

(** What a run keeps: the ids to visit and to add do not get more, and the
    call queue does not get shorter. *)
Definition run_bound (n len : nat) (s : Spinner.GlobalSpinner Client Msg) : Prop :=
  (length (Spinner._clientCallQueue s)
   + length (filter (λ id, id ∉ Spinner._clientCallQueue s)
               (Spinner._clientQueueMap s).*1) ≤ n)%nat
  ∧ (len ≤ length (Spinner._clientCallQueue s))%nat.

End SpinnerReentry.
End SpinnerReentry.


(* ===================================================================== *)
(** * Properties *)
(* ===================================================================== *)

(** ** Insertion-ordered maps and sets *)

Section JsLemmas.
Context {V : Type}.
Implicit Types (m : Js.Map V) (k : string).

Lemma Map_get_set k k' (v : V) m :
  Js.Map_get k' (Js.Map_set k v m) = if decide (k = k') then Some v else Js.Map_get k' m.
Proof.
  induction m as [|[k0 v0] m IH]; simpl.
  - destruct (decide (k = k')); reflexivity.
  - destruct (decide (k0 = k)) as [->|Hne]; simpl.
    + destruct (decide (k = k')); reflexivity.
    + destruct (decide (k0 = k')) as [->|Hne'].
      * destruct (decide (k = k')); congruence.
      * exact IH.
Qed.

Lemma Map_get_delete k k' m :
  Js.Map_get k' (Js.Map_delete k m) = if decide (k = k') then None else Js.Map_get k' m.
Proof.
  unfold Js.Map_delete.
  induction m as [|[k0 v0] m IH].
  - simpl. destruct (decide (k = k')); reflexivity.
  - rewrite filter_cons. cbn [fst Js.Map_get].
    destruct (decide (k0 ≠ k)) as [Hne|Heq]; cbn [Js.Map_get].
    + destruct (decide (k0 = k')) as [->|Hne'].
      * destruct (decide (k = k')); congruence.
      * exact IH.
    + apply dec_stable in Heq. subst k0. rewrite IH.
      destruct (decide (k = k')); reflexivity.
Qed.

Lemma Map_get_Some_elem k (v : V) m : Js.Map_get k m = Some v → (k, v) ∈ m.
Proof.
  induction m as [|[k0 v0] m IH]; simpl; [discriminate|].
  destruct (decide (k0 = k)) as [->|Hne].
  - intros [= ->]. left.
  - intros H. right. auto.
Qed.

Lemma Map_get_None_keys k m : Js.Map_get k m = None ↔ k ∉ m.*1.
Proof.
  induction m as [|[k0 v0] m IH]; simpl.
  - split; [intros _; apply not_elem_of_nil | reflexivity].
  - destruct (decide (k0 = k)) as [->|Hne].
    + split; [discriminate|]. intros H. exfalso. apply H. left.
    + rewrite IH. rewrite not_elem_of_cons. intuition congruence.
Qed.

Lemma Map_elem_get k (v : V) m : NoDup m.*1 → (k, v) ∈ m → Js.Map_get k m = Some v.
Proof.
  induction m as [|[k0 v0] m IH]; simpl; intros Hnd Hin.
  - by apply elem_of_nil in Hin.
  - apply NoDup_cons in Hnd as [Hnotin Hnd].
    apply elem_of_cons in Hin as [[= <- <-]|Hin].
    + by rewrite decide_True.
    + destruct (decide (k0 = k)) as [->|Hne]; [|by apply IH].
      exfalso. apply Hnotin. apply list_elem_of_fmap. by exists (k, v).
Qed.

(** Setting a present key rewrites its entry where it stands. *)
Lemma Map_set_present k (v v0 : V) m :
  Js.Map_get k m = Some v0 → NoDup m.*1 →
  Js.Map_set k v m = (λ kv, if decide (kv.1 = k) then (kv.1, v) else kv) <$> m.
Proof.
  induction m as [|[k0 w] m IH]; simpl; [discriminate|].
  intros Hget Hnd. apply NoDup_cons in Hnd as [Hnotin Hnd].
  destruct (decide (k0 = k)) as [->|Hne].
  - f_equal. symmetry. rewrite <- (list_fmap_id m) at 2.
    apply list_fmap_ext. intros i [k1 v1] Hi. simpl.
    destruct (decide (k1 = k)) as [->|]; [|reflexivity].
    exfalso. apply Hnotin. apply list_elem_of_fmap. exists (k, v1).
    split; [reflexivity|]. by eapply list_elem_of_lookup_2.
  - f_equal. by apply IH.
Qed.

Lemma Map_set_keys_present k (v v0 : V) m :
  Js.Map_get k m = Some v0 → (Js.Map_set k v m).*1 = m.*1.
Proof.
  induction m as [|[k0 w] m IH]; simpl; [discriminate|].
  destruct (decide (k0 = k)) as [->|Hne]; simpl; [reflexivity|].
  intros H. f_equal. auto.
Qed.

Lemma Map_set_keys_absent k (v : V) m :
  Js.Map_get k m = None → (Js.Map_set k v m).*1 = m.*1 ++ [k].
Proof.
  induction m as [|[k0 w] m IH]; simpl; [reflexivity|].
  destruct (decide (k0 = k)) as [->|Hne]; simpl; [discriminate|].
  intros H. f_equal. auto.
Qed.

Lemma Map_set_NoDup k (v : V) m : NoDup m.*1 → NoDup (Js.Map_set k v m).*1.
Proof.
  intros Hnd. destruct (Js.Map_get k m) as [v0|] eqn:Hget.
  - by erewrite Map_set_keys_present.
  - rewrite Map_set_keys_absent by done.
    apply NoDup_app. split; [done|]. split; [|apply NoDup_singleton].
    intros x Hx ->%list_elem_of_singleton. by apply Map_get_None_keys in Hget.
Qed.
End JsLemmas.

Lemma elem_of_concat_intro {A} (l : list A) (ls : list (list A)) (x : A) :
  l ∈ ls → x ∈ l → x ∈ concat ls.
Proof.
  induction ls as [|l0 ls IH]; simpl; intros Hl Hx.
  - by apply elem_of_nil in Hl.
  - apply elem_of_app. apply elem_of_cons in Hl as [->|Hl]; [by left|right; auto].
Qed.

Lemma Set_add_NoDup k (s : Js.StrSet) : NoDup s → NoDup (Js.Set_add k s).
Proof.
  intros Hnd. unfold Js.Set_add, Js.Set_has. case_bool_decide; [done|].
  apply NoDup_app. split; [done|]. split; [|apply NoDup_singleton].
  intros x Hx ->%list_elem_of_singleton. done.
Qed.

Lemma elem_of_Set_add k k' (s : Js.StrSet) : k' ∈ Js.Set_add k s ↔ k' = k ∨ k' ∈ s.
Proof.
  unfold Js.Set_add, Js.Set_has. case_bool_decide.
  - split; [auto|]. intros [->|?]; done.
  - rewrite elem_of_app, list_elem_of_singleton. tauto.
Qed.

Lemma Set_of_array_NoDup (l : list string) : NoDup l → Js.Set_of_array l = l.
Proof.
  unfold Js.Set_of_array. intros Hnd.
  enough (∀ acc, NoDup (acc ++ l) → foldl (λ s k, Js.Set_add k s) acc l = acc ++ l) as H.
  { apply (H []). done. }
  clear Hnd. induction l as [|k l IH]; intros acc Hnd; simpl.
  - by rewrite app_nil_r.
  - unfold Js.Set_add at 2, Js.Set_has. rewrite bool_decide_false.
    + rewrite IH; rewrite <- app_assoc; done.
    + apply NoDup_app in Hnd as (_ & Hdisj & _). intros Hin.
      apply (Hdisj k Hin). left.
Qed.

(** ** The client queue *)

Section ClientQueueLemmas.
Context {Client Msg : Type}.
Implicit Types (q : Spinner.ClientQueue Client Msg) (msgs : list Msg).

Lemma lastn_length n msgs : length (Js.lastn n msgs) = Nat.min (length msgs) n.
Proof. unfold Js.lastn. rewrite length_drop. lia. Qed.

Lemma lastn_snoc_fits n msgs (m : Msg) :
  (length msgs < n)%nat → Js.lastn n (msgs ++ [m]) = Js.lastn n msgs ++ [m].
Proof.
  intros Hlt. unfold Js.lastn. rewrite length_app. simpl.
  replace (length msgs + 1 - n)%nat with 0%nat by lia.
  replace (length msgs - n)%nat with 0%nat by lia. reflexivity.
Qed.

Lemma lastn_snoc_full n msgs (m : Msg) :
  (1 ≤ n ≤ length msgs)%nat → Js.lastn n (msgs ++ [m]) = tail (Js.lastn n msgs ++ [m]).
Proof.
  intros Hn. unfold Js.lastn. rewrite length_app. simpl.
  replace (length msgs + 1 - n)%nat with (S (length msgs - n)) by lia.
  rewrite <- drop_app_le by lia.
  generalize (length msgs - n)%nat as k. intros k.
  generalize (msgs ++ [m]) as l. clear. intros l. revert k.
  induction l as [|x l IH]; intros [|k]; simpl; try reflexivity.
  apply IH.
Qed.

Lemma push_fields (m : Msg) q :
  Spinner._client (Spinner.push m q) = Spinner._client q ∧
  Spinner._queueSize (Spinner.push m q) = Spinner._queueSize q ∧
  Spinner.throttleMs (Spinner.push m q) = Spinner.throttleMs q ∧
  Spinner._handleTime (Spinner.push m q) = Spinner._handleTime q.
Proof. unfold Spinner.push. case_bool_decide; done. Qed.

(** One push on a queue that holds the last [n] of [msgs]. *)
Lemma push_lastn (m : Msg) q msgs :
  1 ≤ Spinner._queueSize q →
  Spinner._queue q = Js.lastn (Z.to_nat (Spinner._queueSize q)) msgs →
  Spinner._queue (Spinner.push m q)
  = Js.lastn (Z.to_nat (Spinner._queueSize q)) (msgs ++ [m]).
Proof.
  intros Hn Hq. unfold Spinner.push, Spinner.length_. simpl.
  rewrite length_app, Hq, lastn_length. simpl.
  case_bool_decide as Hover; simpl.
  - rewrite lastn_snoc_full; [reflexivity|lia].
  - rewrite lastn_snoc_fits; [reflexivity|lia].
Qed.

Lemma pushes_lastn msgs : ∀ q,
  1 ≤ Spinner._queueSize q → Spinner._queue q = [] →
  let q' := foldl (λ q m, Spinner.push m q) q msgs in
  Spinner._queue q' = Js.lastn (Z.to_nat (Spinner._queueSize q)) msgs
  ∧ Spinner._client q' = Spinner._client q
  ∧ Spinner._queueSize q' = Spinner._queueSize q
  ∧ Spinner.throttleMs q' = Spinner.throttleMs q
  ∧ Spinner._handleTime q' = Spinner._handleTime q.
Proof.
  induction msgs as [|m msgs IH] using rev_ind; intros q Hn Hq; simpl.
  - rewrite Hq. unfold Js.lastn. by rewrite drop_nil.
  - rewrite foldl_app. simpl.
    destruct (IH q Hn Hq) as (Hqueue & Hc & Hsz & Hthr & Hht).
    destruct (push_fields m (foldl (λ q m, Spinner.push m q) q msgs))
      as (Hc' & Hsz' & Hthr' & Hht').
    split; [|by rewrite Hc', Hsz', Hthr', Hht'].
    rewrite <- Hsz. apply push_lastn; rewrite Hsz; done.
Qed.

Lemma eligible_spec time q :
  Spinner.eligible time q = true
  ↔ Spinner._handleTime q = None
    ∨ ∃ t, Spinner._handleTime q = Some t ∧ time - t > Spinner.throttleMs q.
Proof.
  unfold Spinner.eligible. destruct (Spinner._handleTime q) as [t|].
  - rewrite bool_decide_eq_true. split; [eauto|].
    intros [?|(t0 & [= <-] & ?)]; done.
  - split; auto.
Qed.
End ClientQueueLemmas.

(** C1. A client queue of capacity [N >= 1] that has been pushed the
    messages [msgs] since it was last empty holds exactly the last
    [min (length msgs) N] of them in push order (so an overflow discards from
    the old end only), and a dispatch hands exactly that batch to the owner in
    one [_handleMsgQueue] call and leaves the queue empty; a queue that has
    never dispatched is dispatched at any time. *)
Theorem C1_queue_keeps_newest_and_dispatches_batch
    {Client Msg : Type} (q0 : Spinner.ClientQueue Client Msg) (msgs : list Msg) :
  1 ≤ Spinner._queueSize q0 →
  Spinner._queue q0 = [] →
  let N := Z.to_nat (Spinner._queueSize q0) in
  let q := foldl (λ q m, Spinner.push m q) q0 msgs in
  let kept := drop (length msgs - Nat.min (length msgs) N) msgs in
  Spinner._queue q = kept
  ∧ length kept = Nat.min (length msgs) N
  ∧ (∀ time, Spinner.eligible time q = true →
       ∃ q', Spinner.handleClientMessages time q
             = (q', [Spinner.HandleMsgQueue (Spinner._client q0) kept], true)
             ∧ Spinner._queue q' = []
             ∧ Spinner._handleTime q' = Some time)
  ∧ (Spinner._handleTime q0 = None → ∀ time, Spinner.eligible time q = true).
Proof.
  intros Hn Hq N q kept.
  destruct (pushes_lastn msgs q0 Hn Hq) as (Hqueue & Hc & Hsz & Hthr & Hht).
  fold q in Hqueue, Hc, Hsz, Hthr, Hht. fold N in Hqueue.
  assert (Hkept : kept = Js.lastn N msgs).
  { unfold kept, Js.lastn. f_equal. lia. }
  split; [by rewrite Hkept|].
  split; [rewrite Hkept; apply lastn_length|].
  split.
  - intros time Hel. unfold Spinner.handleClientMessages. rewrite Hel.
    rewrite Hc, Hqueue, <- Hkept.
    eexists. split; [reflexivity|]. split; reflexivity.
  - intros Hnone time. unfold Spinner.eligible. by rewrite Hht, Hnone.
Qed.

(** ** The effect monad *)

Section EffLemmas.
Context {S E : Type}.

Lemma bind_ok {A B} (m : Js.Eff S E A) (k : A → Js.Eff S E B) s s1 o1 a s2 o2 r :
  m s = (s1, o1, Ok a) → k a s1 = (s2, o2, r) → (m ≫= k) s = (s2, o1 ++ o2, r).
Proof. intros Hm Hk. unfold mbind, eff_bind, Js.bind. by rewrite Hm, Hk. Qed.

Lemma bind_throw {A B} (m : Js.Eff S E A) (k : A → Js.Eff S E B) s s1 o1 e :
  m s = (s1, o1, Throw e) → (m ≫= k) s = (s1, o1, Throw e).
Proof. intros Hm. unfold mbind, eff_bind, Js.bind. by rewrite Hm. Qed.

Lemma forEach_emit (out : list E) (s : S) :
  Js.forEach Js.emit out s = (s, out, Ok tt).
Proof.
  induction out as [|e out IH]; simpl; [reflexivity|].
  unfold Js.bind. simpl. by rewrite IH.
Qed.

Lemma forEach_skip {A} (f : A → Js.Eff S E unit) (l : list A) (s : S) :
  (∀ x, x ∈ l → f x s = (s, [], Ok tt)) → Js.forEach f l s = (s, [], Ok tt).
Proof.
  induction l as [|x l IH]; simpl; intros H; [reflexivity|].
  unfold Js.bind. rewrite H by left. rewrite IH; [reflexivity|].
  intros y Hy. apply H. by right.
Qed.

(** A property of the object that every step keeps is kept by the whole
    call, whether it returns or throws. *)
Lemma preserves_bind {A B} P (m : Js.Eff S E A) (k : A → Js.Eff S E B) :
  Js.preserves P m → (∀ a, Js.preserves P (k a)) → Js.preserves P (m ≫= k).
Proof.
  intros Hm Hk s Hs. unfold mbind, eff_bind, Js.bind.
  specialize (Hm s Hs). destruct (m s) as [[s1 o1] [a|e]]; simpl in *; [|done].
  specialize (Hk a s1 Hm). destruct (k a s1) as [[s2 o2] r]. done.
Qed.

Lemma preserves_ret {A} P (a : A) : Js.preserves P (mret a : Js.Eff S E A).
Proof. intros s Hs. done. Qed.

Lemma preserves_get P : Js.preserves P (Js.get : Js.Eff S E S).
Proof. intros s Hs. done. Qed.

Lemma preserves_emit P (e : E) : Js.preserves P (Js.emit e : Js.Eff S E unit).
Proof. intros s Hs. done. Qed.

Lemma preserves_throw {A} P e : Js.preserves P (Js.throw e : Js.Eff S E A).
Proof. intros s Hs. done. Qed.

Lemma preserves_modify P (f : S → S) :
  (∀ s, P s → P (f s)) → Js.preserves P (Js.modify f : Js.Eff S E unit).
Proof. intros Hf s Hs. by apply Hf. Qed.

Lemma preserves_forEach {A} P (f : A → Js.Eff S E unit) (l : list A) :
  (∀ x, Js.preserves P (f x)) → Js.preserves P (Js.forEach f l).
Proof.
  intros Hf. induction l as [|x l IH]; simpl.
  - apply (preserves_ret P tt).
  - apply (preserves_bind P (f x) (λ _, Js.forEach f l)); auto.
Qed.
End EffLemmas.

(** ** A tick of the spinner *)

Section TickLemmas.
Context {Client Msg : Type}.
Local Abbreviation ClientQueue := (Spinner.ClientQueue Client Msg).
Local Abbreviation GlobalSpinner := (Spinner.GlobalSpinner Client Msg).
Implicit Types (s : GlobalSpinner) (m : list (string * ClientQueue))
               (ids : list string) (q : ClientQueue).

Lemma set_clientQueueMap_id s :
  Spinner.set_clientQueueMap (Spinner._clientQueueMap s) s = s.
Proof. by destruct s. Qed.

Lemma tick_map_nil now m : Spinner.tick_map now [] m = m.
Proof.
  unfold Spinner.tick_map. rewrite <- (list_fmap_id m) at 2.
  apply list_fmap_ext. intros i kv _. rewrite bool_decide_false; [done|].
  apply not_elem_of_nil.
Qed.

Lemma Map_get_tick_map now ids m id :
  Js.Map_get id (Spinner.tick_map now ids m)
  = (λ q, if bool_decide (id ∈ ids) then Spinner.dispatched now q else q)
      <$> Js.Map_get id m.
Proof.
  unfold Spinner.tick_map. induction m as [|[k q] m IH]; simpl; [reflexivity|].
  destruct (bool_decide (k ∈ ids)) eqn:Hk; simpl;
    (destruct (decide (k = id)) as [->|Hne]; simpl; [by rewrite Hk|exact IH]).
Qed.

Lemma tick_map_keys now ids m : (Spinner.tick_map now ids m).*1 = m.*1.
Proof.
  unfold Spinner.tick_map. rewrite <- list_fmap_compose.
  apply list_fmap_ext. intros i kv _. simpl. by case_bool_decide.
Qed.

Lemma tick_map_cons now id ids m q :
  NoDup m.*1 → id ∉ ids → Js.Map_get id m = Some q →
  Spinner.tick_map now ids (Js.Map_set id (Spinner.dispatched now q) m)
  = Spinner.tick_map now (id :: ids) m.
Proof.
  intros Hnd Hnotin Hget. rewrite (Map_set_present _ _ q) by done.
  unfold Spinner.tick_map. rewrite <- list_fmap_compose.
  apply list_fmap_ext. intros i [k q'] Hi. simpl.
  destruct (decide (k = id)) as [->|Hne]; simpl.
  - rewrite bool_decide_false by done. rewrite bool_decide_true by left.
    assert (Js.Map_get id m = Some q') as Hq'.
    { apply Map_elem_get; [done|]. by eapply list_elem_of_lookup_2. }
    congruence.
  - case_bool_decide as H1; case_bool_decide as H2; try reflexivity.
    + exfalso. apply H2. by right.
    + exfalso. apply elem_of_cons in H2 as [?|?]; done.
Qed.

Lemma tick_keep_filter now ids m :
  Spinner.tick_keep now ids m = filter (λ id, Spinner.stays now m id = true) ids.
Proof.
  unfold Spinner.tick_keep. induction ids as [|id ids IH]; [reflexivity|].
  rewrite filter_cons, <- IH. cbn [fmap list_fmap concat].
  destruct (Spinner.stays now m id); reflexivity.
Qed.

Lemma handleOne_spec now id s q :
  Js.Map_get id (Spinner._clientQueueMap s) = Some q →
  Spinner.handleOne now id s
  = (Spinner.set_clientQueueMap
       (Js.Map_set id (Spinner.dispatched now q) (Spinner._clientQueueMap s)) s,
     snd (fst (Spinner.handleClientMessages now q)),
     Ok (negb (Spinner.eligible now q))).
Proof.
  intros Hget. unfold Spinner.handleOne.
  unfold mbind, eff_bind, Js.bind at 1. simpl. rewrite Hget.
  unfold Spinner.dispatched, Spinner.handleClientMessages.
  destruct (Spinner.eligible now q); simpl;
    unfold Js.bind; simpl; rewrite ?app_nil_r; reflexivity.
Qed.

Lemma handleAll_spec now ids : ∀ s keep,
  NoDup ids → NoDup (Spinner._clientQueueMap s).*1 →
  (∀ id, id ∈ ids → is_Some (Js.Map_get id (Spinner._clientQueueMap s))) →
  Spinner.handleAll now ids keep s
  = (Spinner.set_clientQueueMap
       (Spinner.tick_map now ids (Spinner._clientQueueMap s)) s,
     Spinner.tick_out now ids (Spinner._clientQueueMap s),
     Ok (keep ++ Spinner.tick_keep now ids (Spinner._clientQueueMap s))).
Proof.
  induction ids as [|id ids IH]; intros s keep Hnd Hkeys Hall.
  - simpl. rewrite tick_map_nil, set_clientQueueMap_id.
    unfold Spinner.tick_keep. simpl. by rewrite app_nil_r.
  - apply NoDup_cons in Hnd as [Hnotin Hnd].
    destruct (Hall id) as [q Hq]; [left|].
    cbn [Spinner.handleAll].
    unfold mbind, eff_bind, Js.bind. rewrite (handleOne_spec now id s q Hq).
    rewrite IH; simpl; [|done|by apply Map_set_NoDup|].
    + rewrite tick_map_cons by done. f_equal; [f_equal|].
      * unfold Spinner.tick_out. simpl. rewrite Hq. f_equal. f_equal.
        apply list_fmap_ext. intros i id' Hi. rewrite Map_get_set.
        rewrite decide_False; [done|]. intros ->.
        apply Hnotin. by eapply list_elem_of_lookup_2.
      * unfold Spinner.tick_keep, Spinner.stays. simpl. rewrite Hq.
        assert (concat ((λ id0, if match Js.Map_get id0
               (Js.Map_set id (Spinner.dispatched now q) (Spinner._clientQueueMap s))
               with Some q0 => negb (Spinner.eligible now q0) | None => false end
               then [id0] else []) <$> ids)
                = concat ((λ id0, if match Js.Map_get id0 (Spinner._clientQueueMap s)
               with Some q0 => negb (Spinner.eligible now q0) | None => false end
               then [id0] else []) <$> ids)) as ->.
        { f_equal. apply list_fmap_ext. intros i id' Hi. rewrite Map_get_set.
          rewrite decide_False; [done|]. intros ->.
          apply Hnotin. by eapply list_elem_of_lookup_2. }
        destruct (Spinner.eligible now q); simpl; [done|].
        by rewrite <- app_assoc.
    + intros id' Hin. rewrite Map_get_set. destruct (decide (id = id')); [done|].
      apply Hall. by right.
Qed.
End TickLemmas.

Section HandleQueue.
Context {Client Msg : Type}.
Local Abbreviation ClientQueue := (Spinner.ClientQueue Client Msg).
Local Abbreviation GlobalSpinner := (Spinner.GlobalSpinner Client Msg).
Implicit Types (s : GlobalSpinner) (q : ClientQueue).

Lemma check_passes s :
  (∀ id q, (id, q) ∈ Spinner._clientQueueMap s → Spinner._queue q ≠ [] →
           id ∈ Spinner._clientCallQueue s) →
  Spinner._getClientsWithQueuedMessages s = (s, [], Ok tt).
Proof.
  intros H. unfold Spinner._getClientsWithQueuedMessages.
  unfold mbind, eff_bind, Js.bind. simpl.
  rewrite forEach_skip; [reflexivity|].
  intros [id q] Hin. simpl.
  destruct (bool_decide (Spinner.length_ q > 0)) eqn:Hlen; simpl; [|reflexivity].
  unfold Js.Set_has. rewrite bool_decide_true; [reflexivity|].
  apply (H id q Hin). apply bool_decide_eq_true in Hlen.
  unfold Spinner.length_ in Hlen. destruct (Spinner._queue q); simpl in *; [lia|done].
Qed.

Lemma handleQueue_spec now s :
  Spinner.wf s →
  let ids := Spinner._clientCallQueue s in
  let m := Spinner._clientQueueMap s in
  let keep := Spinner.tick_keep now ids m in
  Spinner._handleQueue now s
  = (Spinner.mkGlobalSpinner (bool_decide (keep ≠ [])) keep
       (Spinner.tick_map now ids m),
     Spinner.tick_out now ids m
       ++ (if bool_decide (keep ≠ []) then [Spinner.SetTimeout] else []),
     Ok tt).
Proof.
  intros (Hnd & Hkeys & Hhas & Hpending) ids m keep. subst ids m.
  unfold Spinner._handleQueue.
  unfold mbind, eff_bind. unfold Js.bind at 1. cbn [Js.get].
  unfold Js.bind at 1.
  rewrite handleAll_spec by done. fold keep.
  unfold Js.bind at 1. cbn [Js.modify].
  unfold Js.bind at 1.
  rewrite check_passes.
  2:{ simpl. intros id q Hin Hne.
      apply Map_elem_get in Hin; [|by rewrite tick_map_keys].
      rewrite Map_get_tick_map in Hin.
      destruct (Js.Map_get id (Spinner._clientQueueMap s)) as [q0|] eqn:Hq0;
        simpl in Hin; [|done].
      injection Hin as <-.
      case_bool_decide as Hid; [done|]. by apply (Hpending id q0). }
  assert (NoDup keep) as Hkeep.
  { unfold keep. rewrite tick_keep_filter. by apply NoDup_filter. }
  rewrite !app_nil_l.
  destruct keep as [|k keep'] eqn:Ek.
  - rewrite bool_decide_false by done. reflexivity.
  - rewrite (bool_decide_true (_ :: _ ≠ [])) by done.
    rewrite Set_of_array_NoDup by done. reflexivity.
Qed.

Lemma wf_new : Spinner.wf (Spinner.GlobalSpinner_new : GlobalSpinner).
Proof.
  repeat split; simpl; try apply NoDup_nil_2.
  - intros id Hin. by apply elem_of_nil in Hin.
  - intros id q Hq. discriminate.
Qed.

Lemma addClient_spec client id n thr s :
  Spinner.addClient client id n thr s
  = (if bool_decide (n > 0)
     then Spinner.set_clientQueueMap
            (Js.Map_set id (Spinner.mkClientQueue client [] n thr None)
               (Spinner._clientQueueMap s)) s
     else s, [], Ok tt).
Proof.
  unfold Spinner.addClient, Spinner.ClientQueue_new.
  case_bool_decide as Hn; [|reflexivity].
  rewrite bool_decide_false by lia. reflexivity.
Qed.

Lemma ping_unknown id (msg : Msg) s :
  Js.Map_get id (Spinner._clientQueueMap s) = None →
  Spinner.ping id msg s
  = (s, [], Throw (Js.Error "Unable to queue message for unknown client")).
Proof.
  intros Hnone. unfold Spinner.ping, Spinner._queueMessage.
  unfold mbind, eff_bind, Js.bind. simpl. by rewrite Hnone.
Qed.

Lemma ping_known id (msg : Msg) s q :
  Js.Map_get id (Spinner._clientQueueMap s) = Some q →
  Spinner.ping id msg s
  = (Spinner.mkGlobalSpinner true
       (Js.Set_add id (Spinner._clientCallQueue s))
       (Js.Map_set id (Spinner.push msg q) (Spinner._clientQueueMap s)),
     if Spinner._spinTimer s then [] else [Spinner.SetTimeout],
     Ok tt).
Proof.
  intros Hq. unfold Spinner.ping, Spinner._queueMessage, Spinner._setTimer.
  unfold mbind, eff_bind, Js.bind. simpl. rewrite Hq. simpl.
  destruct (Spinner._spinTimer s) eqn:Ht; simpl; [|reflexivity].
  unfold Spinner.set_clientCallQueue, Spinner.set_clientQueueMap. simpl.
  by rewrite Ht.
Qed.

Lemma Map_delete_NoDup {V} k (m : list (string * V)) :
  NoDup m.*1 → NoDup (Js.Map_delete k m).*1.
Proof.
  unfold Js.Map_delete. induction m as [|[k0 v0] m IH]; intros Hnd; [done|].
  apply NoDup_cons in Hnd as [Hnotin Hnd].
  rewrite filter_cons. destruct (decide ((k0, v0).1 ≠ k)); [|by apply IH].
  simpl. apply NoDup_cons. split; [|by apply IH].
  intros Hin. apply Hnotin. apply list_elem_of_fmap in Hin as ([k1 v1] & -> & Hin).
  apply list_elem_of_filter in Hin as [_ Hin].
  apply list_elem_of_fmap. by exists (k1, v1).
Qed.

Lemma wf_addClient client id n thr s :
  Spinner.wf s → Spinner.wf (Js.state (Spinner.addClient client id n thr s)).
Proof.
  intros (Hnd & Hkeys & Hhas & Hpending). rewrite addClient_spec. unfold Js.state. simpl.
  case_bool_decide; [|done].
  repeat split; simpl; [done|by apply Map_set_NoDup| |].
  - intros id' Hin. rewrite Map_get_set. destruct (decide (id = id')); [done|auto].
  - intros id' q. rewrite Map_get_set. destruct (decide (id = id')).
    + intros [= <-]. done.
    + apply Hpending.
Qed.

Lemma wf_ping id (msg : Msg) s :
  Spinner.wf s → Spinner.wf (Js.state (Spinner.ping id msg s)).
Proof.
  intros Hwf. destruct (Js.Map_get id (Spinner._clientQueueMap s)) as [q|] eqn:Hq.
  - rewrite (ping_known _ _ _ q) by done. unfold Js.state. simpl.
    destruct Hwf as (Hnd & Hkeys & Hhas & Hpending).
    repeat split; simpl; [by apply Set_add_NoDup|by apply Map_set_NoDup| |].
    + intros id' Hin. rewrite Map_get_set. destruct (decide (id = id')); [done|].
      apply elem_of_Set_add in Hin as [->|Hin]; [done|auto].
    + intros id' q'. rewrite Map_get_set, elem_of_Set_add.
      destruct (decide (id = id')); [auto|]. intros H1 H2. right. eauto.
  - by rewrite ping_unknown.
Qed.

Lemma wf_disconnect id s :
  Spinner.wf s → Spinner.wf (Js.state (Spinner.disconnect id s)).
Proof.
  intros (Hnd & Hkeys & Hhas & Hpending). unfold Js.state. simpl.
  repeat split; simpl; [by apply NoDup_filter|by apply Map_delete_NoDup| |].
  - intros id' [Hne Hin]%list_elem_of_filter. rewrite Map_get_delete.
    rewrite decide_False by done. auto.
  - intros id' q. rewrite Map_get_delete. destruct (decide (id = id')); [done|].
    intros H1 H2. apply list_elem_of_filter. split; [done|eauto].
Qed.

Lemma wf_handleQueue now s :
  Spinner.wf s → Spinner.wf (Js.state (Spinner._handleQueue now s)).
Proof.
  intros Hwf. rewrite handleQueue_spec by done. unfold Js.state. simpl.
  destruct Hwf as (Hnd & Hkeys & Hhas & Hpending).
  rewrite tick_keep_filter.
  repeat split; simpl; [by apply NoDup_filter|by rewrite tick_map_keys| |].
  - intros id [_ Hin]%list_elem_of_filter. rewrite Map_get_tick_map.
    destruct (Hhas id Hin) as [q ->]. done.
  - intros id q'. rewrite Map_get_tick_map.
    destruct (Js.Map_get id (Spinner._clientQueueMap s)) as [q|] eqn:Hq; [|done].
    simpl. intros [= <-] Hne. apply list_elem_of_filter.
    case_bool_decide as Hin.
    + split; [|done]. unfold Spinner.stays. rewrite Hq.
      unfold Spinner.dispatched, Spinner.handleClientMessages in Hne.
      destruct (Spinner.eligible now q); simpl in *; done.
    + exfalso. apply Hin. eauto.
Qed.

(** Every spinner that a history of operations builds is well formed. *)
Lemma wf_run (ops : list (Spinner.Op Client Msg)) s :
  Spinner.wf s → Spinner.wf (Spinner.run ops s).
Proof.
  unfold Spinner.run. revert s. induction ops as [|op ops IH]; intros s Hwf; [done|].
  simpl. apply IH. destruct op; simpl.
  - by apply wf_addClient.
  - by apply wf_ping.
  - by apply wf_disconnect.
  - by apply wf_handleQueue.
Qed.
End HandleQueue.

(** C1 at the overflow scenario of the specification: capacity 2 and the
    pushes 1, 2, 3, 4 leave [3; 4], which one dispatch delivers. *)
Lemma C1_witness :
  let q0 := Spinner.mkClientQueue "Subscriber:///chatter" [] 2 1000 None in
  let msgs := [1; 2; 3; 4] in
  (1 ≤ Spinner._queueSize q0) ∧ Spinner._queue q0 = [] ∧
  let N := Z.to_nat (Spinner._queueSize q0) in
  let q := foldl (λ q m, Spinner.push m q) q0 msgs in
  let kept := drop (length msgs - Nat.min (length msgs) N) msgs in
  Spinner._queue q = kept
  ∧ length kept = Nat.min (length msgs) N
  ∧ (∀ time, Spinner.eligible time q = true →
       ∃ q', Spinner.handleClientMessages time q
             = (q', [Spinner.HandleMsgQueue (Spinner._client q0) kept], true)
             ∧ Spinner._queue q' = []
             ∧ Spinner._handleTime q' = Some time)
  ∧ (Spinner._handleTime q0 = None → ∀ time, Spinner.eligible time q = true).
Proof.
  split; [simpl; lia|]. split; [reflexivity|].
  apply (C1_queue_keeps_newest_and_dispatches_batch
           (Spinner.mkClientQueue "Subscriber:///chatter" [] 2 1000 None)
           [1; 2; 3; 4]); [simpl; lia|reflexivity].
Defined.

(** C9 as stated fails: with [throttleMs = 10], a last dispatch at time 0 and
    a tick at time 10, [now - lastDispatchTime >= throttleMs] holds, yet
    [handleClientMessages] hands nothing over and returns false. *)
Lemma C9_counterexample :
  let q := Spinner.mkClientQueue "Subscriber:///chatter" [7] 1 10 (Some 0) in
  let now := 10 in
  (∃ t, Spinner._handleTime q = Some t ∧ now - t >= Spinner.throttleMs q)
  ∧ Spinner.handleClientMessages now q = (q, [], false).
Proof. split; [exists 0; split; [reflexivity|simpl; lia]|reflexivity]. Qed.

(** The queue of the spinner that keys clients by object dispatches under
    the same strict test. *)
Lemma legacy_dispatch_spec {Client Msg : Type} (now : Z) (client : Client)
    (lq : LegacySpinner.ClientQueue Msg) :
  snd (LegacySpinner.handleClientMessages client now lq) = true
  ↔ LegacySpinner._handleTime lq = None
    ∨ ∃ t, LegacySpinner._handleTime lq = Some t
           ∧ now - t > LegacySpinner.throttleMs lq.
Proof.
  unfold LegacySpinner.handleClientMessages.
  destruct (LegacySpinner._handleTime lq) as [t|]; [|cbn; split; auto].
  case_bool_decide as Hgt; cbn.
  - split; [eauto|done].
  - split; [done|]. intros [?|(t0 & [= <-] & ?)]; done.
Qed.

(** C9, amended.  On a tick at time [now] of a well-formed spinner, a client
    on the call queue is dispatched if and only if its last dispatch time is
    unset or [now - lastDispatchTime > throttleMs] (strictly greater): the
    calls of the tick are one [_handleMsgQueue] per such client, in call-queue
    order; a dispatched client has its queue emptied and leaves the call
    queue; any other client keeps its queue intact, stays on the call queue,
    and the timer is armed again for the next tick.  The client queue of the
    other spinner variant applies the same strict test. *)
Theorem C9_tick_dispatches_strictly_past_throttle
    {Client Msg : Type} (s : Spinner.GlobalSpinner Client Msg) (now : Z)
    (id : string) (q : Spinner.ClientQueue Client Msg) :
  Spinner.wf s →
  id ∈ Spinner._clientCallQueue s →
  Js.Map_get id (Spinner._clientQueueMap s) = Some q →
  let r := Spinner._handleQueue now s in
  let s' := Js.state r in
  let past_throttle :=
    Spinner._handleTime q = None
    ∨ ∃ t, Spinner._handleTime q = Some t ∧ now - t > Spinner.throttleMs q in
  (∀ (client : Client) (lq : LegacySpinner.ClientQueue Msg),
      snd (LegacySpinner.handleClientMessages client now lq) = true
      ↔ LegacySpinner._handleTime lq = None
        ∨ ∃ t, LegacySpinner._handleTime lq = Some t
               ∧ now - t > LegacySpinner.throttleMs lq)
  ∧ Js.result r = Ok tt
  ∧ (∃ timer,
       Js.out r
       = concat ((λ id, match Js.Map_get id (Spinner._clientQueueMap s) with
                        | Some q => if Spinner.eligible now q
                                    then [Spinner.HandleMsgQueue (Spinner._client q)
                                            (Spinner._queue q)]
                                    else []
                        | None => []
                        end) <$> Spinner._clientCallQueue s) ++ timer
       ∧ (timer = [] ∨ timer = [Spinner.SetTimeout]))
  ∧ (Spinner.eligible now q = true ↔ past_throttle)
  ∧ (past_throttle →
       Js.Map_get id (Spinner._clientQueueMap s')
       = Some (Spinner.mkClientQueue (Spinner._client q) [] (Spinner._queueSize q)
                 (Spinner.throttleMs q) (Some now))
       ∧ (id ∉ Spinner._clientCallQueue s')
       ∧ Spinner.HandleMsgQueue (Spinner._client q) (Spinner._queue q) ∈ Js.out r)
  ∧ (¬ past_throttle →
       Js.Map_get id (Spinner._clientQueueMap s') = Some q
       ∧ id ∈ Spinner._clientCallQueue s'
       ∧ Spinner._spinTimer s' = true
       ∧ Spinner.SetTimeout ∈ Js.out r).
Proof.
  intros Hwf Hin Hq r s' past. subst r s'.
  split; [intros client lq; apply legacy_dispatch_spec|].
  rewrite handleQueue_spec by done.
  unfold Js.state, Js.out, Js.result. simpl.
  assert (Hout : Spinner.tick_out now (Spinner._clientCallQueue s) (Spinner._clientQueueMap s)
    = concat ((λ id, match Js.Map_get id (Spinner._clientQueueMap s) with
                        | Some q => if Spinner.eligible now q
                                    then [Spinner.HandleMsgQueue (Spinner._client q)
                                            (Spinner._queue q)]
                                    else []
                        | None => []
                        end) <$> Spinner._clientCallQueue s)).
  { unfold Spinner.tick_out. f_equal. apply list_fmap_ext. intros i id' _.
    destruct (Js.Map_get id' (Spinner._clientQueueMap s)) as [q'|]; [|done].
    unfold Spinner.handleClientMessages. by destruct (Spinner.eligible now q'). }
  assert (Hel : Spinner.eligible now q = true ↔ past) by apply eligible_spec.
  split; [reflexivity|]. split.
  { eexists. split; [by rewrite Hout|]. case_bool_decide; auto. }
  split; [done|].
  rewrite Map_get_tick_map, Hq, bool_decide_true by done. simpl.
  rewrite tick_keep_filter. split.
  - intros Hp. apply Hel in Hp.
    unfold Spinner.dispatched, Spinner.handleClientMessages. rewrite Hp. simpl.
    split; [done|]. split.
    + intros [Hst _]%list_elem_of_filter. unfold Spinner.stays in Hst.
      rewrite Hq, Hp in Hst. done.
    + apply elem_of_app. left. rewrite Hout.
      apply (elem_of_concat_intro
               [Spinner.HandleMsgQueue (Spinner._client q) (Spinner._queue q)]);
        [|left].
      apply list_elem_of_fmap. exists id. by rewrite Hq, Hp.
  - intros Hnp. assert (Spinner.eligible now q = false) as Hf.
    { destruct (Spinner.eligible now q); [|done]. exfalso. apply Hnp, Hel. done. }
    unfold Spinner.dispatched, Spinner.handleClientMessages. rewrite Hf. simpl.
    assert (id ∈ filter (λ id0, Spinner.stays now (Spinner._clientQueueMap s) id0 = true)
                   (Spinner._clientCallQueue s)) as Hkeep.
    { apply list_elem_of_filter. split; [|done]. unfold Spinner.stays. by rewrite Hq, Hf. }
    assert (filter (λ id0, Spinner.stays now (Spinner._clientQueueMap s) id0 = true)
                   (Spinner._clientCallQueue s) ≠ []) as Hne.
    { intros Heq. rewrite Heq in Hkeep. by apply elem_of_nil in Hkeep. }
    rewrite bool_decide_true by done.
    split; [done|]. split; [done|]. split; [done|].
    apply elem_of_app. right. left.
Qed.

(** C9, amended, at a spinner with one throttled and one fresh client. *)
Lemma C9_witness :
  let s : Spinner.GlobalSpinner string Z :=
    Spinner.run [Spinner.AddClient "pub" "Publisher:///a" 2 10;
                 Spinner.AddClient "sub" "Subscriber:///b" 2 10;
                 Spinner.Ping "Publisher:///a" 1;
                 Spinner.Tick 100;
                 Spinner.Ping "Publisher:///a" 2;
                 Spinner.Ping "Subscriber:///b" 3]
      Spinner.GlobalSpinner_new in
  let q := Spinner.mkClientQueue "pub" [2] 2 10 (Some 100) in
  Spinner.wf s ∧ "Publisher:///a" ∈ Spinner._clientCallQueue s
  ∧ Js.Map_get "Publisher:///a" (Spinner._clientQueueMap s) = Some q
  ∧ Js.Map_get "Publisher:///a"
      (Spinner._clientQueueMap (Js.state (Spinner._handleQueue 110 s))) = Some q
  ∧ Js.out (Spinner._handleQueue 110 s)
    = [Spinner.HandleMsgQueue "sub" [3]; Spinner.SetTimeout].
Proof.
  assert (Hwf : Spinner.wf (Spinner.run
                 [Spinner.AddClient "pub" "Publisher:///a" 2 10;
                  Spinner.AddClient "sub" "Subscriber:///b" 2 10;
                  Spinner.Ping "Publisher:///a" 1;
                  Spinner.Tick 100;
                  Spinner.Ping "Publisher:///a" 2;
                  Spinner.Ping "Subscriber:///b" 3]
                 (Spinner.GlobalSpinner_new : Spinner.GlobalSpinner string Z)))
    by apply wf_run, wf_new.
  assert (Hin : "Publisher:///a" ∈ ["Publisher:///a"; "Subscriber:///b"]) by left.
  pose proof (C9_tick_dispatches_strictly_past_throttle _ 110 "Publisher:///a"
                (Spinner.mkClientQueue "pub" [2] 2 10 (Some 100))
                Hwf Hin eq_refl) as (_ & _ & _ & _ & _ & Hkeep).
  split; [exact Hwf|]. split; [exact Hin|]. split; [reflexivity|].
  split; [|reflexivity].
  apply Hkeep. intros [Hnone|(t & [= <-] & Hgt)]; [discriminate|]. simpl in Hgt. lia.
Defined.

(** ** Clients that were never registered *)

Section Unregistered.
Context {Client Msg : Type}.
Implicit Types (s : Spinner.GlobalSpinner Client Msg).

Lemma exec_keeps_unregistered (op : Spinner.Op Client Msg) id s :
  ¬ Spinner.registers id op → Spinner.wf s →
  Js.Map_get id (Spinner._clientQueueMap s) = None →
  Js.Map_get id (Spinner._clientQueueMap (Js.state (Spinner.exec op s))) = None.
Proof.
  intros Hreg Hwf Hnone. destruct op as [c id' n thr|id' msg|id'|now]; simpl.
  - rewrite addClient_spec. unfold Js.state. simpl. case_bool_decide; [|done].
    simpl. rewrite Map_get_set. destruct (decide (id' = id)); [|done].
    exfalso. apply Hreg. done.
  - destruct (Js.Map_get id' (Spinner._clientQueueMap s)) as [q|] eqn:Hq.
    + rewrite (ping_known _ _ _ q) by done. unfold Js.state. simpl.
      rewrite Map_get_set. destruct (decide (id' = id)); [congruence|done].
    + by rewrite ping_unknown.
  - unfold Js.state. simpl. rewrite Map_get_delete.
    by destruct (decide (id' = id)).
  - rewrite handleQueue_spec by done. unfold Js.state. simpl.
    by rewrite Map_get_tick_map, Hnone.
Qed.

Lemma run_keeps_unregistered (ops : list (Spinner.Op Client Msg)) id : ∀ s,
  Forall (λ op, ¬ Spinner.registers id op) ops → Spinner.wf s →
  Js.Map_get id (Spinner._clientQueueMap s) = None →
  Js.Map_get id (Spinner._clientQueueMap (Spinner.run ops s)) = None.
Proof.
  unfold Spinner.run.
  induction ops as [|op ops IH]; intros s Hall Hwf Hnone; [done|].
  apply Forall_cons in Hall as [Hop Hall]. simpl. apply IH; [done| |].
  - by apply (wf_run [op]).
  - by apply exec_keeps_unregistered.
Qed.
End Unregistered.

(** C10.  [addClient] puts a queue under the client id only when
    [queueSize > 0], and the [ClientQueue] constructor throws exactly for
    [queueSize < 1]; after any history of spinner operations in which no
    [addClient] with a positive size named [clientId] (calls with
    [queueSize <= 0] included), [ping(clientId, msg)] throws 'Unable to queue
    message for unknown client' and touches neither the queues nor the call
    queue nor the timer. *)
Theorem C10_unregistered_client_ping_throws
    {Client Msg : Type} (ops : list (Spinner.Op Client Msg))
    (clientId : string) (msg : Msg) :
  Forall (λ op, ¬ Spinner.registers clientId op) ops →
  let s := Spinner.run ops Spinner.GlobalSpinner_new in
  (∀ client id n thr (s0 : Spinner.GlobalSpinner Client Msg),
      Spinner.addClient client id n thr s0
      = (if bool_decide (n > 0)
         then Spinner.set_clientQueueMap
                (Js.Map_set id (Spinner.mkClientQueue client [] n thr None)
                   (Spinner._clientQueueMap s0)) s0
         else s0, [], Ok tt))
  ∧ (∀ (client : Client) n thr,
       (∃ e, Spinner.ClientQueue_new (Msg:=Msg) client n thr = Throw e) ↔ n < 1)
  ∧ Js.Map_get clientId (Spinner._clientQueueMap s) = None
  ∧ Spinner.ping clientId msg s
    = (s, [], Throw (Js.Error "Unable to queue message for unknown client")).
Proof.
  intros Hall s. split; [intros; apply addClient_spec|]. split.
  { intros client n thr. unfold Spinner.ClientQueue_new. case_bool_decide.
    - split; [done|]. eauto.
    - split; [intros [e He]; discriminate|lia]. }
  assert (Js.Map_get clientId (Spinner._clientQueueMap s) = None) as Hnone.
  { apply run_keeps_unregistered; [done|apply wf_new|reflexivity]. }
  split; [done|]. by apply ping_unknown.
Qed.

(** C10 at a history that offers "Publisher:///a" with queue sizes 0 and -1
    only, next to a properly registered client. *)
Lemma C10_witness :
  let ops : list (Spinner.Op string Z) :=
    [Spinner.AddClient "pub" "Publisher:///a" 0 0;
     Spinner.AddClient "sub" "Subscriber:///b" 5 0;
     Spinner.Ping "Subscriber:///b" 1;
     Spinner.AddClient "pub" "Publisher:///a" (-1) 0;
     Spinner.Disconnect "Publisher:///a"] in
  Forall (λ op, ¬ Spinner.registers "Publisher:///a" op) ops
  ∧ Spinner.ping "Publisher:///a" 7 (Spinner.run ops Spinner.GlobalSpinner_new)
    = (Spinner.run ops Spinner.GlobalSpinner_new, [],
       Throw (Js.Error "Unable to queue message for unknown client")).
Proof.
  assert (H : Forall (λ op : Spinner.Op string Z, ¬ Spinner.registers "Publisher:///a" op)
            [Spinner.AddClient "pub" "Publisher:///a" 0 0;
             Spinner.AddClient "sub" "Subscriber:///b" 5 0;
             Spinner.Ping "Subscriber:///b" 1;
             Spinner.AddClient "pub" "Publisher:///a" (-1) 0;
             Spinner.Disconnect "Publisher:///a"]).
  { repeat apply Forall_cons_2; try apply Forall_nil_2; simpl;
      try (intros [_ Hn]; lia); try (intros [He _]; discriminate); tauto. }
  split; [exact H|].
  apply (C10_unregistered_client_ping_throws _ "Publisher:///a" 7 H).
Defined.

(** ** The master RPC client *)

Section XmlrpcLemmas.
Import XmlrpcClient.
Implicit Types (s : XmlrpcClient) (c head : XmlrpcCall).

Lemma settle_refused c e s :
  is_refused (Some e) = true →
  settle c (ReplyErr e) s
  = ({| _callQueue := _callQueue s;
        _timeout := if bool_decide (_timeout s + 1 < length TRY_AGAIN_LIST)%nat
                    then S (_timeout s) else _timeout s;
        _timeoutId := Some (default 1 (TRY_AGAIN_LIST !! _timeout s)) |},
     [SetTimeout (default 1 (TRY_AGAIN_LIST !! _timeout s))], Ok tt).
Proof.
  intros Href. unfold settle. cbn [XmlrpcCall_call]. rewrite Href.
  reflexivity.
Qed.

Lemma settle_failed c reply err s :
  XmlrpcCall_call reply = Rejected err → is_refused err = false →
  settle c reply s
  = ({| _callQueue := tail (_callQueue s); _timeout := 0; _timeoutId := None |},
     Reject c err :: next_call (tail (_callQueue s)), Ok tt).
Proof.
  intros Hcall Href. unfold settle. rewrite Hcall, Href.
  unfold mbind, eff_bind, Js.bind. simpl.
  destruct (tail (_callQueue s)) as [|next rest']; reflexivity.
Qed.

Lemma settle_succeeded c resp s :
  statusCode resp = 1 →
  settle c (ReplyResp resp) s
  = ({| _callQueue := tail (_callQueue s); _timeout := 0; _timeoutId := None |},
     Resolve c resp :: next_call (tail (_callQueue s)), Ok tt).
Proof.
  intros Hok. unfold settle. cbn [XmlrpcCall_call].
  rewrite bool_decide_false by (intros H; apply H, Hok).
  unfold mbind, eff_bind, Js.bind. simpl.
  destruct (tail (_callQueue s)) as [|next rest']; reflexivity.
Qed.

Lemma call_behind c s :
  _callQueue s ≠ [] →
  call c s = ({| _callQueue := _callQueue s ++ [c]; _timeout := _timeout s;
                 _timeoutId := _timeoutId s |}, [], Ok tt).
Proof.
  intros Hne. unfold call. unfold mbind, eff_bind, Js.bind. simpl.
  rewrite bool_decide_false; [reflexivity|].
  destruct (_callQueue s); [done|simpl; lia].
Qed.

Lemma calls_behind (cs : list XmlrpcCall) : ∀ s,
  _callQueue s ≠ [] →
  Js.forEach call cs s
  = ({| _callQueue := _callQueue s ++ cs; _timeout := _timeout s;
        _timeoutId := _timeoutId s |}, [], Ok tt).
Proof.
  induction cs as [|c cs IH]; intros s Hne; simpl.
  - rewrite app_nil_r. by destruct s.
  - unfold Js.bind. rewrite call_behind by done. rewrite IH; simpl.
    + by rewrite <- app_assoc.
    + by destruct (_callQueue s).
Qed.

Lemma tryExecuteCall_head head rest s :
  _callQueue s = head :: rest → _tryExecuteCall s = (s, [MethodCall head], Ok tt).
Proof.
  intros Hq. unfold _tryExecuteCall, mbind, eff_bind, Js.bind. simpl. by rewrite Hq.
Qed.

(** After [k] refused rounds the head is still the head, and the backoff
    index has moved [k] places, stopping at the last one. *)
Lemma after_refusals_spec news head rest s : ∀ k,
  _callQueue s = head :: rest → _timeout s = 0%nat →
  let s' := after_refusals news k head s in
  _timeout s' = Nat.min k 17
  ∧ ∃ rest', _callQueue s' = head :: rest'.
Proof.
  intros k Hq Ht. induction k as [|k IH].
  - simpl. split; [done|eauto].
  - destruct IH as (Hidx & rest' & Hq').
    cbn [after_refusals]. unfold refused.
    rewrite settle_refused by reflexivity. unfold Js.state at 2. simpl.
    rewrite calls_behind by (simpl; by rewrite Hq'). unfold Js.state at 2. simpl.
    erewrite tryExecuteCall_head by (simpl; rewrite Hq'; reflexivity).
    unfold Js.state. simpl. rewrite Hidx, Hq'. split; [|eauto].
    case_bool_decide; lia.
Qed.
End XmlrpcLemmas.

(** C2.  Starting from backoff index 0 (the index of a new client and the
    index after any success), the [k]-th consecutive connection-refused
    failure of the head call, [k >= 1], arms the retry timer with the [k]-th
    entry of 1, 2, 2, 4, 4, 4, 4, 8, 8, 8, 8, 16, 32, 64, 128, 256, 512, 1000
    (the last entry from the 18th failure on), whatever calls were enqueued
    in between; every successful call puts the index back to 0. *)
Theorem C2_backoff_schedule
    (s : XmlrpcClient.XmlrpcClient) (head : XmlrpcClient.XmlrpcCall)
    (rest : list XmlrpcClient.XmlrpcCall)
    (news : nat → list XmlrpcClient.XmlrpcCall) (k : nat) :
  XmlrpcClient._callQueue s = head :: rest →
  XmlrpcClient._timeout s = 0%nat →
  (1 ≤ k)%nat →
  let s_k := XmlrpcClient.after_refusals news (k - 1) head s in
  let r := XmlrpcClient.settle head XmlrpcClient.refused s_k in
  (∃ delay,
      [1; 2; 2; 4; 4; 4; 4; 8; 8; 8; 8; 16; 32; 64; 128; 256; 512; 1000]
        !! Nat.min (k - 1) 17 = Some delay
      ∧ Js.out r = [XmlrpcClient.SetTimeout delay]
      ∧ XmlrpcClient._timeoutId (Js.state r) = Some delay
      ∧ XmlrpcClient._timeout (Js.state r) = Nat.min k 17)
  ∧ (∀ s' c resp, XmlrpcClient.statusCode resp = 1 →
       XmlrpcClient._timeout (Js.state (XmlrpcClient.settle c (XmlrpcClient.ReplyResp resp) s'))
       = 0%nat)
  ∧ XmlrpcClient._timeout XmlrpcClient.XmlrpcClient_new = 0%nat.
Proof.
  intros Hq Ht Hk s_k r.
  destruct (after_refusals_spec news head rest s (k - 1) Hq Ht) as (Hidx & rest' & Hq').
  fold s_k in Hidx, Hq'.
  split; [|split; [|reflexivity]].
  - subst r. unfold XmlrpcClient.refused. rewrite settle_refused by reflexivity.
    rewrite Hidx.
    destruct (lookup_lt_is_Some_2 XmlrpcClient.TRY_AGAIN_LIST (Nat.min (k - 1) 17))
      as [delay Hd]; [simpl; lia|].
    exists delay. split; [exact Hd|]. rewrite Hd.
    unfold Js.out, Js.state. simpl. split; [done|]. split; [done|].
    case_bool_decide; lia.
  - intros s' c resp Hok. by rewrite settle_succeeded.
Qed.

(** C2 at the seventh consecutive refusal: the delay is 4 ms, the seventh
    entry of the schedule. *)
Lemma C2_witness :
  let head := XmlrpcClient.mkCall 0 "registerPublisher" ["/node"; "/chatter"] in
  let s := XmlrpcClient.mkClient [head] 0 None in
  XmlrpcClient._callQueue s = [head] ∧ XmlrpcClient._timeout s = 0%nat ∧ (1 ≤ 7)%nat
  ∧ Js.out (XmlrpcClient.settle head XmlrpcClient.refused
              (XmlrpcClient.after_refusals (λ _, []) 6 head s))
    = [XmlrpcClient.SetTimeout 4].
Proof.
  split; [reflexivity|]. split; [reflexivity|]. split; [lia|].
  destruct (C2_backoff_schedule
              (XmlrpcClient.mkClient
                 [XmlrpcClient.mkCall 0 "registerPublisher" ["/node"; "/chatter"]] 0 None)
              (XmlrpcClient.mkCall 0 "registerPublisher" ["/node"; "/chatter"])
              [] (λ _, []) 7 eq_refl eq_refl (le_n_S _ _ (Nat.le_0_l 6)))
    as ((delay & Hd & Hout & _) & _).
  injection Hd as <-. exact Hout.
Defined.

(** C3 as stated fails for timeouts and DNS failures: with the error codes
    ETIMEDOUT and ENOTFOUND the head call is removed and rejected, no timer is
    armed, and the next queued call starts. *)
Lemma C3_counterexample :
  let head := XmlrpcClient.mkCall 0 "registerPublisher" ["/node"; "/chatter"] in
  let next := XmlrpcClient.mkCall 1 "lookupService" ["/node"; "/add_two_ints"] in
  let s := XmlrpcClient.mkClient [head; next] 0 None in
  let timed_out := XmlrpcClient.mkErr (Some "ETIMEDOUT") in
  let dns_failure := XmlrpcClient.mkErr (Some "ENOTFOUND") in
  XmlrpcClient.settle head (XmlrpcClient.ReplyErr timed_out) s
  = (XmlrpcClient.mkClient [next] 0 None,
     [XmlrpcClient.Reject head (Some timed_out); XmlrpcClient.MethodCall next], Ok tt)
  ∧ XmlrpcClient.settle head (XmlrpcClient.ReplyErr dns_failure) s
    = (XmlrpcClient.mkClient [next] 0 None,
       [XmlrpcClient.Reject head (Some dns_failure); XmlrpcClient.MethodCall next], Ok tt).
Proof. split; reflexivity. Qed.

(** C3, amended.  A failure of the head call is retried exactly when its
    error carries the code ECONNREFUSED: then the head stays at the front of
    the queue, a backoff timer is armed, and when it fires the same head call
    is issued again.  Any other failure (a timeout, a DNS failure, an error
    without code, a response whose status code is not 1) removes the head,
    clears the backoff, rejects the head's future, and the next queued call,
    if there is one, is issued at once. *)
Theorem C3_refused_is_retried_other_failures_move_on
    (s : XmlrpcClient.XmlrpcClient) (head : XmlrpcClient.XmlrpcCall)
    (rest : list XmlrpcClient.XmlrpcCall) (reply : XmlrpcClient.Reply)
    (err : option XmlrpcClient.Err) :
  XmlrpcClient._callQueue s = head :: rest →
  XmlrpcClient.XmlrpcCall_call reply = XmlrpcClient.Rejected err →
  let r := XmlrpcClient.settle head reply s in
  let refused := ∃ e, err = Some e ∧ XmlrpcClient.code e = Some "ECONNREFUSED" in
  (refused →
     XmlrpcClient._callQueue (Js.state r) = head :: rest
     ∧ (∃ delay, Js.out r = [XmlrpcClient.SetTimeout delay]
                 ∧ XmlrpcClient._timeoutId (Js.state r) = Some delay)
     ∧ XmlrpcClient._tryExecuteCall (Js.state r)
       = (Js.state r, [XmlrpcClient.MethodCall head], Ok tt))
  ∧ (¬ refused →
       XmlrpcClient._callQueue (Js.state r) = rest
       ∧ Js.out r = XmlrpcClient.Reject head err :: XmlrpcClient.next_call rest
       ∧ XmlrpcClient._timeoutId (Js.state r) = None
       ∧ XmlrpcClient._timeout (Js.state r) = 0%nat).
Proof.
  intros Hq Hcall r refused.
  assert (Href : XmlrpcClient.is_refused err = true ↔ refused).
  { unfold XmlrpcClient.is_refused, refused. destruct err as [e|].
    - rewrite bool_decide_eq_true. split; [eauto|]. by intros (e' & [= <-] & He).
    - split; [done|]. by intros (e' & [=] & _). }
  split.
  - intros Hr. apply Href in Hr.
    destruct reply as [e|resp]; simpl in Hcall.
    + injection Hcall as <-. subst r. rewrite settle_refused by done.
      unfold Js.state, Js.out. simpl. split; [done|]. split; [eauto|].
      by apply (tryExecuteCall_head head rest).
    + destruct (bool_decide (XmlrpcClient.statusCode resp ≠ 1)); [|done].
      injection Hcall as <-. done.
  - intros Hnr. assert (XmlrpcClient.is_refused err = false) as Hf.
    { destruct (XmlrpcClient.is_refused err); [|done]. exfalso. by apply Hnr, Href. }
    subst r. rewrite (settle_failed _ _ err) by done.
    unfold Js.state, Js.out. simpl. by rewrite Hq.
Qed.

(** C3, amended, at a refused head call with a second call behind it. *)
Lemma C3_witness :
  let head := XmlrpcClient.mkCall 0 "registerPublisher" ["/node"; "/chatter"] in
  let next := XmlrpcClient.mkCall 1 "lookupService" ["/node"; "/add_two_ints"] in
  let s := XmlrpcClient.mkClient [head; next] 0 None in
  XmlrpcClient._callQueue s = [head; next]
  ∧ XmlrpcClient.XmlrpcCall_call XmlrpcClient.refused
    = XmlrpcClient.Rejected (Some (XmlrpcClient.mkErr (Some "ECONNREFUSED")))
  ∧ XmlrpcClient._callQueue (Js.state (XmlrpcClient.settle head XmlrpcClient.refused s))
    = [head; next].
Proof.
  split; [reflexivity|]. split; [reflexivity|].
  refine (proj1 (proj1 (C3_refused_is_retried_other_failures_move_on
            (XmlrpcClient.mkClient
               [XmlrpcClient.mkCall 0 "registerPublisher" ["/node"; "/chatter"];
                XmlrpcClient.mkCall 1 "lookupService" ["/node"; "/add_two_ints"]] 0 None)
            (XmlrpcClient.mkCall 0 "registerPublisher" ["/node"; "/chatter"])
            [XmlrpcClient.mkCall 1 "lookupService" ["/node"; "/add_two_ints"]]
            XmlrpcClient.refused
            (Some (XmlrpcClient.mkErr (Some "ECONNREFUSED")))
            eq_refl eq_refl) _)).
  eexists. split; reflexivity.
Defined.

(** ** The service client *)

Section ServiceClientLemmas.
Context {Request : Type}.
Local Abbreviation ServiceClientT := (ServiceClient.ServiceClient Request).
Local Abbreviation ServiceCallT := (ServiceClient.ServiceCall Request).
Implicit Types (s : ServiceClientT) (c : ServiceCallT).

Lemma executeCall_spec s :
  ServiceClient._executeCall s
  = match ServiceClient._callQueue s with
    | [] => (s, [ServiceClient.Warn "Tried executing service call on empty queue"],
             Ok tt)
    | c :: rest =>
        (ServiceClient.mkServiceClient (ServiceClient._persist s)
           (ServiceClient._maxQueueLength s) true (ServiceClient._serviceClient s)
           rest (ServiceClient.executing s ++ [c]),
         [match ServiceClient._serviceClient s with
          | Some socket => if ServiceClient._persist s
                           then ServiceClient.SendOnCachedSocket c socket
                           else ServiceClient.LookupService c
          | None => ServiceClient.LookupService c
          end], Ok tt)
    end.
Proof.
  unfold ServiceClient._executeCall, mbind, eff_bind, Js.bind. simpl.
  destruct (ServiceClient._callQueue s) as [|c rest]; [reflexivity|].
  simpl. destruct (ServiceClient._serviceClient s) as [socket|]; [|reflexivity].
  destruct (ServiceClient._persist s); reflexivity.
Qed.

Lemma executeCall_no_reject s :
  Forall (λ e, ¬ ServiceClient.is_Reject e) (Js.out (ServiceClient._executeCall s))
  ∧ ServiceClient._maxQueueLength (Js.state (ServiceClient._executeCall s))
    = ServiceClient._maxQueueLength s
  ∧ (∀ c, c ∈ ServiceClient.executing s →
          c ∈ ServiceClient.executing (Js.state (ServiceClient._executeCall s))).
Proof.
  rewrite executeCall_spec. destruct (ServiceClient._callQueue s) as [|c rest].
  - unfold Js.out, Js.state. simpl. split; [|done].
    apply Forall_cons. split; [simpl; tauto|apply Forall_nil_2].
  - unfold Js.out, Js.state. simpl. split; [|split; [done|]].
    + apply Forall_cons. split; [|apply Forall_nil_2].
      destruct (ServiceClient._serviceClient s); [|simpl; tauto].
      destruct (ServiceClient._persist s); simpl; tauto.
    + intros c' Hc'. apply elem_of_app. by left.
Qed.

(** [call] when the bound does not bite: the call is appended, and runs at
    once if it is alone on the queue. *)
Lemma call_within_bound c s :
  ¬ (ServiceClient._maxQueueLength s > 0
     ∧ Z.of_nat (length (ServiceClient._callQueue s ++ [c]))
       > ServiceClient._maxQueueLength s) →
  let s1 := ServiceClient.set_callQueue (ServiceClient._callQueue s ++ [c]) s in
  ServiceClient.call c s
  = if bool_decide (length (ServiceClient._callQueue s1) = 1%nat)
    then ServiceClient._executeCall s1 else (s1, [], Ok tt).
Proof.
  intros Hfit s1. unfold ServiceClient.call, mbind, eff_bind.
  unfold Js.bind at 1. cbn [Js.modify]. unfold Js.bind at 1. cbn [Js.get].
  fold s1. unfold Js.bind at 1.
  assert (bool_decide (ServiceClient._maxQueueLength s1 > 0)
          && bool_decide (Z.of_nat (length (ServiceClient._callQueue s1))
                          > ServiceClient._maxQueueLength s1) = false) as ->.
  { apply andb_false_iff. rewrite !bool_decide_eq_false. subst s1. simpl.
    destruct (decide (ServiceClient._maxQueueLength s > 0)); [right|left]; tauto. }
  cbn [Js.ret mret eff_ret]. unfold Js.bind. cbn [Js.get].
  case_bool_decide.
  - destruct (ServiceClient._executeCall s1) as [[s2 o2] r2]. reflexivity.
  - reflexivity.
Qed.

(** [call] when the bound bites: the head of the queue is shifted off and
    rejected, and the new call runs at once if it is then alone. *)
Lemma call_over_bound c s oldest rest :
  ServiceClient._callQueue s = oldest :: rest →
  ServiceClient._maxQueueLength s > 0 →
  Z.of_nat (length (ServiceClient._callQueue s ++ [c]))
  > ServiceClient._maxQueueLength s →
  let s2 := ServiceClient.set_callQueue (rest ++ [c]) s in
  ServiceClient.call c s
  = if bool_decide (length (rest ++ [c]) = 1%nat)
    then match ServiceClient._executeCall s2 with
         | (s3, o3, r3) => (s3, ServiceClient.Reject oldest None :: o3, r3)
         end
    else (s2, [ServiceClient.Reject oldest None], Ok tt).
Proof.
  intros Hq Hpos Hover s2. unfold ServiceClient.call, mbind, eff_bind.
  unfold Js.bind at 1. cbn [Js.modify]. unfold Js.bind at 1. cbn [Js.get].
  unfold Js.bind at 1.
  set (s1 := ServiceClient.set_callQueue (ServiceClient._callQueue s ++ [c]) s).
  assert (bool_decide (ServiceClient._maxQueueLength s1 > 0)
          && bool_decide (Z.of_nat (length (ServiceClient._callQueue s1))
                          > ServiceClient._maxQueueLength s1) = true) as ->.
  { apply andb_true_iff. rewrite !bool_decide_eq_true. subst s1. simpl. done. }
  assert (ServiceClient._callQueue s1 = oldest :: (rest ++ [c])) as ->.
  { subst s1. simpl. by rewrite Hq. }
  unfold Js.bind at 1. cbn [Js.modify]. cbn [Js.emit]. unfold Js.bind at 1.
  cbn [Js.get].
  assert (ServiceClient.set_callQueue (rest ++ [c]) s1 = s2) as -> by reflexivity.
  replace (ServiceClient._callQueue s2) with (rest ++ [c]) by reflexivity.
  case_bool_decide as Hone; [|reflexivity].
  destruct (ServiceClient._executeCall s2) as [[s3 o3] r3]. reflexivity.
Qed.

Lemma exec_unbounded (op : ServiceClient.Op Request) s :
  ServiceClient._maxQueueLength s < 0 →
  Forall (λ e, ¬ ServiceClient.is_Reject e) (Js.out (ServiceClient.exec op s))
  ∧ ServiceClient._maxQueueLength (Js.state (ServiceClient.exec op s))
    = ServiceClient._maxQueueLength s.
Proof.
  intros Hneg. destruct op as [c|]; simpl.
  - rewrite call_within_bound by lia. case_bool_decide.
    + destruct (executeCall_no_reject
                  (ServiceClient.set_callQueue (ServiceClient._callQueue s ++ [c]) s))
        as (H1 & H2 & _). done.
    + unfold Js.out, Js.state. simpl. split; [apply Forall_nil_2|done].
  - destruct (executeCall_no_reject s) as (H1 & H2 & _). done.
Qed.

Lemma history_unbounded (ops : list (ServiceClient.Op Request)) : ∀ s,
  ServiceClient._maxQueueLength s < 0 →
  Forall (λ e, ¬ ServiceClient.is_Reject e)
    (Js.out (Js.forEach ServiceClient.exec ops s)).
Proof.
  induction ops as [|op ops IH]; intros s Hneg; simpl.
  - apply Forall_nil_2.
  - unfold Js.bind. destruct (exec_unbounded op s Hneg) as [Hout Hmax].
    destruct (ServiceClient.exec op s) as [[s1 o1] [[]|e]];
      unfold Js.out, Js.state in *; simpl in *; [|done].
    specialize (IH s1). rewrite Hmax in IH. specialize (IH Hneg).
    destruct (Js.forEach ServiceClient.exec ops s1) as [[s2 o2] r2].
    simpl in *. apply Forall_app. done.
Qed.
End ServiceClientLemmas.

(** C7, the code at a client with [queueLength] 1 that is called three
    times before any answer arrives.  The claim has the second call wait on
    the queue while the first is executed, and the third push it out, rejected
    as dropped by queue overflow.  The code starts the request of each call
    at once and rejects none: [_executeCall] takes the call it starts off the
    queue, so [call] finds its new call alone on the queue every time, and the
    test against the bound never sees more than one call.  The last part is
    the overflow branch itself, on a client put together with one call in
    execution and one on the queue, a state that no sequence of calls reaches:
    the call shifted off is rejected without a value, and the new call, alone
    on the queue again, is started. *)
Theorem C7_bounded_client_starts_every_call :
  let c (n : nat) : ServiceClient.ServiceCall string :=
    ServiceClient.mkServiceCall n "request" in
  let s0 : ServiceClient.ServiceClient string :=
    ServiceClient.ServiceClient_new false (Some 1) in
  let r := Js.forEach ServiceClient.exec
             [ServiceClient.Call (c 1%nat); ServiceClient.Call (c 2%nat);
              ServiceClient.Call (c 3%nat)] s0 in
  ServiceClient._maxQueueLength s0 = 1
  ∧ Js.result r = Ok tt
  ∧ Js.out r = [ServiceClient.LookupService (c 1%nat);
                ServiceClient.LookupService (c 2%nat);
                ServiceClient.LookupService (c 3%nat)]
  ∧ ServiceClient._callQueue (Js.state (ServiceClient.call (c 1%nat) s0)) = []
  ∧ ServiceClient._callQueue (Js.state r) = []
  ∧ ServiceClient.executing (Js.state r) = [c 1%nat; c 2%nat; c 3%nat]
  ∧ Js.out (ServiceClient.call (c 3%nat)
              (ServiceClient.mkServiceClient false 1 true None [c 2%nat] [c 1%nat]))
    = [ServiceClient.Reject (c 2%nat) None; ServiceClient.LookupService (c 3%nat)].
Proof. repeat split. Qed.

(** ** Buffers and the header codec *)

Section WireLemmas.
Import Wire.

(** Writing right behind the bytes written so far. *)
Lemma write_at_fill (pre bytes : list Z) (n : nat) :
  (length bytes ≤ n)%nat →
  write_at bytes (received pre ++ replicate n None) (length pre)
  = Ok (received (pre ++ bytes) ++ replicate (n - length bytes) None).
Proof.
  intros Hfit. unfold write_at, received.
  rewrite bool_decide_true
    by (rewrite length_app, length_fmap, length_replicate; lia).
  f_equal. rewrite take_app_length' by (by rewrite length_fmap).
  rewrite drop_app_ge by (rewrite length_fmap; lia).
  rewrite length_fmap, drop_replicate.
  replace (length pre + length bytes - length pre)%nat with (length bytes) by lia.
  by rewrite fmap_app, <- app_assoc.
Qed.

Lemma u32le_length n : length (u32le n) = 4%nat.
Proof. reflexivity. Qed.

Lemma u32le_decode_encode n : 0 ≤ n < 2 ^ 32 → u32le_decode (u32le n) = n.
Proof.
  intros Hn. unfold u32le, u32le_decode.
  change 65536 with (256 * 256). change 16777216 with (256 * 256 * 256).
  rewrite <- !Z.div_div by lia.
  rewrite (Z.mod_small (n / 256 / 256 / 256) 256).
  2:{ split; [repeat apply Z.div_pos; lia|].
      repeat (apply Z.div_lt_upper_bound; [lia|]). lia. }
  pose proof (Z.div_mod n 256). pose proof (Z.div_mod (n / 256) 256).
  pose proof (Z.div_mod (n / 256 / 256) 256). lia.
Qed.

Lemma enc_string_length str : length (WireFormat.enc_string str) = (TcprosUtils.strlen str + 4)%nat.
Proof. unfold WireFormat.enc_string. rewrite length_app, u32le_length. unfold TcprosUtils.strlen. lia. Qed.

Lemma string_fill (pre : list Z) str n :
  (TcprosUtils.strlen str + 4 ≤ n)%nat →
  string_ str (received pre ++ replicate n None) (length pre)
  = Ok (received (pre ++ WireFormat.enc_string str)
          ++ replicate (n - (TcprosUtils.strlen str + 4)) None,
        length (pre ++ WireFormat.enc_string str)).
Proof.
  intros Hfit. unfold string_. cbv zeta.
  change (u32le (Z.of_nat (length (bytes_of_string str))) ++ bytes_of_string str)
    with (WireFormat.enc_string str).
  rewrite write_at_fill by (rewrite enc_string_length; lia).
  rewrite enc_string_length, length_app, enc_string_length.
  do 2 f_equal. unfold TcprosUtils.strlen. lia.
Qed.

Lemma uint32_fill (pre : list Z) v n :
  (4 ≤ n)%nat →
  uint32 v (received pre ++ replicate n None) (length pre)
  = Ok (received (pre ++ u32le v) ++ replicate (n - 4) None,
        length (pre ++ u32le v)).
Proof.
  intros Hfit. unfold uint32. rewrite write_at_fill by (rewrite u32le_length; lia).
  rewrite u32le_length, length_app, u32le_length. reflexivity.
Qed.

Lemma uint8_fill (pre : list Z) v n :
  (1 ≤ n)%nat →
  uint8 v (received pre ++ replicate n None) (length pre)
  = Ok (received (pre ++ [v mod 256]) ++ replicate (n - 1) None,
        length (pre ++ [v mod 256])).
Proof.
  intros Hfit. unfold uint8. rewrite write_at_fill by (simpl; lia).
  rewrite length_app. reflexivity.
Qed.

Lemma enc_fields_cons f (fields : list string) :
  WireFormat.enc_fields (f :: fields)
  = WireFormat.enc_string f ++ WireFormat.enc_fields fields.
Proof. reflexivity. Qed.

Lemma fields_length (fields : list string) : ∀ acc,
  foldl (λ len field, (len + (TcprosUtils.strlen field + 4))%nat) acc fields
  = (acc + length (WireFormat.enc_fields fields))%nat.
Proof.
  induction fields as [|f fields IH]; intros acc; [simpl; lia|].
  cbn [foldl]. rewrite IH, enc_fields_cons, length_app, enc_string_length. lia.
Qed.

Lemma write_fields_fill (fields : list string) : ∀ (pre : list Z) n,
  (length (WireFormat.enc_fields fields) ≤ n)%nat →
  TcprosUtils.write_fields fields (received pre ++ replicate n None) (length pre)
  = Ok (received (pre ++ WireFormat.enc_fields fields)
          ++ replicate (n - length (WireFormat.enc_fields fields)) None,
        length (pre ++ WireFormat.enc_fields fields)).
Proof.
  induction fields as [|f fields IH]; intros pre n Hfit.
  - simpl. unfold WireFormat.enc_fields. simpl. rewrite app_nil_r, Nat.sub_0_r. reflexivity.
  - rewrite enc_fields_cons in *. rewrite length_app, enc_string_length in Hfit.
    cbn [TcprosUtils.write_fields]. rewrite string_fill by lia.
    cbn [mbind result_bind]. rewrite IH by lia.
    assert ((n - (TcprosUtils.strlen f + 4) - length (WireFormat.enc_fields fields)
             = n - length (WireFormat.enc_string f ++ WireFormat.enc_fields fields))%nat)
      as -> by (rewrite length_app, enc_string_length; lia).
    by rewrite <- !app_assoc.
Qed.

Lemma uint32_new v n :
  (4 ≤ n)%nat →
  uint32 v (Buffer_new n) 0 = Ok (received (u32le v) ++ replicate (n - 4) None, 4%nat).
Proof. intros H. exact (uint32_fill [] v n H). Qed.

Lemma uint8_new v n :
  (1 ≤ n)%nat →
  uint8 v (Buffer_new n) 0 = Ok (received [v mod 256] ++ replicate (n - 1) None, 1%nat).
Proof. intros H. exact (uint8_fill [] v n H). Qed.

Lemma string_new str n :
  (TcprosUtils.strlen str + 4 ≤ n)%nat →
  string_ str (Buffer_new n) 0
  = Ok (received (WireFormat.enc_string str)
          ++ replicate (n - (TcprosUtils.strlen str + 4)) None,
        length (WireFormat.enc_string str)).
Proof. intros H. exact (string_fill [] str n H). Qed.

(** [serializeStringFields] never throws and lays out the length of the
    block and then each field behind its own length. *)
Lemma serializeStringFields_spec (fields : list string) :
  TcprosUtils.serializeStringFields fields
  = Ok (received (WireFormat.enc_header fields)).
Proof.
  unfold TcprosUtils.serializeStringFields, WireFormat.enc_header.
  rewrite fields_length. cbv zeta. rewrite Nat.add_0_l.
  rewrite uint32_new by lia. cbn [mbind result_bind].
  replace (4 + length (WireFormat.enc_fields fields) - 4)%nat
    with (length (WireFormat.enc_fields fields)) by lia.
  pose proof (write_fields_fill fields
                (u32le (Z.of_nat (length (WireFormat.enc_fields fields))))
                (length (WireFormat.enc_fields fields)) (le_n _)) as Hw.
  rewrite u32le_length in Hw. rewrite Hw. cbn [mbind result_bind mret result_ret].
  rewrite Nat.sub_diag. simpl. by rewrite app_nil_r.
Qed.

Lemma serializeString_spec (str : string) :
  TcprosUtils.serializeString str = Ok (received (WireFormat.enc_string str)).
Proof.
  unfold TcprosUtils.serializeString. cbv zeta.
  rewrite string_new by lia. cbn [mbind result_bind mret result_ret].
  rewrite Nat.sub_diag. simpl. by rewrite app_nil_r.
Qed.
End WireLemmas.

(** C8.  For a response class that keeps the typed-message contract
    ([wire] being what it serializes), [serializeServiceResponse] returns for
    a successful response the byte 1, the four little-endian bytes of the
    length of the serialized response, and the serialized response; for a
    failed response the byte 0, the four little-endian bytes of the length of
    the text 'Unable to handle service call', and the bytes of that text.
    Every byte of the buffer is written, and a length below 2^32 is read
    back from its four bytes. *)
Theorem C8_service_response_layout
    {Msg : Type} (C : Wire.MessageClass Msg) (wire : Msg → list Z) (response : Msg) :
  Wire.well_behaved C wire →
  let payload := wire response in
  let errorMessage := "Unable to handle service call" in
  TcprosUtils.serializeServiceResponse C response true true
  = Ok (Wire.received ([1] ++ Wire.u32le (Z.of_nat (length payload)) ++ payload))
  ∧ TcprosUtils.serializeServiceResponse C response false true
    = Ok (Wire.received ([0] ++ Wire.u32le (Z.of_nat (TcprosUtils.strlen errorMessage))
                           ++ Wire.bytes_of_string errorMessage))
  ∧ (Z.of_nat (length payload) < 2 ^ 32 →
     Wire.u32le_decode (Wire.u32le (Z.of_nat (length payload)))
     = Z.of_nat (length payload)).
Proof.
  intros [Hsize Hser] payload errorMessage. split; [|split].
  - unfold TcprosUtils.serializeServiceResponse. rewrite Hsize. fold payload.
    cbn [mbind result_bind]. cbv zeta.
    rewrite uint8_new by lia. cbn [mbind result_bind].
    pose proof (uint32_fill [1 mod 256] (Z.of_nat (length payload))
                  (length payload + 5 - 1)) as H32.
    cbn [length] in H32. rewrite H32 by lia. cbn [mbind result_bind].
    rewrite Hser. fold payload.
    pose proof (write_at_fill ([1 mod 256] ++ Wire.u32le (Z.of_nat (length payload)))
                  payload (length payload + 5 - 1 - 4)) as Hw.
    rewrite length_app, u32le_length in Hw. cbn [length Nat.add] in Hw.
    rewrite Hw by lia. cbn [mbind result_bind mret result_ret].
    replace (length payload + 5 - 1 - 4 - length payload)%nat with 0%nat by lia.
    simpl replicate. rewrite app_nil_r. by rewrite <- app_assoc.
  - reflexivity.
  - intros Hlt. apply u32le_decode_encode. lia.
Qed.

(** C8 at the response "hi" of a service whose response is one string. *)
Lemma C8_witness :
  Wire.well_behaved Wire.StringMsg WireFormat.enc_string
  ∧ TcprosUtils.serializeServiceResponse Wire.StringMsg "hi" true true
    = Ok (Wire.received [1; 6; 0; 0; 0; 2; 0; 0; 0; 104; 105]).
Proof.
  assert (H : Wire.well_behaved Wire.StringMsg WireFormat.enc_string).
  { split; [intros m; reflexivity|].
    intros m buf off. simpl. unfold Wire.string_. cbv zeta.
    change (Wire.u32le (Z.of_nat (length (Wire.bytes_of_string m)))
              ++ Wire.bytes_of_string m) with (WireFormat.enc_string m).
    destruct (Wire.write_at (WireFormat.enc_string m) buf off); [|done].
    do 2 f_equal. lia. }
  split; [exact H|].
  exact (proj1 (C8_service_response_layout Wire.StringMsg WireFormat.enc_string "hi" H)).
Defined.

(** ** The publisher's side of the handshake *)

Section PublisherLemmas.
Import Wire.
Context {Msg : Type} (Serialize : Buffer → Buffer).
Local Abbreviation PublisherT := (Publisher.Publisher Msg).
Implicit Types (p : PublisherT) (subscriber : Socket)
               (header : gmap string string).

(** The response header of a publisher. *)
Lemma createPubHeader_spec callerId md5 type latching :
  TcprosUtils.createPubHeader callerId md5 type latching
  = Ok (received (WireFormat.enc_header
                    ["callerid=" +:+ callerId; "md5sum=" +:+ md5;
                     "type=" +:+ type;
                     "latching=" +:+ TcprosUtils.string_of_bool latching])).
Proof. unfold TcprosUtils.createPubHeader. apply serializeStringFields_spec. Qed.


(** What [validateSubHeader] answers, case by case. *)
Lemma validateSubHeader_cases header topic type md5 :
  header !! "hasOwnProperty" = None →
  TcprosUtils.validateSubHeader header topic type md5
  = match header !! "topic", header !! "type", header !! "md5sum" with
    | None, _, _ =>
        Ok (Some (received (WireFormat.enc_string
                   "Connection header missing expected field [topic]")))
    | Some _, None, _ =>
        Ok (Some (received (WireFormat.enc_string
                   "Connection header missing expected field [type]")))
    | Some _, Some _, None =>
        Ok (Some (received (WireFormat.enc_string
                   "Connection header missing expected field [md5sum]")))
    | Some t, Some ty, Some m =>
        if bool_decide (t ≠ topic) then
          Ok (Some (received (WireFormat.enc_string
                     ("Got incorrect topic [" +:+ t +:+ "] expected ["
                        +:+ topic +:+ "]"))))
        else if bool_decide (ty ≠ type) && bool_decide (ty ≠ "*") then
          Ok (Some (received (WireFormat.enc_string
                     ("Got incorrect message type [" +:+ ty +:+ "] expected ["
                        +:+ type +:+ "]"))))
        else if bool_decide (m ≠ md5) && bool_decide (m ≠ "*") then
          Ok (Some (received (WireFormat.enc_string
                     ("Got incorrect md5sum [" +:+ m +:+ "] expected ["
                        +:+ md5 +:+ "]"))))
        else Ok None
    end.
Proof.
  intros Hown. unfold TcprosUtils.validateSubHeader, TcprosUtils.hasOwnProperty.
  rewrite Hown. cbn [mbind result_bind].
  destruct (header !! "topic") as [t|]; [|by rewrite serializeString_spec].
  rewrite bool_decide_true by eauto. cbn [negb].
  destruct (header !! "type") as [ty|]; [|by rewrite serializeString_spec].
  rewrite bool_decide_true by eauto. cbn [negb].
  destruct (header !! "md5sum") as [m|]; [|by rewrite serializeString_spec].
  rewrite bool_decide_true by eauto. cbn [negb].
  repeat (case_match; [by rewrite serializeString_spec|]). reflexivity.
Qed.



Lemma validateSubHeader_ok header topic type md5 :
  header !! "hasOwnProperty" = None →
  ¬ TcprosUtils.turned_down header topic type md5 →
  TcprosUtils.validateSubHeader header topic type md5 = Ok None.
Proof.
  intros Hown Hok. rewrite validateSubHeader_cases by done.
  unfold TcprosUtils.turned_down in Hok.
  destruct (header !! "topic") as [t|]; [|tauto].
  destruct (header !! "type") as [ty|]; [|tauto].
  destruct (header !! "md5sum") as [m|]; [|tauto].
  case_bool_decide as Ht.
  { exfalso. apply Hok. do 3 right. left. eauto. }
  destruct (bool_decide (ty ≠ type) && bool_decide (ty ≠ "*")) eqn:Hty.
  { exfalso. apply andb_true_iff in Hty. rewrite !bool_decide_eq_true in Hty.
    apply Hok. do 4 right. left. eauto. }
  destruct (bool_decide (m ≠ md5) && bool_decide (m ≠ "*")) eqn:Hm; [|done].
  exfalso. apply andb_true_iff in Hm. rewrite !bool_decide_eq_true in Hm.
  apply Hok. do 5 right. eauto.
Qed.

Lemma handleSubscriberConnection_error subscriber header p error :
  TcprosUtils.validateSubHeader header (Publisher._topic p) (Publisher._type p)
    (md5sum (Publisher._messageHandler p)) = Ok (Some error) →
  Publisher.handleSubscriberConnection Serialize subscriber header p
  = (p, [Publisher.LogError "Unable to validate subscriber connection header";
         Publisher.SocketEnd subscriber (Serialize error)], Ok tt).
Proof.
  intros Hv. unfold Publisher.handleSubscriberConnection, mbind, eff_bind.
  unfold Js.bind at 1. cbn [Js.get]. unfold Js.bind at 1. rewrite Hv.
  reflexivity.
Qed.


Lemma handleSubscriberConnection_ok subscriber header p :
  TcprosUtils.validateSubHeader header (Publisher._topic p) (Publisher._type p)
    (md5sum (Publisher._messageHandler p)) = Ok None →
  Publisher.handleSubscriberConnection Serialize subscriber header p
  = (Publisher.set_subClients
       (Js.Map_set (name subscriber) subscriber (Publisher._subClients p)) p,
     Publisher.accepted_calls subscriber p
       (received (WireFormat.enc_header
          ["callerid=" +:+ Publisher.nodeName p;
           "md5sum=" +:+ md5sum (Publisher._messageHandler p);
           "type=" +:+ Publisher._type p;
           "latching=" +:+ TcprosUtils.string_of_bool (Publisher._latching p)])),
     Ok tt).
Proof.
  intros Hv. unfold Publisher.handleSubscriberConnection, mbind, eff_bind.
  unfold Js.bind at 1. cbn [Js.get]. unfold Js.bind at 1. rewrite Hv.
  cbn [Publisher.lift mret eff_ret Js.ret]. unfold Js.bind at 1.
  rewrite createPubHeader_spec. cbn [Publisher.lift mret eff_ret Js.ret].
  unfold Publisher.accepted_calls.
  destruct (Publisher._tcpNoDelay p), (Publisher._lastSentMsg p); reflexivity.
Qed.
End PublisherLemmas.

Section PublishLemmas.
Import Wire.
Context {Msg : Type} (Serialize : Buffer → Buffer).
Local Abbreviation PublisherT := (Publisher.Publisher Msg).
Implicit Types (p : PublisherT) (subscriber : Socket).

Lemma forEach_emits {S E A} (g : A → E) (l : list A) (s : S) :
  Js.forEach (λ x, Js.emit (g x)) l s = (s, g <$> l, Ok tt).
Proof.
  induction l as [|x l IH]; [reflexivity|].
  cbn [Js.forEach]. unfold Js.bind. cbn [Js.emit]. by rewrite IH.
Qed.

Lemma forEach_app {S E A} (f : A → Js.Eff S E unit) (l1 l2 : list A) s s1 o1 :
  Js.forEach f l1 s = (s1, o1, Ok tt) →
  Js.forEach f (l1 ++ l2) s
  = match Js.forEach f l2 s1 with (s2, o2, r) => (s2, o1 ++ o2, r) end.
Proof.
  revert s o1. induction l1 as [|x l1 IH]; intros s o1 H1.
  - injection H1 as <- <-. simpl. by destruct (Js.forEach f l2 s) as [[s2 o2] r].
  - cbn [app Js.forEach] in *. unfold Js.bind in *.
    destruct (f x s) as [[sx ox] [[]|e]]; [|done].
    destruct (Js.forEach f l1 sx) as [[s1' o1'] r1'] eqn:Hl1.
    injection H1 as <- <- ->. rewrite (IH sx o1' Hl1).
    destruct (Js.forEach f l2 s1') as [[s2 o2] r]. by rewrite app_assoc.
Qed.

Lemma set_lastSentMsg_id p : Publisher.set_lastSentMsg (Publisher._lastSentMsg p) p = p.
Proof. by destruct p. Qed.

(** Publishing one message changes nothing of the publisher but the
    latched message, and never throws. *)
Lemma publishOne_spec (m : Msg) p :
  ∃ last out,
    Publisher.publishOne m p = (Publisher.set_lastSentMsg last p, out, Ok tt)
    ∧ (∀ bytes, Publisher.serialized p m = Ok bytes → Publisher._latching p = true →
                last = Some bytes).
Proof.
  unfold Publisher.publishOne, mbind at 1, eff_bind. unfold Js.bind at 1. cbn [Js.get].
  destruct (Publisher.serialized p m) as [bytes|e].
  - unfold mbind, eff_bind, Js.bind. rewrite forEach_emits.
    destruct (Publisher._latching p) eqn:Hl.
    + exists (Some bytes). eexists. split; [reflexivity|]. by intros ? [= <-].
    + exists (Publisher._lastSentMsg p). eexists.
      rewrite set_lastSentMsg_id. split; [reflexivity|done].
  - exists (Publisher._lastSentMsg p). eexists.
    rewrite set_lastSentMsg_id. split; [reflexivity|done].
Qed.

Lemma handleMsgQueue_spec (msgs : list Msg) : ∀ p,
  ∃ last out,
    Publisher._handleMsgQueue msgs p = (Publisher.set_lastSentMsg last p, out, Ok tt).
Proof.
  unfold Publisher._handleMsgQueue.
  induction msgs as [|m msgs IH]; intros p.
  - exists (Publisher._lastSentMsg p), []. by rewrite set_lastSentMsg_id.
  - cbn [Js.forEach]. unfold Js.bind.
    destruct (publishOne_spec m p) as (l1 & o1 & -> & _).
    destruct (IH (Publisher.set_lastSentMsg l1 p)) as (l2 & o2 & ->).
    exists l2. eexists. reflexivity.
Qed.

(** After a batch whose last message serializes, a latching publisher holds
    the bytes of that message. *)
Lemma handleMsgQueue_latches (earlier : list Msg) (m : Msg) p bytes :
  Publisher._latching p = true → Publisher.serialized p m = Ok bytes →
  Js.state (Publisher._handleMsgQueue (earlier ++ [m]) p)
  = Publisher.set_lastSentMsg (Some bytes) p.
Proof.
  intros Hl Hs. destruct (handleMsgQueue_spec earlier p) as (l1 & o1 & H1).
  unfold Publisher._handleMsgQueue in *. rewrite (forEach_app _ _ _ _ _ _ H1).
  cbn [Js.forEach]. unfold Js.bind.
  destruct (publishOne_spec m (Publisher.set_lastSentMsg l1 p)) as (l2 & o2 & -> & Hlast).
  rewrite (Hlast bytes) by done. reflexivity.
Qed.

Lemma writes_to_accepted subscriber p (respHeader : Buffer) :
  Publisher.writes_to subscriber (Publisher.accepted_calls subscriber p respHeader)
  = respHeader :: match Publisher._lastSentMsg p with
                  | Some lastSentMsg => [lastSentMsg]
                  | None => []
                  end.
Proof.
  unfold Publisher.accepted_calls, Publisher.writes_to.
  destruct (Publisher._tcpNoDelay p), (Publisher._lastSentMsg p);
    cbn [app omap list_omap]; rewrite ?bool_decide_true by done; reflexivity.
Qed.
End PublishLemmas.




(** C6 as stated fails.  A latching publisher with the throttle of 0 that
    the constructor gives it has published "A": [publish] has put the message
    on the publisher's queue in the spinner, and nothing has been sent.  A
    subscriber whose header validates is then written the response header and
    nothing behind it; "A" reaches it when the spinner dispatches.  Once the
    publisher has then published "B", a second subscriber is written "A", the
    message sent last, not "B", the message published last. *)
Lemma C6_counterexample :
  let options := PublisherLife.mkOptions "/chatter" "std_msgs/String" true false
                   None None false Wire.StringMsg in
  let header : gmap string string :=
    {[ "callerid" := "/listener"; "topic" := "/chatter";
       "type" := "std_msgs/String";
       "md5sum" := "992ce8a1687cec8c8bd883ec73ca41d1" ]} in
  let respHeader :=
    Wire.received (WireFormat.enc_header
      ["callerid=/talker"; "md5sum=992ce8a1687cec8c8bd883ec73ca41d1";
       "type=std_msgs/String"; "latching=true"]) in
  let bytesA := Wire.received [5; 0; 0; 0; 1; 0; 0; 0; 65] in
  let bytesB := Wire.received [5; 0; 0; 0; 1; 0; 0; 0; 66] in
  let first := mkSocket "127.0.0.1:40000" 1 in
  let second := mkSocket "127.0.0.1:40001" 2 in
  let n0 := Node.Node_new options "/talker" in
  let n1 := Js.state (Node.publish "A" None n0) in
  let n2 := Js.state (Node.tick 7 (Node.connect (λ b, b) n1 (first, header))) in
  let n3 := Js.state (Node.publish "B" None n2) in
  Publisher._latching (Node.publisher n0) = true
  ∧ TcprosUtils.validateSubHeader header "/chatter" "std_msgs/String"
      "992ce8a1687cec8c8bd883ec73ca41d1" = Ok None
  ∧ Publisher.serialized (Node.publisher n0) "A" = Ok bytesA
  ∧ Publisher.serialized (Node.publisher n0) "B" = Ok bytesB
  ∧ Js.result (Node.publish "A" None n0) = Ok tt
  ∧ Publisher.writes_to first
      (Js.out (Publisher.handleSubscriberConnection (λ b, b) first header
                 (Node.publisher n1)))
    = [respHeader]
  ∧ Js.out (Node.tick 7 (Node.connect (λ b, b) n1 (first, header)))
    = [Node.OfPublisher (Publisher.SocketWrite first bytesA)]
  ∧ Js.result (Node.publish "B" None n2) = Ok tt
  ∧ Publisher.writes_to second
      (Js.out (Publisher.handleSubscriberConnection (λ b, b) second header
                 (Node.publisher n3)))
    = [respHeader; bytesA].
Proof. repeat split; vm_compute; reflexivity. Qed.

(** C6, amended.  What a latching publisher keeps for new subscribers is the
    message it sent last, not the one published last.  [_handleMsgQueue]
    stores the bytes of each message it sends: after a batch whose last
    message serialized, [_lastSentMsg] holds the bytes of that message, and a
    subscriber whose header validates is written the response header and, as
    the next write on its socket, those bytes, and is added.  [publish] is
    such a batch of one when the throttle, given or the publisher's own, is
    negative; with a throttle of 0 or more it hands the message to the
    spinner and changes nothing of the publisher, so that a subscriber that
    connects before the spinner dispatches is written the response header
    followed by the message sent before, if there is one. *)
Theorem C6_latched_message_follows_response_header
    {Msg : Type} (Serialize : Wire.Buffer → Wire.Buffer)
    (p : Publisher.Publisher Msg) (earlier : list Msg) (m : Msg)
    (bytes : Wire.Buffer) (subscriber : Socket) (header : gmap string string) :
  Publisher._latching p = true →
  Publisher.serialized p m = Ok bytes →
  TcprosUtils.validateSubHeader header (Publisher._topic p) (Publisher._type p)
    (Wire.md5sum (Publisher._messageHandler p)) = Ok None →
  let p' := Js.state (Publisher._handleMsgQueue (earlier ++ [m]) p) in
  let r := Publisher.handleSubscriberConnection Serialize subscriber header p' in
  let respHeader :=
    Wire.received (WireFormat.enc_header
      ["callerid=" +:+ Publisher.nodeName p;
       "md5sum=" +:+ Wire.md5sum (Publisher._messageHandler p);
       "type=" +:+ Publisher._type p; "latching=true"]) in
  Publisher._lastSentMsg p' = Some bytes
  ∧ Publisher.writes_to subscriber (Js.out r) = [respHeader; bytes]
  ∧ Js.result r = Ok tt
  ∧ Js.Map_get (name subscriber) (Publisher._subClients (Js.state r)) = Some subscriber
  ∧ (∀ t, default (Publisher._throttleMs p) t < 0 →
          Publisher.publish m t p = Publisher._handleMsgQueue [m] p)
  ∧ (∀ t, default (Publisher._throttleMs p) t >= 0 →
          Publisher.publish m t p
          = (p, [Publisher.SpinnerPing (Publisher._getSpinnerId p) m], Ok tt))
  ∧ Publisher.writes_to subscriber
      (Js.out (Publisher.handleSubscriberConnection Serialize subscriber header p))
    = respHeader :: match Publisher._lastSentMsg p with
                    | Some sentBefore => [sentBefore]
                    | None => []
                    end.
Proof.
  intros Hl Hs Hv p' r respHeader. subst p' r respHeader.
  rewrite (handleMsgQueue_latches earlier m p bytes Hl Hs).
  rewrite !handleSubscriberConnection_ok by exact Hv.
  unfold Js.out, Js.state, Js.result. cbn [fst snd].
  split; [reflexivity|]. split.
  { rewrite writes_to_accepted.
    cbn [Publisher._lastSentMsg Publisher.set_lastSentMsg Publisher._latching
         Publisher.nodeName Publisher._messageHandler Publisher._type].
    by rewrite Hl. }
  split; [reflexivity|]. split.
  { cbn [Publisher._subClients Publisher.set_subClients].
    rewrite Map_get_set. by rewrite decide_True. }
  split.
  { intros t Ht. unfold Publisher.publish, mbind, eff_bind, Js.bind. cbn [Js.get].
    rewrite bool_decide_true by done.
    by destruct (Publisher._handleMsgQueue [m] p) as [[s2 o2] r2]. }
  split.
  { intros t Ht. unfold Publisher.publish, mbind, eff_bind, Js.bind. cbn [Js.get].
    rewrite bool_decide_false by lia. reflexivity. }
  rewrite writes_to_accepted. by rewrite Hl.
Qed.

(** C6 at the latched publisher of the specification: it has published
    {data: "A"}, then a subscriber connects. *)
Lemma C6_witness :
  let p := Publisher.mkPublisher "/chatter" "std_msgs/String" true false 1 (-1) false
             None [] Wire.StringMsg "/talker" in
  let subscriber := mkSocket "127.0.0.1:40000" 1 in
  let header : gmap string string :=
    {[ "callerid" := "/listener"; "topic" := "/chatter";
       "type" := "std_msgs/String";
       "md5sum" := "992ce8a1687cec8c8bd883ec73ca41d1" ]} in
  let bytes := Wire.received [5; 0; 0; 0; 1; 0; 0; 0; 65] in
  Publisher._latching p = true
  ∧ Publisher.serialized p "A" = Ok bytes
  ∧ TcprosUtils.validateSubHeader header "/chatter" "std_msgs/String"
      "992ce8a1687cec8c8bd883ec73ca41d1" = Ok None
  ∧ Publisher.writes_to subscriber
      (Js.out (Publisher.handleSubscriberConnection (λ b, b) subscriber header
                 (Js.state (Publisher._handleMsgQueue ([] ++ ["A"]) p))))
    = [Wire.received (WireFormat.enc_header
         ["callerid=/talker"; "md5sum=992ce8a1687cec8c8bd883ec73ca41d1";
          "type=std_msgs/String"; "latching=true"]);
       bytes].
Proof.
  assert (Hs : Publisher.serialized
                 (Publisher.mkPublisher "/chatter" "std_msgs/String" true false 1 (-1)
                    false None [] Wire.StringMsg "/talker") "A"
               = Ok (Wire.received [5; 0; 0; 0; 1; 0; 0; 0; 65]))
    by (vm_compute; reflexivity).
  assert (Hv : TcprosUtils.validateSubHeader
                 ({[ "callerid" := "/listener"; "topic" := "/chatter";
                     "type" := "std_msgs/String";
                     "md5sum" := "992ce8a1687cec8c8bd883ec73ca41d1" ]}
                    : gmap string string)
                 "/chatter" "std_msgs/String" "992ce8a1687cec8c8bd883ec73ca41d1"
               = Ok None) by (vm_compute; reflexivity).
  split; [reflexivity|]. split; [exact Hs|]. split; [exact Hv|].
  exact (proj1 (proj2 (C6_latched_message_follows_response_header (λ b, b)
           (Publisher.mkPublisher "/chatter" "std_msgs/String" true false 1 (-1)
              false None [] Wire.StringMsg "/talker")
           [] "A" (Wire.received [5; 0; 0; 0; 1; 0; 0; 0; 65])
           (mkSocket "127.0.0.1:40000" 1)
           {[ "callerid" := "/listener"; "topic" := "/chatter";
              "type" := "std_msgs/String";
              "md5sum" := "992ce8a1687cec8c8bd883ec73ca41d1" ]}
           eq_refl Hs Hv))).
Defined.

(** ** The header parsers always have rounds enough *)

Section ParserFuel.

Lemma deserializeString_shrinks (header : list Z) str buffer :
  TcprosUtils.deserializeString header = Ok (str, buffer) →
  (length buffer < length header)%nat.
Proof.
  unfold TcprosUtils.deserializeString, Wire.deserialize_string.
  case_bool_decide as Hlen; [discriminate|].
  cbn [mbind result_bind mret result_ret]. intros [= _ <-].
  rewrite length_drop. lia.
Qed.

(** Any number of rounds from the length of the buffer on gives the result
    of [parseTcpRosHeader]: the loop stops by itself. *)
Lemma parseTcpRosHeader_loop_fuel (fuel1 : nat) : ∀ fuel2 header info,
  (length header ≤ fuel1)%nat → (length header ≤ fuel2)%nat →
  TcprosUtils.parseTcpRosHeader_loop fuel1 header info
  = TcprosUtils.parseTcpRosHeader_loop fuel2 header info.
Proof.
  induction fuel1 as [|fuel1 IH]; intros fuel2 header info H1 H2.
  - destruct header; [|simpl in H1; lia]. by destruct fuel2.
  - destruct header as [|b header]; [by destruct fuel2|].
    destruct fuel2 as [|fuel2]; [simpl in H2; lia|].
    cbn [TcprosUtils.parseTcpRosHeader_loop].
    destruct (TcprosUtils.deserializeString (b :: header)) as [[str buffer]|e] eqn:Hd;
      [|reflexivity].
    apply deserializeString_shrinks in Hd. cbn [mbind result_bind].
    destruct (TcprosUtils.regex_match true str) as [[key value]|]; [|reflexivity].
    apply IH; simpl in *; lia.
Qed.

Lemma parsePubHeader_loop_fuel (fuel1 : nat) : ∀ fuel2 header info,
  (length header ≤ fuel1)%nat → (length header ≤ fuel2)%nat →
  TcprosUtils.parsePubHeader_loop fuel1 header info
  = TcprosUtils.parsePubHeader_loop fuel2 header info.
Proof.
  induction fuel1 as [|fuel1 IH]; intros fuel2 header info H1 H2.
  - destruct header; [|simpl in H1; lia]. by destruct fuel2.
  - destruct header as [|b header]; [by destruct fuel2|].
    destruct fuel2 as [|fuel2]; [simpl in H2; lia|].
    cbn [TcprosUtils.parsePubHeader_loop].
    destruct (TcprosUtils.deserializeString (b :: header)) as [[str buffer]|e] eqn:Hd;
      [|reflexivity].
    apply deserializeString_shrinks in Hd. cbn [mbind result_bind].
    apply IH; simpl in *; lia.
Qed.

End ParserFuel.

(** ** The subscriber's side of the handshake *)

Section SubscriberLemmas.
Import Wire.
Context {Msg : Type} (Serialize : Buffer → Buffer).
Local Abbreviation SubscriberT := (Subscriber.Subscriber Msg).
Implicit Types (s : SubscriberT) (client : Subscriber.Client).

Lemma handleMessage_uninitialized_cases (msg : list Z) s client :
  Subscriber._initialized client = false →
  ∃ out res,
    Subscriber._handleMessage Serialize msg (s, client) = ((s, client), out, res)
    ∧ (out = [] ∨ ∃ error, out = [Subscriber.LogError error]).
Proof.
  intros Hinit.
  unfold Subscriber._handleMessage, Subscriber._handleMessage_using.
  unfold mbind at 1, eff_bind. unfold Js.bind at 1.
  cbn [Js.get]. rewrite Hinit. cbn [negb].
  unfold mbind, eff_bind. unfold Js.bind at 1.
  destruct (TcprosUtils.parseTcpRosHeader msg) as [header|e]; cbn [Subscriber.lift].
  - cbn [mret eff_ret Js.ret]. destruct (header !! "error") as [error|].
    + do 2 eexists. split; [reflexivity|]. right. eauto.
    + do 2 eexists. split; [reflexivity|]. by left.
  - do 2 eexists. split; [reflexivity|]. by left.
Qed.

(** A frame on a client that is not initialized: whatever the frame holds,
    it is not delivered, the socket is not ended, and the client is not
    initialized afterwards either. *)
Lemma handleMessage_uninitialized (msg : list Z) s client :
  Subscriber._initialized client = false →
  let r := Subscriber._handleMessage Serialize msg (s, client) in
  Js.state r = (s, client)
  ∧ Forall (λ e, ¬ Subscriber.delivers e) (Js.out r)
  ∧ Forall (λ e, ∀ sock data, e ≠ Subscriber.SocketEnd sock data) (Js.out r).
Proof.
  intros Hinit r. subst r.
  destruct (handleMessage_uninitialized_cases msg s client Hinit)
    as (out & res & -> & [->|[error ->]]);
    unfold Js.out, Js.state; cbn [fst snd]; (split; [done|]).
  - split; apply Forall_nil_2.
  - split; (apply Forall_cons; split; [|apply Forall_nil_2]);
      [cbn; tauto|intros sock data; discriminate].
Qed.

(** A header frame without [error] on a client that is not initialized:
    the validation call is a call of undefined. *)
Lemma handleMessage_header_throws (msg : list Z) header s client :
  Subscriber._initialized client = false →
  TcprosUtils.parseTcpRosHeader msg = Ok header → header !! "error" = None →
  Subscriber._handleMessage Serialize msg (s, client)
  = ((s, client), [],
     Throw (Js.TypeError "TcprosUtils.validatePubHeader is not a function")).
Proof.
  intros Hinit Hparse Herr.
  unfold Subscriber._handleMessage, Subscriber._handleMessage_using.
  unfold mbind at 1, eff_bind. unfold Js.bind at 1.
  cbn [Js.get]. rewrite Hinit. cbn [negb].
  unfold mbind, eff_bind. unfold Js.bind at 1. rewrite Hparse.
  cbn [Subscriber.lift mret eff_ret Js.ret]. rewrite Herr. reflexivity.
Qed.

(** What the body of [_handleMessage] does with a validator in place: an
    error ends the socket with the serialized error and leaves the client
    uninitialized, null initializes the client. *)
Lemma handleMessage_using_validator
    (validate : gmap string string → string → string → Js.Result (option Buffer))
    (msg : list Z) header s client (verdict : option Buffer) :
  Subscriber._initialized client = false →
  TcprosUtils.parseTcpRosHeader msg = Ok header → header !! "error" = None →
  validate header (Subscriber._type s) (md5sum (Subscriber._messageHandler s))
  = Ok verdict →
  Subscriber._handleMessage_using Serialize (Some validate) msg (s, client)
  = match verdict with
    | Some error =>
        match TcprosUtils.parsePubHeader msg with
        | Ok _ =>
            ((s, client),
             [Subscriber.LogError ("Unable to validate subscriber "
                                     +:+ Subscriber._topic s +:+ " connection header");
              Subscriber.SocketEnd (Subscriber.client_socket client) (Serialize error)],
             Ok tt)
        | Throw e =>
            ((s, client),
             [Subscriber.LogError ("Unable to validate subscriber "
                                     +:+ Subscriber._topic s +:+ " connection header")],
             Throw e)
        end
    | None =>
        (Js.state (Subscriber.initialize (s, client)),
         [Subscriber.Emit "connection";
          Subscriber.SocketOn (Subscriber.client_socket client) "close"], Ok tt)
    end.
Proof.
  intros Hinit Hparse Herr Hv.
  unfold Subscriber._handleMessage_using.
  unfold mbind at 1, eff_bind. unfold Js.bind at 1.
  cbn [Js.get]. rewrite Hinit. cbn [negb].
  unfold mbind, eff_bind. unfold Js.bind at 1. rewrite Hparse.
  cbn [Subscriber.lift mret eff_ret Js.ret]. rewrite Herr.
  unfold Js.bind at 1. rewrite Hv. cbn [Subscriber.lift mret eff_ret Js.ret].
  destruct verdict as [error|]; [|reflexivity].
  unfold Js.bind. cbn [Js.emit].
  destruct (TcprosUtils.parsePubHeader msg); reflexivity.
Qed.

(** With the validation that the specification describes in place, a
    publisher response of the right type whose md5sum is neither the
    subscriber's nor '*' would end the socket with an error and leave the
    client uninitialized. *)
Lemma specified_validator_closes_on_md5_mismatch
    (msg : list Z) header info s client (ty m : string) :
  Subscriber._initialized client = false →
  TcprosUtils.parseTcpRosHeader msg = Ok header → header !! "error" = None →
  TcprosUtils.parsePubHeader msg = Ok info →
  header !! "type" = Some ty → ty = Subscriber._type s ∨ ty = "*" →
  header !! "md5sum" = Some m →
  m ≠ md5sum (Subscriber._messageHandler s) → m ≠ "*" →
  ∃ error,
    Subscriber._handleMessage_using Serialize (Some Specified.validatePubHeader)
      msg (s, client)
    = ((s, client),
       [Subscriber.LogError ("Unable to validate subscriber " +:+ Subscriber._topic s
                               +:+ " connection header");
        Subscriber.SocketEnd (Subscriber.client_socket client) (Serialize error)],
       Ok tt).
Proof.
  intros Hinit Hparse Herr Hinfo Hty Htyok Hm Hne Hstar.
  assert (Hv : Specified.validatePubHeader header (Subscriber._type s)
                 (md5sum (Subscriber._messageHandler s))
               = Ok (Some (received (WireFormat.enc_string
                      ("Got incorrect md5sum [" +:+ m +:+ "] expected ["
                         +:+ md5sum (Subscriber._messageHandler s) +:+ "]"))))).
  { unfold Specified.validatePubHeader. rewrite Hty, Hm.
    assert (bool_decide (ty ≠ Subscriber._type s) && bool_decide (ty ≠ "*") = false)
      as ->.
    { apply andb_false_iff. rewrite !bool_decide_eq_false.
      destruct (decide (ty = Subscriber._type s)); [left|right]; tauto. }
    rewrite !bool_decide_true by done. cbn [andb].
    rewrite serializeString_spec. reflexivity. }
  eexists.
  rewrite (handleMessage_using_validator Specified.validatePubHeader msg header
             s client _ Hinit Hparse Herr Hv).
  by rewrite Hinfo.
Qed.

(** However many frames arrive on a connection, none is delivered. *)
Lemma frames_never_delivered (frames : list (list Z)) : ∀ s client,
  Subscriber._initialized client = false →
  Forall (λ e, ¬ Subscriber.delivers e)
    (Subscriber.frames_out Serialize frames (s, client)).
Proof.
  induction frames as [|msg frames IH]; intros s client Hinit.
  - apply Forall_nil_2.
  - cbn [Subscriber.frames_out].
    destruct (handleMessage_uninitialized msg s client Hinit) as (Hst & Hout & _).
    apply Forall_app. split; [exact Hout|]. rewrite Hst. by apply IH.
Qed.
End SubscriberLemmas.

(** C5, the code at a publisher response whose md5sum is not the
    subscriber's.  The frame parses to a header without [error]; the
    subscriber then calls [TcprosUtils.validatePubHeader], which the module
    does not define: the call raises a TypeError, the socket is not ended with
    an error, and the client stays uninitialized, so that no later frame is
    delivered either. *)
Theorem C5_publisher_header_validation_raises :
  let s := Subscriber.mkSubscriber "/chatter" "std_msgs/String" 1 0 [] Wire.StringMsg in
  let client := Subscriber.mkClient (mkSocket "127.0.0.1:50000" 2)
                  "http://127.0.0.1:41000" false in
  let frame := WireFormat.enc_fields
                 ["callerid=/talker"; "md5sum=00000000000000000000000000000000";
                  "type=std_msgs/String"; "latching=0"] in
  let header : gmap string string :=
    {[ "callerid" := "/talker"; "md5sum" := "00000000000000000000000000000000";
       "type" := "std_msgs/String"; "latching" := "0" ]} in
  TcprosUtils.parseTcpRosHeader frame = Ok header
  ∧ header !! "md5sum" ≠ Some (Wire.md5sum (Subscriber._messageHandler s))
  ∧ Subscriber._handleMessage (λ b, b) frame (s, client)
    = ((s, client), [],
       Throw (Js.TypeError "TcprosUtils.validatePubHeader is not a function"))
  ∧ ∀ frames,
      Forall (λ e, ¬ Subscriber.delivers e)
        (Subscriber.frames_out (λ b, b) (frame :: frames) (s, client)).
Proof.
  intros s client frame header.
  assert (Hparse : TcprosUtils.parseTcpRosHeader frame = Ok header)
    by (vm_compute; reflexivity).
  assert (Herr : header !! "error" = None) by (vm_compute; reflexivity).
  split; [exact Hparse|]. split; [vm_compute; discriminate|]. split.
  - exact (handleMessage_header_throws (λ b, b) frame header s client
             eq_refl Hparse Herr).
  - intros frames.
    exact (frames_never_delivered (λ b, b) (frame :: frames) s client eq_refl).
Qed.

(* ===================================================================== *)
(** * Further properties of the code *)
(* ===================================================================== *)

(** ** The spinner over its histories *)

Section SpinnerHistoryLemmas.
Context {Client Msg : Type}.
Implicit Types (s : Spinner.GlobalSpinner Client Msg)
               (ops : list (Spinner.Op Client Msg)).

Lemma count_timers_app (o1 o2 : list (Spinner.Effect Client Msg)) :
  SpinnerHistory.count_timers (o1 ++ o2)
  = (SpinnerHistory.count_timers o1 + SpinnerHistory.count_timers o2)%nat.
Proof.
  induction o1 as [|[c l|] o1 IH]; simpl; [reflexivity|exact IH|by rewrite IH].
Qed.

Lemma count_timers_concat (ls : list (list (Spinner.Effect Client Msg))) :
  Forall (λ l, SpinnerHistory.count_timers l = 0%nat) ls →
  SpinnerHistory.count_timers (concat ls) = 0%nat.
Proof.
  induction 1 as [|l ls Hl _ IH]; [reflexivity|].
  simpl. rewrite count_timers_app. lia.
Qed.

Lemma count_timers_tick_out now ids (m : list (string * Spinner.ClientQueue Client Msg)) :
  SpinnerHistory.count_timers (Spinner.tick_out now ids m) = 0%nat.
Proof.
  unfold Spinner.tick_out. apply count_timers_concat.
  apply Forall_fmap, Forall_forall. intros id _. simpl.
  destruct (Js.Map_get id m) as [q|]; [|reflexivity].
  unfold Spinner.handleClientMessages. by destruct (Spinner.eligible now q).
Qed.

Lemma timer_covers_exec (op : Spinner.Op Client Msg) s :
  Spinner.wf s → SpinnerHistory.timer_covers s → SpinnerHistory.timer_covers (Js.state (Spinner.exec op s)).
Proof.
  intros Hwf Hcov. destruct op as [c id n thr|id msg|id|now]; simpl.
  - rewrite addClient_spec. unfold Js.state. simpl. by case_bool_decide.
  - destruct (Js.Map_get id (Spinner._clientQueueMap s)) as [q|] eqn:Hq.
    + rewrite (ping_known _ _ _ q) by done. intros _. reflexivity.
    + by rewrite ping_unknown.
  - unfold Js.state, SpinnerHistory.timer_covers. simpl. intros Hne. apply Hcov.
    intros Hnil. rewrite Hnil in Hne. done.
  - rewrite handleQueue_spec by done. unfold Js.state, SpinnerHistory.timer_covers. simpl.
    intros Hne. by rewrite bool_decide_true.
Qed.

Lemma timer_covers_run ops : ∀ s,
  Spinner.wf s → SpinnerHistory.timer_covers s → SpinnerHistory.timer_covers (Spinner.run ops s).
Proof.
  unfold Spinner.run. induction ops as [|op ops IH]; intros s Hwf Hcov; [done|].
  simpl. apply IH; [by apply (wf_run [op])|by apply timer_covers_exec].
Qed.

Lemma trace_timers ops : ∀ s,
  Spinner.wf s →
  (SpinnerHistory.count_timers (SpinnerHistory.trace ops s)
   + (if Spinner._spinTimer s then 1 else 0)
   ≤ SpinnerHistory.count_ticks ops + 1)%nat.
Proof.
  induction ops as [|op ops IH]; intros s Hwf.
  - simpl. destruct (Spinner._spinTimer s); lia.
  - cbn [SpinnerHistory.trace]. rewrite count_timers_app.
    pose proof (IH (Js.state (Spinner.exec op s)) (wf_run [op] s Hwf)) as IH'.
    destruct op as [c id n thr|id msg|id|now]; cbn [Spinner.exec SpinnerHistory.count_ticks] in *.
    + rewrite addClient_spec in *. unfold Js.state, Js.out in *. cbn [fst snd] in *.
      assert (Spinner._spinTimer
                (if bool_decide (n > 0)
                 then Spinner.set_clientQueueMap
                        (Js.Map_set id (Spinner.mkClientQueue c [] n thr None)
                           (Spinner._clientQueueMap s)) s
                 else s) = Spinner._spinTimer s) as Ht by (by case_bool_decide).
      rewrite Ht in IH'. simpl. lia.
    + destruct (Js.Map_get id (Spinner._clientQueueMap s)) as [q|] eqn:Hq.
      * rewrite (ping_known _ _ _ q) in * by done.
        unfold Js.state, Js.out in *. cbn [fst snd Spinner._spinTimer] in *.
        destruct (Spinner._spinTimer s); simpl; lia.
      * rewrite ping_unknown in * by done.
        unfold Js.state, Js.out in *. cbn [fst snd] in *. simpl. lia.
    + unfold Js.state, Js.out in *. simpl in *. lia.
    + rewrite handleQueue_spec in * by done.
      unfold Js.state, Js.out in *. cbn [fst snd Spinner._spinTimer] in *.
      rewrite count_timers_app, count_timers_tick_out.
      destruct (bool_decide (_ ≠ [])); destruct (Spinner._spinTimer s); simpl in *; lia.
Qed.
End SpinnerHistoryLemmas.

(** X1.  From a new spinner, after any history of [addClient], [ping],
    [disconnect] and [_handleQueue] runs, a run of [_handleQueue] returns: it
    never meets a client id without a queue, and the consistency check
    [_getClientsWithQueuedMessages] never finds a client with queued messages
    that is missing from the call queue. *)
Theorem X1_tick_never_throws
    {Client Msg : Type} (ops : list (Spinner.Op Client Msg)) (now : Z) :
  let s := Spinner.run ops Spinner.GlobalSpinner_new in
  Js.result (Spinner._handleQueue now s) = Ok tt
  ∧ Spinner._getClientsWithQueuedMessages s = (s, [], Ok tt).
Proof.
  intros s. assert (Hwf : Spinner.wf s) by apply wf_run, wf_new.
  split; [by rewrite handleQueue_spec|].
  apply check_passes. intros id q Hin Hne.
  destruct Hwf as (_ & Hkeys & _ & Hpending).
  apply (Hpending id q); [|done]. by apply Map_elem_get.
Qed.

(** X2.  From a new spinner, after any history of calls made one after the
    other, a client that holds queued messages is on the call queue and the
    spin timer is armed: no queued message is left without a pending run of
    [_handleQueue].  This is for clients whose [_handleMsgQueue] does not call
    back into the spinner while [_handleQueue] is running; a ping made from
    inside a run is not among the histories. *)
Theorem X2_queued_messages_keep_timer_armed
    {Client Msg : Type} (ops : list (Spinner.Op Client Msg))
    (id : string) (q : Spinner.ClientQueue Client Msg) :
  let s := Spinner.run ops Spinner.GlobalSpinner_new in
  Js.Map_get id (Spinner._clientQueueMap s) = Some q →
  Spinner._queue q ≠ [] →
  id ∈ Spinner._clientCallQueue s ∧ Spinner._spinTimer s = true.
Proof.
  intros s Hq Hne.
  assert (Hwf : Spinner.wf s) by apply wf_run, wf_new.
  assert (Hcov : SpinnerHistory.timer_covers s).
  { apply timer_covers_run; [apply wf_new|]. intros H. done. }
  destruct Hwf as (_ & _ & _ & Hpending).
  assert (Hin : id ∈ Spinner._clientCallQueue s) by (by apply (Hpending id q)).
  split; [exact Hin|]. apply Hcov. intros Hnil. rewrite Hnil in Hin.
  by apply elem_of_nil in Hin.
Qed.

(** X2 at a client that was pinged twice after a tick dispatched its first
    message. *)
Lemma X2_witness :
  let ops : list (Spinner.Op string Z) :=
    [Spinner.AddClient "sub" "Subscriber:///b" 2 10;
     Spinner.Ping "Subscriber:///b" 1; Spinner.Tick 100;
     Spinner.Ping "Subscriber:///b" 2; Spinner.Ping "Subscriber:///b" 3] in
  let s := Spinner.run ops Spinner.GlobalSpinner_new in
  Js.Map_get "Subscriber:///b" (Spinner._clientQueueMap s)
  = Some (Spinner.mkClientQueue "sub" [2; 3] 2 10 (Some 100))
  ∧ "Subscriber:///b" ∈ Spinner._clientCallQueue s ∧ Spinner._spinTimer s = true.
Proof.
  split; [reflexivity|].
  apply (X2_queued_messages_keep_timer_armed
           [Spinner.AddClient "sub" "Subscriber:///b" 2 10;
            Spinner.Ping "Subscriber:///b" 1; Spinner.Tick 100;
            Spinner.Ping "Subscriber:///b" 2; Spinner.Ping "Subscriber:///b" 3]
           "Subscriber:///b"
           (Spinner.mkClientQueue "sub" [2; 3] 2 10 (Some 100)));
    [reflexivity|discriminate].
Defined.

(** X3.  Over any history from a new spinner, [setTimeout] is called at most
    once more than [_handleQueue] has run: however many pings arrive between
    two runs of [_handleQueue], they arm one timer. *)
Theorem X3_one_timer_per_tick
    {Client Msg : Type} (ops : list (Spinner.Op Client Msg)) :
  (SpinnerHistory.count_timers
     (SpinnerHistory.trace ops (Spinner.GlobalSpinner_new : Spinner.GlobalSpinner Client Msg))
   ≤ SpinnerHistory.count_ticks ops + 1)%nat.
Proof.
  pose proof (trace_timers ops (Spinner.GlobalSpinner_new : Spinner.GlobalSpinner Client Msg)
                wf_new) as H.
  simpl in H. lia.
Qed.

(** X4.  [addClient] under an id that is already registered replaces the
    queue: the messages still queued are dropped, and when the id is waiting
    on the call queue the next run of [_handleQueue], at whatever time, calls
    the new client's [_handleMsgQueue] with an empty batch. *)
Theorem X4_readding_a_client_drops_its_queue
    {Client Msg : Type} (s : Spinner.GlobalSpinner Client Msg)
    (client : Client) (id : string) (n thr now : Z) :
  Spinner.wf s → id ∈ Spinner._clientCallQueue s → n > 0 →
  let s1 := Js.state (Spinner.addClient client id n thr s) in
  Js.Map_get id (Spinner._clientQueueMap s1)
  = Some (Spinner.mkClientQueue client [] n thr None)
  ∧ Spinner.HandleMsgQueue client [] ∈ Js.out (Spinner._handleQueue now s1).
Proof.
  intros Hwf Hin Hn s1.
  assert (Hwf1 : Spinner.wf s1) by (by apply wf_addClient).
  assert (Hq : Js.Map_get id (Spinner._clientQueueMap s1)
               = Some (Spinner.mkClientQueue client [] n thr None)).
  { subst s1. rewrite addClient_spec. unfold Js.state. cbn [fst].
    rewrite bool_decide_true by done. simpl. rewrite Map_get_set.
    by rewrite decide_True. }
  assert (Hin1 : id ∈ Spinner._clientCallQueue s1).
  { subst s1. rewrite addClient_spec. unfold Js.state. cbn [fst].
    by rewrite bool_decide_true. }
  split; [exact Hq|].
  rewrite handleQueue_spec by done. unfold Js.out. cbn [fst snd].
  apply elem_of_app. left. unfold Spinner.tick_out.
  apply (elem_of_concat_intro [Spinner.HandleMsgQueue client []]); [|left].
  apply list_elem_of_fmap. exists id. split; [|done]. by rewrite Hq.
Qed.

(** X4 at a subscriber that is added again while two of its messages wait. *)
Lemma X4_witness :
  let s : Spinner.GlobalSpinner string Z :=
    Spinner.run [Spinner.AddClient "sub" "Subscriber:///b" 2 10;
                 Spinner.Ping "Subscriber:///b" 1; Spinner.Ping "Subscriber:///b" 2]
      Spinner.GlobalSpinner_new in
  Spinner.wf s ∧ "Subscriber:///b" ∈ Spinner._clientCallQueue s ∧ 5 > 0
  ∧ Spinner.HandleMsgQueue "sub2" []
    ∈ Js.out (Spinner._handleQueue 7
                (Js.state (Spinner.addClient "sub2" "Subscriber:///b" 5 0 s))).
Proof.
  assert (Hwf : Spinner.wf (Spinner.run
                  [Spinner.AddClient "sub" "Subscriber:///b" 2 10;
                   Spinner.Ping "Subscriber:///b" 1; Spinner.Ping "Subscriber:///b" 2]
                  (Spinner.GlobalSpinner_new : Spinner.GlobalSpinner string Z)))
    by apply wf_run, wf_new.
  assert (Hin : "Subscriber:///b" ∈ ["Subscriber:///b"]) by left.
  assert (Hn : 5 > 0) by lia.
  split; [exact Hwf|]. split; [exact Hin|]. split; [exact Hn|].
  exact (proj2 (X4_readding_a_client_drops_its_queue _ "sub2" "Subscriber:///b" 5 0 7
                  Hwf Hin Hn)).
Defined.

(** ** The master RPC client, handler by handler *)

Section XmlrpcChainLemmas.
Import XmlrpcClient.
Implicit Types (s : XmlrpcClient) (c : XmlrpcCall).

(** The chain of [_tryExecuteCall] is its handlers followed by its last
    [then]. *)
Lemma settle_split c reply :
  settle c reply = (XmlrpcChain.on_settled c reply ;; XmlrpcChain.final_then).
Proof. reflexivity. Qed.




Lemma shift_reset_emit (e : Effect) s :
  (_shiftQueue ;; _resetTimeout ;; Js.emit e) s
  = ({| _callQueue := tail (_callQueue s); _timeout := 0; _timeoutId := None |},
     [e], Ok tt).
Proof. reflexivity. Qed.






End XmlrpcChainLemmas.



(** X6.  When the head call is the only one queued and finishes for good (it
    succeeds, or fails with anything but a refused connection), and its
    [resolve] or [reject] callback makes a new call before the last [then] of
    the chain runs, the RPC of the new call is started twice: once by [call],
    which finds the queue empty, and once by the last [then], which finds the
    new call at the head. *)
Theorem X6_call_from_a_completion_callback_is_started_twice
    (s : XmlrpcClient.XmlrpcClient) (head c : XmlrpcClient.XmlrpcCall)
    (reply : XmlrpcClient.Reply) :
  XmlrpcClient._callQueue s = [head] →
  (∀ err, XmlrpcClient.XmlrpcCall_call reply = XmlrpcClient.Rejected err →
          XmlrpcClient.is_refused err = false) →
  let r1 := XmlrpcChain.on_settled head reply s in
  let r2 := XmlrpcClient.call c (Js.state r1) in
  let r3 := XmlrpcChain.final_then (Js.state r2) in
  Js.out r1 = [match XmlrpcClient.XmlrpcCall_call reply with
               | XmlrpcClient.Fulfilled resp => XmlrpcClient.Resolve head resp
               | XmlrpcClient.Rejected err => XmlrpcClient.Reject head err
               end]
  ∧ Js.out r2 = [XmlrpcClient.MethodCall c]
  ∧ Js.out r3 = [XmlrpcClient.MethodCall c]
  ∧ XmlrpcClient._callQueue (Js.state r3) = [c].
Proof.
  intros Hq Hnr r1 r2 r3.
  assert (H1 : r1 = (XmlrpcClient.mkClient [] 0 None,
                     [match XmlrpcClient.XmlrpcCall_call reply with
                      | XmlrpcClient.Fulfilled resp => XmlrpcClient.Resolve head resp
                      | XmlrpcClient.Rejected err => XmlrpcClient.Reject head err
                      end], Ok tt)).
  { subst r1. unfold XmlrpcChain.on_settled.
    destruct (XmlrpcClient.XmlrpcCall_call reply) as [resp|err].
    - rewrite shift_reset_emit, Hq. reflexivity.
    - rewrite (Hnr err eq_refl), shift_reset_emit, Hq. reflexivity. }
  subst r3 r2. rewrite H1. unfold Js.state, Js.out. cbn.
  split; [reflexivity|]. split; [reflexivity|]. split; reflexivity.
Qed.

(** X6 at a [getUri] call whose success callback calls [registerPublisher]. *)
Lemma X6_witness :
  let head := XmlrpcClient.mkCall 0 "getUri" ["/node"] in
  let c := XmlrpcClient.mkCall 1 "registerPublisher" ["/node"; "/chatter"] in
  let reply := XmlrpcClient.ReplyResp (XmlrpcClient.mkResp 1 "ok" "http://host:1/") in
  let s := XmlrpcClient.mkClient [head] 0 None in
  XmlrpcClient._callQueue s = [head]
  ∧ XmlrpcChain.trace [XmlrpcChain.OnSettled head reply; XmlrpcChain.Call c;
                       XmlrpcChain.FinalThen] s
    = [XmlrpcClient.Resolve head (XmlrpcClient.mkResp 1 "ok" "http://host:1/");
       XmlrpcClient.MethodCall c; XmlrpcClient.MethodCall c].
Proof.
  split; [reflexivity|].
  destruct (X6_call_from_a_completion_callback_is_started_twice
              (XmlrpcClient.mkClient [XmlrpcClient.mkCall 0 "getUri" ["/node"]] 0 None)
              (XmlrpcClient.mkCall 0 "getUri" ["/node"])
              (XmlrpcClient.mkCall 1 "registerPublisher" ["/node"; "/chatter"])
              (XmlrpcClient.ReplyResp (XmlrpcClient.mkResp 1 "ok" "http://host:1/"))
              eq_refl)
    as (H1 & H2 & H3 & _).
  { intros err. cbn. discriminate. }
  cbn [XmlrpcChain.trace XmlrpcChain.exec]. rewrite H1, H2, H3. reflexivity.
Defined.

(** ** The service client from its construction on *)

Section ServiceClientHistory.
Context {Request : Type}.
Implicit Types (s : ServiceClient.ServiceClient Request)
               (c : ServiceClient.ServiceCall Request).

(** On an empty queue [call] starts the request of the new call at once and
    leaves the queue empty, whatever the bound. *)
Lemma call_on_empty_queue c s :
  ServiceClient._callQueue s = [] →
  ServiceClient.call c s
  = (ServiceClient.mkServiceClient (ServiceClient._persist s)
       (ServiceClient._maxQueueLength s) true (ServiceClient._serviceClient s)
       [] (ServiceClient.executing s ++ [c]),
     [match ServiceClient._serviceClient s with
      | Some socket => if ServiceClient._persist s
                       then ServiceClient.SendOnCachedSocket c socket
                       else ServiceClient.LookupService c
      | None => ServiceClient.LookupService c
      end], Ok tt).
Proof.
  intros Hq. rewrite call_within_bound by (rewrite Hq; simpl; lia).
  cbn [ServiceClient._callQueue ServiceClient.set_callQueue]. rewrite Hq.
  rewrite bool_decide_true by reflexivity.
  rewrite executeCall_spec. reflexivity.
Qed.

Lemma exec_on_empty_queue (op : ServiceClient.Op Request) s :
  ServiceClient._callQueue s = [] →
  ∃ s' out,
    ServiceClient.exec op s = (s', out, Ok tt)
    ∧ ServiceClient._callQueue s' = []
    ∧ ServiceClient.executing s'
      = ServiceClient.executing s ++ ServiceClientChain.calls_of [op]
    ∧ ServiceClientChain.started out = ServiceClientChain.calls_of [op]
    ∧ Forall (λ e, ¬ ServiceClient.is_Reject e) out.
Proof.
  intros Hq. destruct op as [c|]; cbn [ServiceClient.exec].
  - rewrite call_on_empty_queue by done. do 2 eexists. split; [reflexivity|].
    split; [reflexivity|]. split; [reflexivity|]. split.
    + destruct (ServiceClient._serviceClient s); [|reflexivity].
      by destruct (ServiceClient._persist s).
    + apply Forall_cons. split; [|apply Forall_nil_2].
      destruct (ServiceClient._serviceClient s); [|cbn; tauto].
      destruct (ServiceClient._persist s); cbn; tauto.
  - rewrite executeCall_spec, Hq. do 2 eexists. split; [reflexivity|].
    split; [exact Hq|]. split; [cbn; by rewrite app_nil_r|]. split; [reflexivity|].
    apply Forall_cons. split; [cbn; tauto|apply Forall_nil_2].
Qed.

Lemma calls_of_cons (op : ServiceClient.Op Request) ops :
  ServiceClientChain.calls_of (op :: ops)
  = ServiceClientChain.calls_of [op] ++ ServiceClientChain.calls_of ops.
Proof. by destruct op. Qed.

Lemma started_app (o1 o2 : list (ServiceClient.Effect Request)) :
  ServiceClientChain.started (o1 ++ o2)
  = ServiceClientChain.started o1 ++ ServiceClientChain.started o2.
Proof. apply omap_app. Qed.

Lemma history_on_empty_queue (ops : list (ServiceClient.Op Request)) : ∀ s,
  ServiceClient._callQueue s = [] →
  let r := Js.forEach ServiceClient.exec ops s in
  Js.result r = Ok tt
  ∧ ServiceClient._callQueue (Js.state r) = []
  ∧ ServiceClient.executing (Js.state r)
    = ServiceClient.executing s ++ ServiceClientChain.calls_of ops
  ∧ ServiceClientChain.started (Js.out r) = ServiceClientChain.calls_of ops
  ∧ Forall (λ e, ¬ ServiceClient.is_Reject e) (Js.out r).
Proof.
  induction ops as [|op ops IH]; intros s Hq; cbv zeta.
  - cbn. rewrite app_nil_r. repeat split; done.
  - cbn [Js.forEach]. unfold Js.bind.
    destruct (exec_on_empty_queue op s Hq) as (s1 & o1 & -> & Hq1 & Hex1 & Hst1 & Hnr1).
    destruct (IH s1 Hq1) as (Hres & Hq2 & Hex2 & Hst2 & Hnr2).
    destruct (Js.forEach ServiceClient.exec ops s1) as [[s2 o2] r2].
    unfold Js.result, Js.state, Js.out in *. cbn [fst snd] in *.
    split; [exact Hres|]. split; [exact Hq2|].
    rewrite calls_of_cons, started_app, Hst1, Hst2, Hex2, Hex1, <- app_assoc.
    split; [reflexivity|]. split; [reflexivity|]. by apply Forall_app.
Qed.
End ServiceClientHistory.

(** X7.  On a service client as the constructor leaves it, whatever
    [queueLength] was given, every [call] starts its request at once: after
    any history of [call]s (and of [_executeCall] runs) the queue is empty,
    the requests have been started in the order of the calls, whether an
    earlier one has been answered or not, and no call has been rejected for
    overflow. *)
Theorem X7_service_calls_start_at_once
    {Request : Type} (persist : bool) (queueLength : option Z)
    (ops : list (ServiceClient.Op Request)) :
  let r := Js.forEach ServiceClient.exec ops
             (ServiceClient.ServiceClient_new persist queueLength) in
  Js.result r = Ok tt
  ∧ ServiceClient._callQueue (Js.state r) = []
  ∧ ServiceClient.executing (Js.state r) = ServiceClientChain.calls_of ops
  ∧ ServiceClientChain.started (Js.out r) = ServiceClientChain.calls_of ops
  ∧ Forall (λ e, ¬ ServiceClient.is_Reject e) (Js.out r).
Proof.
  exact (history_on_empty_queue ops (ServiceClient.ServiceClient_new persist queueLength)
           eq_refl).
Qed.

(** X8.  When the service answers a request with failure, the ['message']
    listener of [_sendRequest] rejects without a value, and the [catch]
    handler of [_executeCall] throws on reading [err.stack] before it clears
    [_calling]: the client is left exactly as it was, so it keeps reporting a
    call in progress, the call is not resolved, no next call is scheduled, and
    a [close()] does not give up the cached socket. *)
Theorem X8_failed_response_leaves_call_in_progress
    {Request Response : Type} (deserialize : list Z → Js.Result Response)
    (s : ServiceClient.ServiceClient Request)
    (call : ServiceClient.ServiceCall Request) (msg : list Z) :
  ServiceClient._calling s = true →
  let r := ServiceClientChain.onMessage deserialize call msg false s in
  r = (s, [ServiceClientChain.Warn "Service error"],
       Throw (Js.TypeError "Cannot read property 'stack' of undefined"))
  ∧ ServiceClientChain.isCallInProgress (Js.state r) = true
  ∧ ServiceClientChain.close (Response:=Response) (Js.state r) = (s, [], Ok tt).
Proof.
  intros Hc r.
  assert (Hr : r = (s, [ServiceClientChain.Warn "Service error"],
                    Throw (Js.TypeError "Cannot read property 'stack' of undefined")))
    by reflexivity.
  rewrite Hr. split; [reflexivity|].
  unfold Js.state. cbn [fst]. split; [exact Hc|].
  unfold ServiceClientChain.close, mbind, eff_bind, Js.bind. cbn [Js.get].
  unfold ServiceClientChain.isCallInProgress. rewrite Hc. reflexivity.
Qed.

(** X8 at a persistent client whose one call has just been sent on the
    cached socket. *)
Lemma X8_witness :
  let c := ServiceClient.mkServiceCall 0 ("a", "b") in
  let s := Js.state (ServiceClient.call c
                       (ServiceClient.mkServiceClient true (-1) false (Some 7%nat) [] [])) in
  ServiceClient._calling s = true
  ∧ ServiceClient._serviceClient
      (Js.state (ServiceClientChain.close (Response:=string)
         (Js.state (ServiceClientChain.onMessage (λ _, Ok "sum") c [1] false s))))
    = Some 7%nat.
Proof.
  split; [reflexivity|].
  destruct (X8_failed_response_leaves_call_in_progress (λ _, Ok "sum")
              (Js.state (ServiceClient.call (ServiceClient.mkServiceCall 0 ("a", "b"))
                 (ServiceClient.mkServiceClient true (-1) false (Some 7%nat) [] [])))
              (ServiceClient.mkServiceCall 0 ("a", "b")) [1] eq_refl)
    as (_ & _ & Hclose).
  rewrite Hclose. reflexivity.
Defined.

(** X9.  [_calling] is one flag for all the calls in progress.  When two
    calls are made one after the other their requests are both started; as
    soon as the first is answered the flag is cleared, although the second
    has not been answered, and a [close()] then gives up the cached socket. *)
Theorem X9_first_answer_clears_the_progress_flag
    {Request Response : Type} (s : ServiceClient.ServiceClient Request)
    (c1 c2 : ServiceClient.ServiceCall Request) (msg : Response) :
  ServiceClient._callQueue s = [] →
  let r := Js.forEach ServiceClient.exec [ServiceClient.Call c1; ServiceClient.Call c2] s in
  let r' := ServiceClientChain.onFulfilled c1 msg (Js.state r) in
  ServiceClientChain.started (Js.out r) = [c1; c2]
  ∧ ServiceClientChain.isCallInProgress (Js.state r) = true
  ∧ Js.out r' = [ServiceClientChain.Resolve c1 msg]
  ∧ ServiceClientChain.isCallInProgress (Js.state r') = false
  ∧ ServiceClient._serviceClient
      (Js.state (ServiceClientChain.close (Response:=Response) (Js.state r'))) = None.
Proof.
  intros Hq r r'.
  assert (Hr : r = (ServiceClient.mkServiceClient (ServiceClient._persist s)
                      (ServiceClient._maxQueueLength s) true
                      (ServiceClient._serviceClient s) []
                      ((ServiceClient.executing s ++ [c1]) ++ [c2]),
                    [match ServiceClient._serviceClient s with
                     | Some socket => if ServiceClient._persist s
                                      then ServiceClient.SendOnCachedSocket c1 socket
                                      else ServiceClient.LookupService c1
                     | None => ServiceClient.LookupService c1
                     end;
                     match ServiceClient._serviceClient s with
                     | Some socket => if ServiceClient._persist s
                                      then ServiceClient.SendOnCachedSocket c2 socket
                                      else ServiceClient.LookupService c2
                     | None => ServiceClient.LookupService c2
                     end], Ok tt)).
  { subst r. cbn [Js.forEach ServiceClient.exec]. unfold Js.bind.
    rewrite call_on_empty_queue by done.
    rewrite call_on_empty_queue by reflexivity. reflexivity. }
  subst r'. rewrite Hr.
  unfold Js.state, Js.out. cbn [fst snd].
  split.
  { cbn [ServiceClient._serviceClient ServiceClient._persist].
    destruct (ServiceClient._serviceClient s); [|reflexivity].
    by destruct (ServiceClient._persist s). }
  split; [reflexivity|]. split; [reflexivity|]. split; reflexivity.
Qed.

(** X9 at two calls on a persistent client that holds a cached socket. *)
Lemma X9_witness :
  let c1 := ServiceClient.mkServiceCall 1 ("a", "b") in
  let c2 := ServiceClient.mkServiceCall 2 ("c", "d") in
  let s := ServiceClient.mkServiceClient true (-1) false (Some 7%nat) [] [] in
  ServiceClient._callQueue s = []
  ∧ ServiceClientChain.started
      (Js.out (Js.forEach ServiceClient.exec [ServiceClient.Call c1; ServiceClient.Call c2] s))
    = [c1; c2]
  ∧ ServiceClient._serviceClient
      (Js.state (ServiceClientChain.close (Response:=string)
         (Js.state (ServiceClientChain.onFulfilled c1 "sum"
            (Js.state (Js.forEach ServiceClient.exec
                         [ServiceClient.Call c1; ServiceClient.Call c2] s))))))
    = None.
Proof.
  split; [reflexivity|].
  destruct (X9_first_answer_clears_the_progress_flag
              (ServiceClient.mkServiceClient true (-1) false (Some 7%nat) [] [])
              (ServiceClient.mkServiceCall 1 ("a", "b"))
              (ServiceClient.mkServiceCall 2 ("c", "d")) "sum" eq_refl)
    as (H1 & _ & _ & _ & H5).
  split; [exact H1|exact H5].
Defined.

(** ** Connection headers: written, then parsed *)

Section HeaderLemmas.
Import Wire TcprosUtils TcprosHeaders.

Lemma string_of_bytes_of_string str : string_of_bytes (bytes_of_string str) = str.
Proof.
  unfold string_of_bytes, bytes_of_string. rewrite <- list_fmap_compose.
  rewrite <- (String.string_of_list_ascii_of_string str) at 2. f_equal.
  induction (String.list_ascii_of_string str) as [|c l IH]; [reflexivity|].
  cbn [fmap list_fmap] in *. rewrite IH. f_equal. simpl.
  by rewrite N2Z.id, Ascii.ascii_N_embedding.
Qed.

(** A string is read back from the front of a buffer as it was written. *)
Lemma deserializeString_enc_string str (rest : list Z) :
  fits str →
  deserializeString (WireFormat.enc_string str ++ rest) = Ok (str, rest).
Proof.
  intros Hfit. unfold deserializeString, deserialize_string, WireFormat.enc_string.
  rewrite bool_decide_false by (rewrite !length_app, u32le_length; lia).
  rewrite <- app_assoc.
  assert (Htake : take 4 (u32le (Z.of_nat (strlen str)) ++ bytes_of_string str ++ rest)
                  = u32le (Z.of_nat (strlen str))) by reflexivity.
  assert (Hdrop : drop 4 (u32le (Z.of_nat (strlen str)) ++ bytes_of_string str ++ rest)
                  = bytes_of_string str ++ rest) by reflexivity.
  rewrite Htake, Hdrop.
  rewrite u32le_decode_encode by (unfold fits in Hfit; lia).
  rewrite Nat2Z.id. unfold strlen.
  rewrite take_app_length, string_of_bytes_of_string.
  cbn [mbind result_bind mret result_ret]. do 2 f_equal.
  change (4 + length (bytes_of_string str))%nat
    with (S (S (S (S (length (bytes_of_string str)))))).
  cbn [drop u32le app]. apply drop_app_length.
Qed.

Lemma startsWith_app pre v : startsWith pre (pre +:+ v) = true.
Proof.
  unfold startsWith. induction pre as [|a pre IH]; simpl.
  - by destruct v.
  - destruct (Ascii.ascii_dec a a); [exact IH|done].
Qed.

Lemma substring_all v : String.substring 0 (String.length v) v = v.
Proof. induction v as [|a v IH]; simpl; [reflexivity|by rewrite IH]. Qed.

Lemma substr_from_app pre v : substr_from (String.length pre) (pre +:+ v) = v.
Proof.
  unfold substr_from. induction pre as [|a pre IH]; simpl.
  - rewrite Nat.sub_0_r. apply substring_all.
  - exact IH.
Qed.

Lemma enc_string_nonempty str : WireFormat.enc_string str ≠ [].
Proof. unfold WireFormat.enc_string, u32le. done. Qed.

Lemma parse_by_prefix_step cases fuel (header : list Z) info :
  header ≠ [] →
  parse_by_prefix cases (S fuel) header info
  = ('(field, buffer) ← deserializeString header;
     parse_by_prefix cases fuel buffer (store_field cases field info)).
Proof. by destruct header. Qed.

(** A parser by prefix, run on fields written one behind the other, sees
    each field once, in order. *)
Lemma parse_by_prefix_fields cases (fields : list string) : ∀ fuel info,
  Forall fits fields →
  (length (WireFormat.enc_fields fields) ≤ fuel)%nat →
  parse_by_prefix cases fuel (WireFormat.enc_fields fields) info
  = Ok (foldl (λ info field, store_field cases field info) info fields).
Proof.
  induction fields as [|f fields IH]; intros fuel info Hfit Hfuel.
  - by destruct fuel.
  - apply Forall_cons in Hfit as [Hf Hfit].
    rewrite enc_fields_cons in *. rewrite length_app, enc_string_length in Hfuel.
    destruct fuel as [|fuel]; [lia|].
    rewrite parse_by_prefix_step.
    2:{ intros Hnil. apply app_eq_nil in Hnil as [Hnil _].
        by apply enc_string_nonempty in Hnil. }
    rewrite deserializeString_enc_string by done.
    cbn [mbind result_bind foldl]. apply IH; [done|lia].
Qed.

Lemma parseSubHeader_by_prefix fuel : ∀ header info,
  parseSubHeader_loop fuel header info
  = parse_by_prefix [(md5Prefix, "md5sum"); (topicPrefix, "topic");
                     (callerIdPrefix, "callerId"); (typePrefix, "type")]
      fuel header info.
Proof.
  induction fuel as [|fuel IH]; intros [|b header] info; try reflexivity.
  cbn [parseSubHeader_loop parse_by_prefix].
  destruct (deserializeString (b :: header)) as [[field buffer]|e]; [|reflexivity].
  cbn [mbind result_bind]. rewrite IH. reflexivity.
Qed.

Lemma parsePubHeader_by_prefix fuel : ∀ header info,
  parsePubHeader_loop fuel header info
  = parse_by_prefix [(md5Prefix, "md5sum"); (latchingPrefix, "latching");
                     (callerIdPrefix, "callerId"); (typePrefix, "type")]
      fuel header info.
Proof.
  induction fuel as [|fuel IH]; intros [|b header] info; try reflexivity.
  cbn [parsePubHeader_loop parse_by_prefix].
  destruct (deserializeString (b :: header)) as [[field buffer]|e]; [|reflexivity].
  cbn [mbind result_bind]. rewrite IH. reflexivity.
Qed.

Lemma parseServiceClientHeader_by_prefix fuel : ∀ header info,
  parseServiceClientHeader_loop fuel header info
  = parse_by_prefix [(md5Prefix, "md5sum"); (servicePrefix, "service");
                     (callerIdPrefix, "callerId"); (typePrefix, "type")]
      fuel header info.
Proof.
  induction fuel as [|fuel IH]; intros [|b header] info; try reflexivity.
  cbn [parseServiceClientHeader_loop parse_by_prefix].
  destruct (deserializeString (b :: header)) as [[field buffer]|e]; [|reflexivity].
  cbn [mbind result_bind]. rewrite IH. reflexivity.
Qed.

Lemma parseServiceServerHeader_by_prefix fuel : ∀ header info,
  parseServiceServerHeader_loop fuel header info
  = parse_by_prefix [(md5Prefix, "md5sum"); (callerIdPrefix, "callerId");
                     (typePrefix, "type")]
      fuel header info.
Proof.
  induction fuel as [|fuel IH]; intros [|b header] info; try reflexivity.
  cbn [parseServiceServerHeader_loop parse_by_prefix].
  destruct (deserializeString (b :: header)) as [[field buffer]|e]; [|reflexivity].
  cbn [mbind result_bind]. rewrite IH. reflexivity.
Qed.

(** What a case stores for a field that starts with its prefix, and that it
    passes over a field that starts with none. *)
Lemma store_field_here pre key cases v info :
  store_field ((pre, key) :: cases) (pre +:+ v) info = <[key := v]> info.
Proof. cbn [store_field]. by rewrite startsWith_app, substr_from_app. Qed.

Lemma store_field_next pre key cases field info :
  startsWith pre field = false →
  store_field ((pre, key) :: cases) field info = store_field cases field info.
Proof. intros H. cbn [store_field]. by rewrite H. Qed.
End HeaderLemmas.

Section RegexLemmas.
Import TcprosUtils TcprosHeaders.

Lemma take_while_app p (k rest : string) :
  forallb p (String.list_ascii_of_string k) = true →
  match rest with EmptyString => True | String c _ => p c = false end →
  take_while p (k +:+ rest) = k.
Proof.
  intros Hk Hrest. induction k as [|a k IH]; simpl in *.
  - destruct rest as [|c rest]; [reflexivity|]. simpl. by rewrite Hrest.
  - apply andb_true_iff in Hk as [-> Hk]. by rewrite IH.
Qed.

Lemma drop_while_app p (k rest : string) :
  forallb p (String.list_ascii_of_string k) = true →
  match rest with EmptyString => True | String c _ => p c = false end →
  drop_while p (k +:+ rest) = rest.
Proof.
  intros Hk Hrest. induction k as [|a k IH]; simpl in *.
  - destruct rest as [|c rest]; [reflexivity|]. simpl. by rewrite Hrest.
  - apply andb_true_iff in Hk as [-> Hk]. by apply IH.
Qed.

Lemma take_while_all p (v : string) :
  forallb p (String.list_ascii_of_string v) = true → take_while p v = v.
Proof.
  intros Hv. induction v as [|a v IH]; simpl in *; [reflexivity|].
  apply andb_true_iff in Hv as [-> Hv]. by rewrite IH.
Qed.

Lemma regex_match_here (s : string) groups :
  match_here s = Some groups → regex_match true s = Some groups.
Proof. intros H. destruct s; cbn [regex_match]; by rewrite H. Qed.

(** The pattern takes a field [key=value] apart when the key is a word and
    the value is on one line. *)
Lemma regex_match_field (kv : string * string) :
  word kv.1 = true → one_line kv.2 = true →
  regex_match true (field_of kv) = Some kv.
Proof.
  destruct kv as [k v]. unfold word, one_line, field_of. cbn [fst snd].
  intros [Hk0 Hk]%andb_true_iff [Hv0 Hv]%andb_true_iff.
  change ("=" +:+ v) with (String (Ascii.ascii_of_nat 61) v).
  assert (Hhere : match_here (k +:+ String (Ascii.ascii_of_nat 61) v) = Some (k, v)).
  { unfold match_here.
    rewrite take_while_app, drop_while_app by done.
    destruct k as [|a k]; [done|].
    change (negb (Ascii.eqb (Ascii.ascii_of_nat 61) (Ascii.ascii_of_nat 61))) with false.
    cbv iota.
    rewrite take_while_all by done. by destruct v. }
  by apply regex_match_here.
Qed.

Lemma no_equals_drop_while p (s : string) :
  no_equals s = true → no_equals (drop_while p s) = true.
Proof.
  unfold no_equals. induction s as [|a s IH]; simpl; [done|].
  intros [Ha Hs]%andb_true_iff. destruct (p a); [by apply IH|].
  simpl. by rewrite Ha, Hs.
Qed.

Lemma match_here_no_equals (s : string) : no_equals s = true → match_here s = None.
Proof.
  intros Hs. unfold match_here.
  pose proof (no_equals_drop_while is_word s Hs) as Hd.
  destruct (take_while is_word s); [reflexivity|].
  destruct (drop_while is_word s) as [|c rest]; [reflexivity|].
  unfold no_equals in Hd. simpl in Hd. apply andb_true_iff in Hd as [-> _].
  reflexivity.
Qed.

(** Without a ['='] the pattern matches at no line start. *)
Lemma regex_match_no_equals (s : string) : ∀ at_start,
  no_equals s = true → regex_match at_start s = None.
Proof.
  induction s as [|a s IH]; intros at_start Hs.
  - destruct at_start; reflexivity.
  - cbn [regex_match].
    assert ((if at_start then match_here (String a s) else None) = None) as ->.
    { destruct at_start; [by apply match_here_no_equals|reflexivity]. }
    apply IH. unfold no_equals in *. simpl in Hs.
    by apply andb_true_iff in Hs as [_ Hs].
Qed.

Lemma parseTcpRosHeader_step fuel (header : list Z) info :
  header ≠ [] →
  parseTcpRosHeader_loop (S fuel) header info
  = ('(str, buffer) ← deserializeString header;
     match regex_match true str with
     | None => Throw (Js.ReferenceError "field is not defined")
     | Some (key, value) => parseTcpRosHeader_loop fuel buffer (set_property key value info)
     end).
Proof. by destruct header. Qed.

(** The properties that a run of assignments leaves are those of the fields
    whose key is not [__proto__]. *)
Lemma set_properties_filter (kvs : list (string * string)) : ∀ info : gmap string string,
  foldl (λ info kv, set_property kv.1 kv.2 info) info kvs
  = foldl (λ info kv, <[kv.1 := kv.2]> info) info
      (filter (λ kv, kv.1 ≠ "__proto__") kvs).
Proof.
  induction kvs as [|[k v] kvs IH]; intros info; [reflexivity|].
  cbn [foldl fst snd]. rewrite IH, filter_cons. cbn [fst]. unfold set_property.
  case_bool_decide as Hk.
  - rewrite decide_False by (intros H; by apply H). reflexivity.
  - rewrite decide_True by done. reflexivity.
Qed.

(** Under a key other than [__proto__] the object holds what the last
    assignment to that key gave it. *)
Lemma set_properties_lookup (key : string) (kvs : list (string * string)) :
  key ≠ "__proto__" → ∀ info1 info2 : gmap string string,
  info1 !! key = info2 !! key →
  foldl (λ info kv, set_property kv.1 kv.2 info) info1 kvs !! key
  = foldl (λ info kv, <[kv.1 := kv.2]> info) info2 kvs !! key.
Proof.
  intros Hkey. induction kvs as [|[k v] kvs IH]; intros info1 info2 Hsame; [exact Hsame|].
  cbn [foldl fst snd]. apply IH. unfold set_property.
  case_bool_decide as Hk.
  - subst k. by rewrite lookup_insert_ne.
  - destruct (decide (k = key)) as [->|Hne].
    + by rewrite !lookup_insert_eq.
    + by rewrite !lookup_insert_ne.
Qed.

Lemma parseTcpRosHeader_fields (kvs : list (string * string)) : ∀ fuel info,
  Forall (λ kv, word kv.1 = true ∧ one_line kv.2 = true ∧ fits (field_of kv)) kvs →
  (length (WireFormat.enc_fields (field_of <$> kvs)) ≤ fuel)%nat →
  parseTcpRosHeader_loop fuel (WireFormat.enc_fields (field_of <$> kvs)) info
  = Ok (foldl (λ info kv, set_property kv.1 kv.2 info) info kvs).
Proof.
  induction kvs as [|kv kvs IH]; intros fuel info Hall Hfuel.
  - by destruct fuel.
  - apply Forall_cons in Hall as [(Hk & Hv & Hf) Hall].
    cbn [fmap list_fmap] in *. rewrite enc_fields_cons in *.
    rewrite length_app, enc_string_length in Hfuel.
    destruct fuel as [|fuel]; [lia|].
    rewrite parseTcpRosHeader_step.
    2:{ intros Hnil. apply app_eq_nil in Hnil as [Hnil _].
        by apply enc_string_nonempty in Hnil. }
    rewrite deserializeString_enc_string by done.
    cbn [mbind result_bind]. rewrite regex_match_field by done.
    destruct kv as [k v]. cbn [foldl fst snd]. apply IH; [done|lia].
Qed.
End RegexLemmas.

(** X10.  [parseTcpRosHeader] reads back the fields of a header block: for
    fields [key=value] written one behind the other, each behind its length,
    with every key a word and every value a non-empty ASCII text on one
    line, it returns the object that maps each key to its value, a later
    field overriding an earlier one of the same key.  A field whose key is
    [__proto__] leaves no property: the assignment goes to the accessor of
    [Object.prototype], which ignores a string. *)
Theorem X10_parseTcpRosHeader_reads_fields_back (kvs : list (string * string)) :
  Forall (λ kv, TcprosHeaders.word kv.1 = true ∧ TcprosHeaders.one_line kv.2 = true
                ∧ TcprosHeaders.ascii_text kv.2 = true
                ∧ TcprosHeaders.fits (TcprosHeaders.field_of kv)) kvs →
  TcprosUtils.parseTcpRosHeader (WireFormat.enc_fields (TcprosHeaders.field_of <$> kvs))
  = Ok (foldl (λ info kv, <[kv.1 := kv.2]> info) ∅
          (filter (λ kv, kv.1 ≠ "__proto__") kvs)).
Proof.
  intros Hall. unfold TcprosUtils.parseTcpRosHeader.
  rewrite <- set_properties_filter.
  apply parseTcpRosHeader_fields; [|done].
  eapply Forall_impl; [exact Hall|]. intros kv (? & ? & _ & ?). done.
Qed.

(** X10 at a header that names its caller twice and has a field
    [__proto__]. *)
Lemma X10_witness :
  TcprosUtils.parseTcpRosHeader
    (WireFormat.enc_fields ["callerid=/a"; "__proto__=x"; "topic=/chatter"; "callerid=/b"])
  = Ok (<["callerid" := "/b"]> (<["topic" := "/chatter"]> (<["callerid" := "/a"]> ∅))).
Proof.
  apply (X10_parseTcpRosHeader_reads_fields_back
           [("callerid", "/a"); ("__proto__", "x"); ("topic", "/chatter");
            ("callerid", "/b")]).
  repeat (apply Forall_cons; split;
          [split; [reflexivity|split; [reflexivity|split; [reflexivity|]]];
           unfold TcprosHeaders.fits; vm_compute; reflexivity|]).
  apply Forall_nil_2.
Defined.

(** X11.  A field without ['='] makes [parseTcpRosHeader] raise a
    ReferenceError: the branch for a field that does not match passes the
    undeclared [field] to [console.error] before it can return null. *)
Theorem X11_field_without_equals_raises (field : string) (rest : list Z) :
  TcprosHeaders.no_equals field = true → TcprosHeaders.fits field →
  TcprosUtils.parseTcpRosHeader (WireFormat.enc_string field ++ rest)
  = Throw (Js.ReferenceError "field is not defined").
Proof.
  intros Hne Hfit. unfold TcprosUtils.parseTcpRosHeader.
  rewrite length_app, enc_string_length.
  replace (TcprosUtils.strlen field + 4 + length rest)%nat
    with (S (TcprosUtils.strlen field + 3 + length rest)) by lia.
  rewrite parseTcpRosHeader_step.
  2:{ intros Hnil. apply app_eq_nil in Hnil as [Hnil _].
      by apply enc_string_nonempty in Hnil. }
  rewrite deserializeString_enc_string by done.
  cbn [mbind result_bind]. by rewrite regex_match_no_equals.
Qed.

(** X11 at a header whose second field is the bare word [latching]. *)
Lemma X11_witness :
  TcprosHeaders.no_equals "latching" = true ∧ TcprosHeaders.fits "latching"
  ∧ TcprosUtils.parseTcpRosHeader
      (WireFormat.enc_string "latching" ++ WireFormat.enc_string "callerid=/talker")
    = Throw (Js.ReferenceError "field is not defined").
Proof.
  assert (Hfit : TcprosHeaders.fits "latching")
    by (unfold TcprosHeaders.fits; vm_compute; reflexivity).
  split; [reflexivity|]. split; [exact Hfit|].
  exact (X11_field_without_equals_raises "latching" _ eq_refl Hfit).
Defined.

(** X12.  The handshake of a subscriber of this library passes the
    validation of a publisher of this library with the same topic, type and
    md5sum: the body of the header that [createSubHeader] writes (what follows
    the four bytes of the block length) is parsed by [parseTcpRosHeader] into
    a header that names the caller and for which [validateSubHeader] returns
    null.  The four texts are non-empty ASCII on one line. *)
Theorem X12_own_subscriber_header_is_accepted (callerId md5sum topic type : string) :
  let fields := ["callerid=" +:+ callerId; "md5sum=" +:+ md5sum;
                 "topic=" +:+ topic; "type=" +:+ type] in
  Forall (λ v, TcprosHeaders.one_line v = true ∧ TcprosHeaders.ascii_text v = true)
    [callerId; md5sum; topic; type] →
  Forall TcprosHeaders.fits fields →
  TcprosUtils.createSubHeader callerId md5sum topic type
  = Ok (Wire.received (Wire.u32le (Z.of_nat (length (WireFormat.enc_fields fields)))
                         ++ WireFormat.enc_fields fields))
  ∧ ∃ header,
      TcprosUtils.parseTcpRosHeader (WireFormat.enc_fields fields) = Ok header
      ∧ header !! "callerid" = Some callerId
      ∧ TcprosUtils.validateSubHeader header topic type md5sum = Ok None.
Proof.
  intros fields Hval Hfit.
  split; [apply serializeStringFields_spec|].
  apply Forall_cons in Hval as [[Hc _] Hval]. apply Forall_cons in Hval as [[Hm _] Hval].
  apply Forall_cons in Hval as [[Ht _] Hval]. apply Forall_cons in Hval as [[Hty _] _].
  apply Forall_cons in Hfit as [Hf1 Hfit]. apply Forall_cons in Hfit as [Hf2 Hfit].
  apply Forall_cons in Hfit as [Hf3 Hfit]. apply Forall_cons in Hfit as [Hf4 _].
  eexists. split.
  - unfold TcprosUtils.parseTcpRosHeader.
    apply (parseTcpRosHeader_fields
             [("callerid", callerId); ("md5sum", md5sum); ("topic", topic); ("type", type)]);
      [|done].
    repeat (apply Forall_cons; split; [split; [reflexivity|split; assumption]|]).
    apply Forall_nil_2.
  - cbn [foldl fst snd]. unfold TcprosUtils.set_property.
    rewrite !bool_decide_false by done. split; [by simplify_map_eq|].
    apply validateSubHeader_ok; [by simplify_map_eq|]. unfold TcprosUtils.turned_down.
    simplify_map_eq.
    intros [?|[?|[?|[(t & [= <-] & ?)|[(ty & [= <-] & ? & ?)|(m & [= <-] & ? & ?)]]]]];
      done.
Qed.

(** X12 at the handshake of a listener on [/chatter]. *)
Lemma X12_witness :
  ∃ header,
    TcprosUtils.parseTcpRosHeader
      (WireFormat.enc_fields
         ["callerid=/listener"; "md5sum=992ce8a1687cec8c8bd883ec73ca41d1";
          "topic=/chatter"; "type=std_msgs/String"]) = Ok header
    ∧ header !! "callerid" = Some "/listener"
    ∧ TcprosUtils.validateSubHeader header "/chatter" "std_msgs/String"
        "992ce8a1687cec8c8bd883ec73ca41d1" = Ok None.
Proof.
  apply (X12_own_subscriber_header_is_accepted "/listener"
           "992ce8a1687cec8c8bd883ec73ca41d1" "/chatter" "std_msgs/String").
  - repeat (apply Forall_cons; split; [split; reflexivity|]). apply Forall_nil_2.
  - repeat (apply Forall_cons; split;
            [unfold TcprosHeaders.fits; vm_compute; reflexivity|]).
    apply Forall_nil_2.
Defined.

(** X13.  [parseSubHeader] reads back what [createSubHeader] writes: from
    the body of the header (what follows the four bytes of the block length)
    it returns the caller under [callerId], the md5sum, the topic and the
    type, for any four ASCII texts. *)
Theorem X13_sub_header_reads_back (callerId md5sum topic type : string) :
  let fields := ["callerid=" +:+ callerId; "md5sum=" +:+ md5sum;
                 "topic=" +:+ topic; "type=" +:+ type] in
  Forall (λ v, TcprosHeaders.ascii_text v = true) [callerId; md5sum; topic; type] →
  Forall TcprosHeaders.fits fields →
  TcprosUtils.createSubHeader callerId md5sum topic type
  = Ok (Wire.received (Wire.u32le (Z.of_nat (length (WireFormat.enc_fields fields)))
                         ++ WireFormat.enc_fields fields))
  ∧ TcprosHeaders.parseSubHeader (WireFormat.enc_fields fields)
    = Ok (<["type" := type]> (<["topic" := topic]> (<["md5sum" := md5sum]>
            (<["callerId" := callerId]> ∅)))).
Proof.
  intros fields _ Hfit. split; [apply serializeStringFields_spec|].
  unfold TcprosHeaders.parseSubHeader.
  rewrite parseSubHeader_by_prefix, parse_by_prefix_fields by done.
  unfold fields, TcprosUtils.md5Prefix, TcprosUtils.topicPrefix,
    TcprosUtils.callerIdPrefix, TcprosUtils.typePrefix.
  cbn [foldl]. f_equal.
  rewrite !(store_field_next "md5sum=" _ _ ("callerid=" +:+ _)) by reflexivity.
  rewrite !(store_field_next "topic=" _ _ ("callerid=" +:+ _)) by reflexivity.
  rewrite (store_field_here "callerid=").
  rewrite (store_field_here "md5sum=").
  rewrite !(store_field_next "md5sum=" _ _ ("topic=" +:+ _)) by reflexivity.
  rewrite (store_field_here "topic=").
  rewrite !(store_field_next "md5sum=" _ _ ("type=" +:+ _)) by reflexivity.
  rewrite !(store_field_next "topic=" _ _ ("type=" +:+ _)) by reflexivity.
  rewrite !(store_field_next "callerid=" _ _ ("type=" +:+ _)) by reflexivity.
  by rewrite (store_field_here "type=").
Qed.

(** X13 at the handshake of a listener on [/chatter]. *)
Lemma X13_witness :
  TcprosHeaders.parseSubHeader
    (WireFormat.enc_fields
       ["callerid=/listener"; "md5sum=992ce8a1687cec8c8bd883ec73ca41d1";
        "topic=/chatter"; "type=std_msgs/String"])
  = Ok (<["type" := "std_msgs/String"]> (<["topic" := "/chatter"]>
          (<["md5sum" := "992ce8a1687cec8c8bd883ec73ca41d1"]>
             (<["callerId" := "/listener"]> ∅)))).
Proof.
  apply (X13_sub_header_reads_back "/listener" "992ce8a1687cec8c8bd883ec73ca41d1"
           "/chatter" "std_msgs/String").
  - repeat (apply Forall_cons; split; [reflexivity|]). apply Forall_nil_2.
  - repeat (apply Forall_cons; split;
            [unfold TcprosHeaders.fits; vm_compute; reflexivity|]).
    apply Forall_nil_2.
Defined.

(** X14.  [parsePubHeader] reads back what [createPubHeader] writes: the
    caller under [callerId], the md5sum, the type, and the latching flag as
    the text [true] or [false]. *)
Theorem X14_pub_header_reads_back (callerId md5sum type : string) (latching : bool) :
  let fields := ["callerid=" +:+ callerId; "md5sum=" +:+ md5sum; "type=" +:+ type;
                 "latching=" +:+ (if latching then "true" else "false")] in
  Forall (λ v, TcprosHeaders.ascii_text v = true) [callerId; md5sum; type] →
  Forall TcprosHeaders.fits fields →
  TcprosUtils.createPubHeader callerId md5sum type latching
  = Ok (Wire.received (Wire.u32le (Z.of_nat (length (WireFormat.enc_fields fields)))
                         ++ WireFormat.enc_fields fields))
  ∧ TcprosUtils.parsePubHeader (WireFormat.enc_fields fields)
    = Ok (<["latching" := if latching then "true" else "false"]>
            (<["type" := type]> (<["md5sum" := md5sum]>
               (<["callerId" := callerId]> ∅)))).
Proof.
  intros fields _ Hfit. split.
  { unfold TcprosUtils.createPubHeader. rewrite serializeStringFields_spec.
    by destruct latching. }
  unfold TcprosUtils.parsePubHeader.
  rewrite parsePubHeader_by_prefix, parse_by_prefix_fields by done.
  unfold fields, TcprosUtils.md5Prefix, TcprosUtils.latchingPrefix,
    TcprosUtils.callerIdPrefix, TcprosUtils.typePrefix.
  cbn [foldl]. f_equal.
  rewrite !(store_field_next "md5sum=" _ _ ("callerid=" +:+ _)) by reflexivity.
  rewrite !(store_field_next "latching=" _ _ ("callerid=" +:+ _)) by reflexivity.
  rewrite (store_field_here "callerid=").
  rewrite (store_field_here "md5sum=").
  rewrite !(store_field_next "md5sum=" _ _ ("type=" +:+ _)) by reflexivity.
  rewrite !(store_field_next "latching=" _ _ ("type=" +:+ _)) by reflexivity.
  rewrite !(store_field_next "callerid=" _ _ ("type=" +:+ _)) by reflexivity.
  rewrite (store_field_here "type=").
  rewrite !(store_field_next "md5sum=" _ _ ("latching=" +:+ _)) by reflexivity.
  by rewrite (store_field_here "latching=").
Qed.

(** X14 at the response of a latching talker. *)
Lemma X14_witness :
  TcprosUtils.parsePubHeader
    (WireFormat.enc_fields
       ["callerid=/talker"; "md5sum=992ce8a1687cec8c8bd883ec73ca41d1";
        "type=std_msgs/String"; "latching=true"])
  = Ok (<["latching" := "true"]> (<["type" := "std_msgs/String"]>
          (<["md5sum" := "992ce8a1687cec8c8bd883ec73ca41d1"]>
             (<["callerId" := "/talker"]> ∅)))).
Proof.
  apply (X14_pub_header_reads_back "/talker" "992ce8a1687cec8c8bd883ec73ca41d1"
           "std_msgs/String" true).
  - repeat (apply Forall_cons; split; [reflexivity|]). apply Forall_nil_2.
  - repeat (apply Forall_cons; split;
            [unfold TcprosHeaders.fits; vm_compute; reflexivity|]).
    apply Forall_nil_2.
Defined.

(** X15.  The header of a service client never carries the type: whatever
    is passed for [type] and [persistent], [parseServiceClientHeader] reads
    from the body of what [createServiceClientHeader] writes the caller, the
    service and the md5sum, and neither a type nor the persistent flag. *)
Theorem X15_service_client_header_reads_back
    (callerId service md5sum type : string) (persistent : bool) :
  let fields := ["callerid=" +:+ callerId; "service=" +:+ service;
                 "md5sum=" +:+ md5sum]
                ++ (if persistent then ["persistent=1"] else []) in
  Forall (λ v, TcprosHeaders.ascii_text v = true) [callerId; service; md5sum] →
  Forall TcprosHeaders.fits fields →
  TcprosHeaders.createServiceClientHeader callerId service md5sum type persistent
  = Ok (Wire.received (Wire.u32le (Z.of_nat (length (WireFormat.enc_fields fields)))
                         ++ WireFormat.enc_fields fields))
  ∧ ∃ info,
      TcprosHeaders.parseServiceClientHeader (WireFormat.enc_fields fields) = Ok info
      ∧ info = <["md5sum" := md5sum]> (<["service" := service]>
                 (<["callerId" := callerId]> ∅))
      ∧ info !! "type" = None ∧ info !! "persistent" = None.
Proof.
  intros fields _ Hfit. split.
  { unfold TcprosHeaders.createServiceClientHeader. cbv zeta. subst fields.
    destruct persistent; apply serializeStringFields_spec. }
  eexists. split; [|split; [reflexivity|by simplify_map_eq]].
  unfold TcprosHeaders.parseServiceClientHeader.
  rewrite parseServiceClientHeader_by_prefix, parse_by_prefix_fields by done.
  unfold fields, TcprosUtils.md5Prefix, TcprosUtils.servicePrefix,
    TcprosUtils.callerIdPrefix, TcprosUtils.typePrefix.
  rewrite foldl_app. cbn [foldl app]. f_equal.
  rewrite !(store_field_next "md5sum=" _ _ ("callerid=" +:+ _)) by reflexivity.
  rewrite !(store_field_next "service=" _ _ ("callerid=" +:+ _)) by reflexivity.
  rewrite (store_field_here "callerid=").
  rewrite !(store_field_next "md5sum=" _ _ ("service=" +:+ _)) by reflexivity.
  rewrite (store_field_here "service=").
  rewrite (store_field_here "md5sum=").
  by destruct persistent.
Qed.

(** X15 at a persistent client of [/add_two_ints]. *)
Lemma X15_witness :
  ∃ info,
    TcprosHeaders.parseServiceClientHeader
      (WireFormat.enc_fields
         (["callerid=/client"; "service=/add_two_ints";
           "md5sum=6a2e34150c00229791cc89ff309fff21"] ++ ["persistent=1"])) = Ok info
    ∧ info = <["md5sum" := "6a2e34150c00229791cc89ff309fff21"]>
               (<["service" := "/add_two_ints"]> (<["callerId" := "/client"]> ∅))
    ∧ info !! "type" = None ∧ info !! "persistent" = None.
Proof.
  apply (X15_service_client_header_reads_back "/client" "/add_two_ints"
           "6a2e34150c00229791cc89ff309fff21" "rospy_tutorials/AddTwoInts" true).
  - repeat (apply Forall_cons; split; [reflexivity|]). apply Forall_nil_2.
  - repeat (apply Forall_cons; split;
            [unfold TcprosHeaders.fits; vm_compute; reflexivity|]).
    apply Forall_nil_2.
Defined.

(** X16.  [parseServiceServerHeader] reads back what
    [createServiceServerHeader] writes: the caller under [callerId], the
    md5sum and the type. *)
Theorem X16_service_server_header_reads_back (callerId md5sum type : string) :
  let fields := ["callerid=" +:+ callerId; "md5sum=" +:+ md5sum; "type=" +:+ type] in
  Forall (λ v, TcprosHeaders.ascii_text v = true) [callerId; md5sum; type] →
  Forall TcprosHeaders.fits fields →
  TcprosHeaders.createServiceServerHeader callerId md5sum type
  = Ok (Wire.received (Wire.u32le (Z.of_nat (length (WireFormat.enc_fields fields)))
                         ++ WireFormat.enc_fields fields))
  ∧ TcprosHeaders.parseServiceServerHeader (WireFormat.enc_fields fields)
    = Ok (<["type" := type]> (<["md5sum" := md5sum]> (<["callerId" := callerId]> ∅))).
Proof.
  intros fields _ Hfit. split; [apply serializeStringFields_spec|].
  unfold TcprosHeaders.parseServiceServerHeader.
  rewrite parseServiceServerHeader_by_prefix, parse_by_prefix_fields by done.
  unfold fields, TcprosUtils.md5Prefix, TcprosUtils.callerIdPrefix, TcprosUtils.typePrefix.
  cbn [foldl]. f_equal.
  rewrite !(store_field_next "md5sum=" _ _ ("callerid=" +:+ _)) by reflexivity.
  rewrite (store_field_here "callerid=").
  rewrite (store_field_here "md5sum=").
  rewrite !(store_field_next "md5sum=" _ _ ("type=" +:+ _)) by reflexivity.
  rewrite !(store_field_next "callerid=" _ _ ("type=" +:+ _)) by reflexivity.
  by rewrite (store_field_here "type=").
Qed.

(** X16 at the response of the server of [/add_two_ints]. *)
Lemma X16_witness :
  TcprosHeaders.parseServiceServerHeader
    (WireFormat.enc_fields
       ["callerid=/server"; "md5sum=6a2e34150c00229791cc89ff309fff21";
        "type=rospy_tutorials/AddTwoInts"])
  = Ok (<["type" := "rospy_tutorials/AddTwoInts"]>
          (<["md5sum" := "6a2e34150c00229791cc89ff309fff21"]>
             (<["callerId" := "/server"]> ∅))).
Proof.
  apply (X16_service_server_header_reads_back "/server"
           "6a2e34150c00229791cc89ff309fff21" "rospy_tutorials/AddTwoInts").
  - repeat (apply Forall_cons; split; [reflexivity|]). apply Forall_nil_2.
  - repeat (apply Forall_cons; split;
            [unfold TcprosHeaders.fits; vm_compute; reflexivity|]).
    apply Forall_nil_2.
Defined.

(** ** Framing of messages *)

Lemma StringMsg_well_behaved : Wire.well_behaved Wire.StringMsg WireFormat.enc_string.
Proof.
  split; [intros m; reflexivity|].
  intros m buf off. simpl. unfold Wire.string_. cbv zeta.
  change (Wire.u32le (Z.of_nat (length (Wire.bytes_of_string m)))
            ++ Wire.bytes_of_string m) with (WireFormat.enc_string m).
  destruct (Wire.write_at (WireFormat.enc_string m) buf off); [|done].
  do 2 f_equal. lia.
Qed.

(** X17.  For a message class that keeps the typed-message contract ([wire]
    being what it serializes), [serializeMessage] returns the four
    little-endian bytes of the length of the serialized message followed by
    the serialized message, and the serialized message alone when no length is
    asked for; every byte of the buffer is written. *)
Theorem X17_serializeMessage_frames
    {Msg : Type} (C : Wire.MessageClass Msg) (wire : Msg → list Z) (message : Msg) :
  Wire.well_behaved C wire →
  TcprosUtils.serializeMessage C message true
  = Ok (Wire.received (Wire.u32le (Z.of_nat (length (wire message))) ++ wire message))
  ∧ TcprosUtils.serializeMessage C message false = Ok (Wire.received (wire message)).
Proof.
  intros [Hsize Hser]. unfold TcprosUtils.serializeMessage.
  rewrite Hsize. cbn [mbind result_bind]. split.
  - rewrite uint32_new by lia. cbn [mbind result_bind]. rewrite Hser.
    pose proof (write_at_fill (Wire.u32le (Z.of_nat (length (wire message))))
                  (wire message) (length (wire message) + 4 - 4)) as Hw.
    rewrite u32le_length in Hw. rewrite Hw by lia.
    cbn [mbind result_bind mret result_ret].
    replace (length (wire message) + 4 - 4 - length (wire message))%nat with 0%nat by lia.
    simpl replicate. by rewrite app_nil_r.
  - rewrite Hser.
    pose proof (write_at_fill [] (wire message) (length (wire message))) as Hw.
    cbn [Wire.received fmap list_fmap app length] in Hw.
    unfold Wire.Buffer_new. rewrite Hw by lia.
    cbn [mbind result_bind mret result_ret].
    rewrite Nat.sub_diag. simpl replicate. by rewrite app_nil_r.
Qed.

(** X17 at the message "hi" of [std_msgs/String]. *)
Lemma X17_witness :
  Wire.well_behaved Wire.StringMsg WireFormat.enc_string
  ∧ TcprosUtils.serializeMessage Wire.StringMsg "hi" true
    = Ok (Wire.received [6; 0; 0; 0; 2; 0; 0; 0; 104; 105]).
Proof.
  split; [exact StringMsg_well_behaved|].
  exact (proj1 (X17_serializeMessage_frames Wire.StringMsg WireFormat.enc_string "hi"
                  StringMsg_well_behaved)).
Defined.

(** ** A batch of the publisher *)

Section PublisherBatch.
Import Wire.
Context {Msg : Type}.
Implicit Types (p : Publisher.Publisher Msg) (msgs : list Msg).

Lemma publishOne_cases (m : Msg) p :
  Publisher.publishOne m p
  = (match Publisher.serialized p m with
     | Ok bytes => if Publisher._latching p
                   then Publisher.set_lastSentMsg (Some bytes) p else p
     | Throw _ => p
     end, PublisherLife.calls_for p m, Ok tt).
Proof.
  unfold Publisher.publishOne, PublisherLife.calls_for, mbind at 1, eff_bind.
  unfold Js.bind at 1. cbn [Js.get].
  destruct (Publisher.serialized p m) as [bytes|e]; [|reflexivity].
  unfold mbind, eff_bind, Js.bind. rewrite forEach_emits.
  destruct (Publisher._latching p); cbn; by rewrite app_nil_r.
Qed.

Lemma handleMsgQueue_cases msgs : ∀ p,
  Publisher._handleMsgQueue msgs p
  = (if Publisher._latching p
     then Publisher.set_lastSentMsg
            (PublisherLife.last_serialized p (Publisher._lastSentMsg p) msgs) p
     else p,
     concat (PublisherLife.calls_for p <$> msgs), Ok tt).
Proof.
  unfold Publisher._handleMsgQueue.
  induction msgs as [|m msgs IH]; intros p.
  - cbn. destruct (Publisher._latching p); [|reflexivity]. by rewrite set_lastSentMsg_id.
  - cbn [Js.forEach]. unfold Js.bind. rewrite publishOne_cases, IH.
    cbn [fmap list_fmap concat PublisherLife.last_serialized foldl].
    destruct (Publisher.serialized p m) as [bytes|e] eqn:Hs;
      destruct (Publisher._latching p) eqn:Hl; cbn [Publisher._latching Publisher.set_lastSentMsg];
      rewrite ?Hl; reflexivity.
Qed.
End PublisherBatch.

(** X18.  [_handleMsgQueue] never throws and goes through the whole batch:
    each message that serializes is written once to every connected
    subscriber, in the order they connected, and a message whose resolution
    or serialization throws costs one entry in the error log and nothing
    else; the subscriber table stays as it was. *)
Theorem X18_batch_is_written_to_every_subscriber
    {Msg : Type} (p : Publisher.Publisher Msg) (msgs : list Msg) :
  let r := Publisher._handleMsgQueue msgs p in
  Js.result r = Ok tt
  ∧ Js.out r
    = concat ((λ msg,
                 match Publisher.serialized p msg with
                 | Ok bytes => (λ kv : string * Socket, Publisher.SocketWrite kv.2 bytes)
                                 <$> Publisher._subClients p
                 | Throw _ => [Publisher.LogError
                                 ("Error when publishing message on topic "
                                    +:+ Publisher._topic p)]
                 end) <$> msgs)
  ∧ Publisher._subClients (Js.state r) = Publisher._subClients p.
Proof.
  intros r. subst r. rewrite handleMsgQueue_cases.
  unfold Js.result, Js.out, Js.state. cbn [fst snd].
  split; [reflexivity|]. split; [reflexivity|].
  by destruct (Publisher._latching p).
Qed.

(** X19.  What a publisher latches: after a batch a latching publisher
    holds the bytes of the last message of the batch that serialized, and
    what it held before when none did; a publisher that is not latching
    never stores a message. *)
Theorem X19_latched_message_is_the_last_that_serialized
    {Msg : Type} (p : Publisher.Publisher Msg) (msgs : list Msg) :
  Publisher._lastSentMsg (Js.state (Publisher._handleMsgQueue msgs p))
  = if Publisher._latching p
    then foldl (λ last msg, match Publisher.serialized p msg with
                            | Ok bytes => Some bytes
                            | Throw _ => last
                            end) (Publisher._lastSentMsg p) msgs
    else Publisher._lastSentMsg p.
Proof.
  rewrite handleMsgQueue_cases. unfold Js.state. cbn [fst].
  by destruct (Publisher._latching p).
Qed.

(** ** The subscriber table of a publisher *)

Section PublisherLifeLemmas.
Import Wire.
Context {Msg : Type} (Serialize : Buffer → Buffer).
Implicit Types (p : Publisher.Publisher Msg) (subscriber : Socket)
               (m : list (string * Socket)).

Lemma Map_set_Forall {V} (P : string * V → Prop) k (v : V) (l : list (string * V)) :
  P (k, v) → Forall P l → Forall P (Js.Map_set k v l).
Proof.
  intros Hkv. induction 1 as [|[k0 v0] l H0 Hl IH]; simpl.
  - by apply Forall_singleton.
  - destruct (decide (k0 = k)) as [->|Hne]; apply Forall_cons; auto.
Qed.

Lemma Map_delete_Forall {V} (P : string * V → Prop) k (l : list (string * V)) :
  Forall P l → Forall P (Js.Map_delete k l).
Proof.
  intros Hall. apply Forall_forall. intros kv [_ Hin]%list_elem_of_filter.
  by eapply Forall_forall in Hall.
Qed.

Lemma publish_spec (msg : Msg) throttleMs p :
  Publisher.publish msg throttleMs p
  = if bool_decide (default (Publisher._throttleMs p) throttleMs < 0)
    then Publisher._handleMsgQueue [msg] p
    else (p, [Publisher.SpinnerPing (Publisher._getSpinnerId p) msg], Ok tt).
Proof.
  unfold Publisher.publish, mbind, eff_bind, Js.bind. cbn [Js.get].
  case_bool_decide; [|reflexivity].
  by destruct (Publisher._handleMsgQueue [msg] p) as [[p1 o1] r1].
Qed.

(** What a step leaves of the publisher: the table may change on a
    connection or a close, the latched message on a batch, nothing else. *)
Lemma exec_frame (op : PublisherLife.Op Msg) p :
  let p' := Js.state (PublisherLife.exec Serialize op p) in
  Publisher._topic p' = Publisher._topic p
  ∧ Publisher._type p' = Publisher._type p
  ∧ Publisher._latching p' = Publisher._latching p
  ∧ Publisher._messageHandler p' = Publisher._messageHandler p
  ∧ Publisher.nodeName p' = Publisher.nodeName p
  ∧ (Publisher._latching p = false → Publisher._lastSentMsg p' = Publisher._lastSentMsg p)
  ∧ (PublisherLife.keyed p → PublisherLife.keyed p').
Proof.
  assert (Hsame : Publisher._topic p = Publisher._topic p
    ∧ Publisher._type p = Publisher._type p
    ∧ Publisher._latching p = Publisher._latching p
    ∧ Publisher._messageHandler p = Publisher._messageHandler p
    ∧ Publisher.nodeName p = Publisher.nodeName p
    ∧ (Publisher._latching p = false → Publisher._lastSentMsg p = Publisher._lastSentMsg p)
    ∧ (PublisherLife.keyed p → PublisherLife.keyed p)) by tauto.
  assert (Hbatch : ∀ msgs,
    let p' := Js.state (Publisher._handleMsgQueue msgs p) in
    Publisher._topic p' = Publisher._topic p
    ∧ Publisher._type p' = Publisher._type p
    ∧ Publisher._latching p' = Publisher._latching p
    ∧ Publisher._messageHandler p' = Publisher._messageHandler p
    ∧ Publisher.nodeName p' = Publisher.nodeName p
    ∧ (Publisher._latching p = false → Publisher._lastSentMsg p' = Publisher._lastSentMsg p)
    ∧ (PublisherLife.keyed p → PublisherLife.keyed p')).
  { intros msgs. cbv zeta. rewrite handleMsgQueue_cases. unfold Js.state. cbn [fst].
    generalize (PublisherLife.last_serialized p (Publisher._lastSentMsg p) msgs).
    intros last'. clear Hsame.
    destruct p as [t ty [|] nd qs th rs last subs mh nn];
      cbn [Publisher._latching Publisher.set_lastSentMsg Publisher._topic
           Publisher._type Publisher._messageHandler Publisher.nodeName
           Publisher._lastSentMsg];
      do 5 (split; [reflexivity|]); (split; [done|]); intros Hk; exact Hk. }
  destruct op as [msgs|msg thr|subscriber header|subscriber];
    cbn [PublisherLife.exec]; cbv zeta.
  - apply Hbatch.
  - rewrite publish_spec. case_bool_decide; [apply Hbatch|exact Hsame].
  - destruct (TcprosUtils.validateSubHeader header (Publisher._topic p) (Publisher._type p)
                (md5sum (Publisher._messageHandler p))) as [[error|]|e] eqn:Hv.
    + rewrite (handleSubscriberConnection_error _ _ _ _ error) by done. exact Hsame.
    + rewrite handleSubscriberConnection_ok by done.
      unfold Js.state. cbn [fst]. do 6 (split; [reflexivity|]).
      intros [Hnd Hall]. split; [by apply Map_set_NoDup|by apply Map_set_Forall].
    + assert (Publisher.handleSubscriberConnection Serialize subscriber header p
              = (p, [], Throw e)) as ->; [|exact Hsame].
      unfold Publisher.handleSubscriberConnection, mbind, eff_bind.
      unfold Js.bind at 1. cbn [Js.get]. unfold Js.bind at 1. by rewrite Hv.
  - unfold Js.state. cbn. do 6 (split; [reflexivity|]).
    intros [Hnd Hall]. split; [by apply Map_delete_NoDup|by apply Map_delete_Forall].
Qed.

Lemma run_frame (ops : list (PublisherLife.Op Msg)) : ∀ p,
  let p' := PublisherLife.run Serialize ops p in
  Publisher._topic p' = Publisher._topic p
  ∧ Publisher._type p' = Publisher._type p
  ∧ Publisher._latching p' = Publisher._latching p
  ∧ Publisher._messageHandler p' = Publisher._messageHandler p
  ∧ Publisher.nodeName p' = Publisher.nodeName p
  ∧ (Publisher._latching p = false → Publisher._lastSentMsg p' = Publisher._lastSentMsg p)
  ∧ (PublisherLife.keyed p → PublisherLife.keyed p').
Proof.
  unfold PublisherLife.run. induction ops as [|op ops IH]; intros p; cbv zeta.
  - cbn [foldl]. tauto.
  - cbn [foldl].
    destruct (exec_frame op p) as (H1 & H2 & H3 & H4 & H5 & H6 & H7).
    destruct (IH (Js.state (PublisherLife.exec Serialize op p)))
      as (I1 & I2 & I3 & I4 & I5 & I6 & I7).
    rewrite I1, I2, I3, I4, I5. do 5 (split; [assumption|]). split.
    + intros Hl. rewrite I6 by (by rewrite H3). by apply H6.
    + intros Hk. by apply I7, H7.
Qed.

(** A subscriber whose name is not in the table is written nothing. *)
Lemma writes_to_absent subscriber (bytes : Buffer) m :
  Forall (λ kv : string * Socket, kv.1 = name kv.2) m →
  name subscriber ∉ m.*1 →
  Publisher.writes_to (Msg:=Msg) subscriber
    ((λ kv : string * Socket, Publisher.SocketWrite kv.2 bytes) <$> m)
  = [].
Proof.
  unfold Publisher.writes_to.
  induction 1 as [|[k s] m Hk Hall IH]; intros Hnotin; [reflexivity|].
  cbn [fst snd] in Hk. rewrite fmap_cons in Hnotin. cbn [fst] in Hnotin.
  apply not_elem_of_cons in Hnotin as [Hne Hnotin].
  cbn [fmap list_fmap omap list_omap snd]. rewrite bool_decide_false.
  - by apply IH.
  - intros ->. by apply Hne.
Qed.

(** The writes one message brings to a subscriber that stands in the table
    under its own name: exactly one. *)
Lemma writes_to_member subscriber (bytes : Buffer) m :
  NoDup m.*1 → Forall (λ kv : string * Socket, kv.1 = name kv.2) m →
  Publisher.writes_to (Msg:=Msg) subscriber
    ((λ kv : string * Socket, Publisher.SocketWrite kv.2 bytes)
       <$> Js.Map_set (name subscriber) subscriber m)
  = [bytes].
Proof.
  induction m as [|[k s] m IH]; intros Hnd Hall.
  - unfold Publisher.writes_to. cbn. by rewrite bool_decide_true.
  - rewrite fmap_cons in Hnd. cbn [fst] in Hnd.
    apply NoDup_cons in Hnd as [Hnotin Hnd]. apply Forall_cons in Hall as [Hk Hall].
    cbn [fst snd] in Hk. cbn [Js.Map_set].
    destruct (decide (k = name subscriber)) as [Heq|Hne].
    + rewrite fmap_cons. cbn [snd].
      change (Publisher.SocketWrite subscriber bytes :: ?l)
        with ([Publisher.SocketWrite (Msg:=Msg) subscriber bytes] ++ l).
      unfold Publisher.writes_to at 1. rewrite omap_app.
      fold (Publisher.writes_to (Msg:=Msg) subscriber
              ((λ kv : string * Socket, Publisher.SocketWrite kv.2 bytes) <$> m)).
      rewrite writes_to_absent by (rewrite <- ?Heq; done).
      cbn. by rewrite bool_decide_true.
    + rewrite fmap_cons. cbn [snd].
      change (Publisher.SocketWrite s bytes :: ?l)
        with ([Publisher.SocketWrite (Msg:=Msg) s bytes] ++ l).
      unfold Publisher.writes_to at 1. rewrite omap_app.
      fold (Publisher.writes_to (Msg:=Msg) subscriber
              ((λ kv : string * Socket, Publisher.SocketWrite kv.2 bytes)
                 <$> Js.Map_set (name subscriber) subscriber m)).
      rewrite IH by done. cbn. rewrite bool_decide_false; [reflexivity|].
      intros ->. by apply Hne.
Qed.

(** After its name has been deleted from the table a subscriber is written
    nothing. *)
Lemma writes_to_stranger subscriber (bytes : Buffer) m :
  Forall (λ kv : string * Socket, kv.1 = name kv.2) m →
  Publisher.writes_to (Msg:=Msg) subscriber
    ((λ kv : string * Socket, Publisher.SocketWrite kv.2 bytes)
       <$> Js.Map_delete (name subscriber) m)
  = [].
Proof.
  intros Hall. apply writes_to_absent; [by apply Map_delete_Forall|].
  intros [[k s] [Hk [Hne _]%list_elem_of_filter]]%list_elem_of_fmap.
  cbn [fst] in *. by apply Hne.
Qed.

Lemma writes_to_app subscriber (o1 o2 : list (Publisher.Effect Msg)) :
  Publisher.writes_to subscriber (o1 ++ o2)
  = Publisher.writes_to subscriber o1 ++ Publisher.writes_to subscriber o2.
Proof. apply omap_app. Qed.
End PublisherLifeLemmas.

Section PublisherLifeTheorems.
Import Wire.
Context {Msg : Type} (Serialize : Buffer → Buffer).
Implicit Types (p : Publisher.Publisher Msg) (subscriber : Socket).

Lemma keyed_new (options : PublisherLife.Options Msg) nodeName :
  PublisherLife.keyed (PublisherLife.Publisher_new options nodeName).
Proof. split; [apply NoDup_nil_2|apply Forall_nil_2]. Qed.

Lemma writes_to_batch subscriber p (msgs : list Msg) (sent : list Buffer)
    (one : Buffer → list Buffer) :
  Forall2 (λ msg bytes, Publisher.serialized p msg = Ok bytes) msgs sent →
  (∀ bytes, Publisher.writes_to (Msg:=Msg) subscriber
              ((λ kv : string * Socket, Publisher.SocketWrite kv.2 bytes)
                 <$> Publisher._subClients p) = one bytes) →
  Publisher.writes_to subscriber (concat (PublisherLife.calls_for p <$> msgs))
  = concat (one <$> sent).
Proof.
  intros Hsent Hone. induction Hsent as [|msg bytes msgs sent Hs _ IH]; [reflexivity|].
  cbn [fmap list_fmap concat]. rewrite writes_to_app, IH. f_equal.
  unfold PublisherLife.calls_for. rewrite Hs. apply Hone.
Qed.

Lemma concat_singletons {A} (l : list A) : concat ((λ x, [x]) <$> l) = l.
Proof. induction l as [|x l IH]; [reflexivity|]. cbn. by rewrite IH. Qed.

Lemma concat_nils {A B} (l : list A) : concat ((λ _, @nil B) <$> l) = [].
Proof. induction l as [|x l IH]; [reflexivity|]. exact IH. Qed.
End PublisherLifeTheorems.

(** X20.  A publisher constructed without latching never stores a message,
    whatever batches, publications, connections and closes it goes through;
    a subscriber whose header validates is then written the response header
    and nothing behind it. *)
Theorem X20_without_latching_a_new_subscriber_gets_the_header_only
    {Msg : Type} (Serialize : Wire.Buffer → Wire.Buffer)
    (options : PublisherLife.Options Msg) (nodeName : string)
    (ops : list (PublisherLife.Op Msg)) (subscriber : Socket)
    (header : gmap string string) :
  PublisherLife.latching options = false →
  TcprosUtils.validateSubHeader header (PublisherLife.topic options)
    (PublisherLife.type options) (Wire.md5sum (PublisherLife.typeClass options))
  = Ok None →
  let p := PublisherLife.run Serialize ops (PublisherLife.Publisher_new options nodeName) in
  Publisher._lastSentMsg p = None
  ∧ Publisher.writes_to subscriber
      (Js.out (Publisher.handleSubscriberConnection Serialize subscriber header p))
    = [Wire.received (WireFormat.enc_header
         ["callerid=" +:+ nodeName;
          "md5sum=" +:+ Wire.md5sum (PublisherLife.typeClass options);
          "type=" +:+ PublisherLife.type options; "latching=false"])].
Proof.
  intros Hl Hv p.
  destruct (run_frame Serialize ops (PublisherLife.Publisher_new options nodeName))
    as (H1 & H2 & H3 & H4 & H5 & H6 & _).
  fold p in H1, H2, H3, H4, H5, H6.
  cbn [PublisherLife.Publisher_new Publisher._topic Publisher._type Publisher._latching
       Publisher._messageHandler Publisher.nodeName Publisher._lastSentMsg] in *.
  assert (Hlast : Publisher._lastSentMsg p = None) by (by apply H6).
  split; [exact Hlast|].
  rewrite handleSubscriberConnection_ok by (by rewrite H1, H2, H4).
  unfold Js.out. cbn [fst snd]. rewrite writes_to_accepted, Hlast.
  by rewrite H5, H4, H2, H3, Hl.
Qed.

(** X20 at a talker that has published twice before the listener connects. *)
Lemma X20_witness :
  let options := PublisherLife.mkOptions "/chatter" "std_msgs/String" false false
                   None (Some (-1)) false Wire.StringMsg in
  let header : gmap string string :=
    {[ "callerid" := "/listener"; "topic" := "/chatter";
       "type" := "std_msgs/String";
       "md5sum" := "992ce8a1687cec8c8bd883ec73ca41d1" ]} in
  let p := PublisherLife.run (λ b, b)
             [PublisherLife.Publish "A" None; PublisherLife.Publish "B" None]
             (PublisherLife.Publisher_new options "/talker") in
  PublisherLife.latching options = false
  ∧ Publisher.writes_to (mkSocket "127.0.0.1:40000" 1)
      (Js.out (Publisher.handleSubscriberConnection (λ b, b)
                 (mkSocket "127.0.0.1:40000" 1) header p))
    = [Wire.received (WireFormat.enc_header
         ["callerid=/talker"; "md5sum=992ce8a1687cec8c8bd883ec73ca41d1";
          "type=std_msgs/String"; "latching=false"])].
Proof.
  split; [reflexivity|].
  refine (proj2 (X20_without_latching_a_new_subscriber_gets_the_header_only (λ b, b)
            (PublisherLife.mkOptions "/chatter" "std_msgs/String" false false
               None (Some (-1)) false Wire.StringMsg) "/talker"
            [PublisherLife.Publish "A" None; PublisherLife.Publish "B" None]
            (mkSocket "127.0.0.1:40000" 1)
            {[ "callerid" := "/listener"; "topic" := "/chatter";
               "type" := "std_msgs/String";
               "md5sum" := "992ce8a1687cec8c8bd883ec73ca41d1" ]} eq_refl _)).
  vm_compute. reflexivity.
Defined.

(** X21.  On a publisher that was constructed and went through any history,
    a subscriber whose header validates is written every message of a later
    batch exactly once, in the order of the batch (the messages being ones
    that serialize); once the ['close'] handler of its socket has run it is
    written nothing. *)
Theorem X21_subscriber_gets_each_message_once_until_it_closes
    {Msg : Type} (Serialize : Wire.Buffer → Wire.Buffer)
    (options : PublisherLife.Options Msg) (nodeName : string)
    (ops : list (PublisherLife.Op Msg)) (subscriber : Socket)
    (header : gmap string string) (msgs : list Msg) (sent : list Wire.Buffer) :
  let p := PublisherLife.run Serialize ops (PublisherLife.Publisher_new options nodeName) in
  TcprosUtils.validateSubHeader header (PublisherLife.topic options)
    (PublisherLife.type options) (Wire.md5sum (PublisherLife.typeClass options))
  = Ok None →
  Forall2 (λ msg bytes, Publisher.serialized p msg = Ok bytes) msgs sent →
  let p1 := Js.state (Publisher.handleSubscriberConnection Serialize subscriber header p) in
  Publisher.writes_to subscriber (Js.out (Publisher._handleMsgQueue msgs p1)) = sent
  ∧ Publisher.writes_to subscriber
      (Js.out (Publisher._handleMsgQueue msgs (Js.state (Publisher.onClose subscriber p1))))
    = [].
Proof.
  intros p Hv Hsent p1.
  destruct (run_frame Serialize ops (PublisherLife.Publisher_new options nodeName))
    as (H1 & H2 & _ & H4 & _ & _ & H7).
  fold p in H1, H2, H4, H7.
  cbn [PublisherLife.Publisher_new Publisher._topic Publisher._type
       Publisher._messageHandler] in H1, H2, H4.
  destruct (H7 (keyed_new options nodeName)) as [Hnd Hall].
  assert (Hp1 : p1 = Publisher.set_subClients
                       (Js.Map_set (name subscriber) subscriber (Publisher._subClients p)) p).
  { subst p1. rewrite handleSubscriberConnection_ok by (by rewrite H1, H2, H4).
    reflexivity. }
  rewrite !handleMsgQueue_cases. unfold Js.out. cbn [fst snd]. split.
  - rewrite (writes_to_batch subscriber p1 msgs sent (λ bytes, [bytes])).
    + apply concat_singletons.
    + by rewrite Hp1.
    + intros bytes. rewrite Hp1. cbn [Publisher._subClients Publisher.set_subClients].
      by apply writes_to_member.
  - rewrite (writes_to_batch subscriber _ msgs sent (λ _, [])).
    + apply concat_nils.
    + by rewrite Hp1.
    + intros bytes. rewrite Hp1. unfold Js.state. cbn.
      apply writes_to_stranger. by apply Map_set_Forall.
Qed.

(** X21 at a talker with one listener connected before, and a second one
    that connects, gets "A" and "B", and closes. *)
Lemma X21_witness :
  let options := PublisherLife.mkOptions "/chatter" "std_msgs/String" false false
                   None (Some (-1)) false Wire.StringMsg in
  let header : gmap string string :=
    {[ "callerid" := "/listener"; "topic" := "/chatter";
       "type" := "std_msgs/String";
       "md5sum" := "992ce8a1687cec8c8bd883ec73ca41d1" ]} in
  let first := mkSocket "127.0.0.1:40000" 1 in
  let second := mkSocket "127.0.0.1:40001" 2 in
  let p := PublisherLife.run (λ b, b) [PublisherLife.Connect first header]
             (PublisherLife.Publisher_new options "/talker") in
  let p1 := Js.state (Publisher.handleSubscriberConnection (λ b, b) second header p) in
  Publisher.writes_to second (Js.out (Publisher._handleMsgQueue ["A"; "B"] p1))
  = [Wire.received [5; 0; 0; 0; 1; 0; 0; 0; 65];
     Wire.received [5; 0; 0; 0; 1; 0; 0; 0; 66]].
Proof.
  refine (proj1 (X21_subscriber_gets_each_message_once_until_it_closes (λ b, b)
            (PublisherLife.mkOptions "/chatter" "std_msgs/String" false false
               None (Some (-1)) false Wire.StringMsg) "/talker"
            [PublisherLife.Connect (mkSocket "127.0.0.1:40000" 1)
               {[ "callerid" := "/listener"; "topic" := "/chatter";
                  "type" := "std_msgs/String";
                  "md5sum" := "992ce8a1687cec8c8bd883ec73ca41d1" ]}]
            (mkSocket "127.0.0.1:40001" 2)
            {[ "callerid" := "/listener"; "topic" := "/chatter";
               "type" := "std_msgs/String";
               "md5sum" := "992ce8a1687cec8c8bd883ec73ca41d1" ]}
            ["A"; "B"]
            [Wire.received [5; 0; 0; 0; 1; 0; 0; 0; 65];
             Wire.received [5; 0; 0; 0; 1; 0; 0; 0; 66]] _ _)).
  - vm_compute. reflexivity.
  - repeat (apply Forall2_cons; split; [vm_compute; reflexivity|]). apply Forall2_nil_2.
Defined.

(** ** The subscriber: batches and refused handshakes *)

(** X22.  [_handleMsgQueue] of a subscriber never throws and goes through
    the whole batch: each frame that deserializes is emitted as a ['message']
    event, in the order of the batch, and a frame whose deserialization throws
    costs one warning and nothing else. *)
Theorem X22_undecodable_frames_are_skipped
    {Msg : Type} (s : Subscriber.Subscriber Msg) (client : Subscriber.Client)
    (frames : list (list Z)) :
  Subscriber._handleMsgQueue frames (s, client)
  = ((s, client),
     (λ frame, match Wire.deserialize (Subscriber._messageHandler s) frame with
               | Ok msg => Subscriber.EmitMessage msg
               | Throw _ => Subscriber.LogWarn "Error while dispatching message"
               end) <$> frames,
     Ok tt).
Proof.
  unfold Subscriber._handleMsgQueue.
  induction frames as [|frame frames IH]; [reflexivity|].
  cbn [Js.forEach]. unfold Js.bind at 1.
  assert ((st ← Js.get;
           match Wire.deserialize (Subscriber._messageHandler st.1) frame with
           | Ok m => Js.emit (Subscriber.EmitMessage m)
           | Throw _ => Js.emit (Subscriber.LogWarn "Error while dispatching message")
           end) (s, client)
          = ((s, client),
             [match Wire.deserialize (Subscriber._messageHandler s) frame with
              | Ok msg => Subscriber.EmitMessage msg
              | Throw _ => Subscriber.LogWarn "Error while dispatching message"
              end], Ok tt)) as ->.
  { unfold mbind, eff_bind, Js.bind. cbn [Js.get fst].
    by destruct (Wire.deserialize (Subscriber._messageHandler s) frame). }
  rewrite IH. reflexivity.
Qed.

(** X23.  When the first frame of a connection is a header that carries an
    [error] field (the publisher turned the handshake down), the subscriber
    logs the text of the error and does nothing else: it does not validate
    the header, ends no socket, and leaves the client uninitialized.  The
    fields are [key=value] with a word for key and a non-empty ASCII value on
    one line. *)
Theorem X23_error_header_is_logged
    {Msg : Type} (Serialize : Wire.Buffer → Wire.Buffer)
    (s : Subscriber.Subscriber Msg) (client : Subscriber.Client)
    (kvs : list (string * string)) (text : string) :
  Subscriber._initialized client = false →
  Forall (λ kv, TcprosHeaders.word kv.1 = true ∧ TcprosHeaders.one_line kv.2 = true
                ∧ TcprosHeaders.ascii_text kv.2 = true
                ∧ TcprosHeaders.fits (TcprosHeaders.field_of kv)) kvs →
  foldl (λ info kv, <[kv.1 := kv.2]> info) (∅ : gmap string string) kvs !! "error"
  = Some text →
  Subscriber._handleMessage Serialize
    (WireFormat.enc_fields (TcprosHeaders.field_of <$> kvs)) (s, client)
  = ((s, client), [Subscriber.LogError text], Ok tt).
Proof.
  intros Hinit Hall Herr.
  assert (Hparse : TcprosUtils.parseTcpRosHeader
                     (WireFormat.enc_fields (TcprosHeaders.field_of <$> kvs))
                   = Ok (foldl (λ info kv, TcprosUtils.set_property kv.1 kv.2 info) ∅ kvs)).
  { unfold TcprosUtils.parseTcpRosHeader. apply parseTcpRosHeader_fields; [|done].
    eapply Forall_impl; [exact Hall|]. intros kv (? & ? & _ & ?). done. }
  assert (Herr' : foldl (λ info kv, TcprosUtils.set_property kv.1 kv.2 info)
                    (∅ : gmap string string) kvs !! "error" = Some text).
  { rewrite <- Herr. by apply set_properties_lookup. }
  unfold Subscriber._handleMessage, Subscriber._handleMessage_using.
  unfold mbind at 1, eff_bind. unfold Js.bind at 1.
  cbn [Js.get]. rewrite Hinit. cbn [negb].
  unfold mbind, eff_bind. unfold Js.bind at 1. rewrite Hparse.
  cbn [Subscriber.lift mret eff_ret Js.ret]. rewrite Herr'. reflexivity.
Qed.

(** X23 at the answer of a publisher of another type. *)
Lemma X23_witness :
  let s := Subscriber.mkSubscriber "/chatter" "std_msgs/String" 1 0 [] Wire.StringMsg in
  let client := Subscriber.mkClient (mkSocket "127.0.0.1:50000" 2)
                  "http://127.0.0.1:41000" false in
  Subscriber._handleMessage (λ b, b)
    (WireFormat.enc_fields ["error=topic types do not match"]) (s, client)
  = ((s, client), [Subscriber.LogError "topic types do not match"], Ok tt).
Proof.
  apply (X23_error_header_is_logged (λ b, b)
           (Subscriber.mkSubscriber "/chatter" "std_msgs/String" 1 0 [] Wire.StringMsg)
           (Subscriber.mkClient (mkSocket "127.0.0.1:50000" 2) "http://127.0.0.1:41000" false)
           [("error", "topic types do not match")] "topic types do not match");
    [reflexivity| |reflexivity].
  apply Forall_cons. split; [|apply Forall_nil_2].
  split; [reflexivity|]. split; [reflexivity|]. split; [reflexivity|].
  unfold TcprosHeaders.fits. vm_compute. reflexivity.
Defined.

(** ** From [publish] to the sockets, through the spinner *)

Section NodeLemmas.
Import Wire.
Context {Msg : Type}.
Implicit Types (n : Node.Node Msg) (msgs : list Msg).

Lemma node_publish_queued (msg : Msg) n q :
  Publisher._throttleMs (Node.publisher n) >= 0 →
  Js.Map_get (Publisher._getSpinnerId (Node.publisher n))
    (Spinner._clientQueueMap (Node.spinner n)) = Some q →
  Node.publish msg None n
  = (Node.mkNode
       (Spinner.mkGlobalSpinner true
          (Js.Set_add (Publisher._getSpinnerId (Node.publisher n))
             (Spinner._clientCallQueue (Node.spinner n)))
          (Js.Map_set (Publisher._getSpinnerId (Node.publisher n)) (Spinner.push msg q)
             (Spinner._clientQueueMap (Node.spinner n))))
       (Node.publisher n),
     if Spinner._spinTimer (Node.spinner n) then [] else [Node.SetTimeout],
     Ok tt).
Proof.
  intros Hthr Hq. unfold Node.publish, mbind, eff_bind, Js.bind. cbn [Js.get default].
  rewrite bool_decide_false by lia.
  rewrite (ping_known _ _ _ q) by done. rewrite app_nil_l.
  by destruct (Spinner._spinTimer (Node.spinner n)).
Qed.

(** Publishing a run of messages through the spinner: they are pushed on
    the queue of the publisher, which waits on the call queue, and the timer
    is armed once. *)
Lemma node_publish_all msgs : ∀ n q,
  Publisher._throttleMs (Node.publisher n) >= 0 →
  Js.Map_get (Publisher._getSpinnerId (Node.publisher n))
    (Spinner._clientQueueMap (Node.spinner n)) = Some q →
  msgs ≠ [] →
  ∃ sp,
    Js.forEach (λ msg, Node.publish msg None) msgs n
    = (Node.mkNode sp (Node.publisher n),
       if Spinner._spinTimer (Node.spinner n) then [] else [Node.SetTimeout], Ok tt)
    ∧ Spinner._spinTimer sp = true
    ∧ Spinner._clientCallQueue sp
      = Js.Set_add (Publisher._getSpinnerId (Node.publisher n))
          (Spinner._clientCallQueue (Node.spinner n))
    ∧ Js.Map_get (Publisher._getSpinnerId (Node.publisher n)) (Spinner._clientQueueMap sp)
      = Some (foldl (λ q m, Spinner.push m q) q msgs)
    ∧ (Spinner.wf (Node.spinner n) → Spinner.wf sp).
Proof.
  induction msgs as [|msg msgs IH]; intros n q Hthr Hq Hne; [done|].
  cbn [Js.forEach foldl]. unfold Js.bind.
  rewrite (node_publish_queued msg n q) by done.
  set (n1 := Node.mkNode _ (Node.publisher n)).
  assert (Hq1 : Js.Map_get (Publisher._getSpinnerId (Node.publisher n1))
                  (Spinner._clientQueueMap (Node.spinner n1))
                = Some (Spinner.push msg q)).
  { subst n1. cbn. rewrite Map_get_set. by rewrite decide_True. }
  assert (Hwf1 : Spinner.wf (Node.spinner n) → Spinner.wf (Node.spinner n1)).
  { intros Hwf. pose proof (wf_ping (Publisher._getSpinnerId (Node.publisher n)) msg
                              (Node.spinner n) Hwf) as H.
    rewrite (ping_known _ _ _ q) in H by done. exact H. }
  destruct msgs as [|msg' msgs].
  - cbn [Js.forEach Js.ret]. exists (Node.spinner n1). rewrite app_nil_r.
    split; [reflexivity|]. split; [reflexivity|]. split; [reflexivity|].
    split; [exact Hq1|exact Hwf1].
  - destruct (IH n1 (Spinner.push msg q) Hthr Hq1) as (sp & Hrun & Ht & Hcq & Hmap & Hwf);
      [done|].
    rewrite Hrun. exists sp. cbn [Node.spinner Node.publisher n1 Spinner._spinTimer].
    rewrite app_nil_r. split; [reflexivity|]. split; [exact Ht|]. split.
    + rewrite Hcq. subst n1. cbn [Node.publisher Node.spinner Spinner._clientCallQueue].
      unfold Js.Set_add at 1. unfold Js.Set_has.
      rewrite bool_decide_true; [reflexivity|]. apply elem_of_Set_add. by left.
    + split; [exact Hmap|]. intros Hwf0. by apply Hwf, Hwf1.
Qed.
End NodeLemmas.

Section NodeTick.
Import Wire.
Context {Msg : Type} (Serialize : Buffer → Buffer).
Implicit Types (n : Node.Node Msg) (msgs : list Msg).

(** A tick on which the publisher is the one waiting client and is past its
    throttle: its whole queue goes to [_handleMsgQueue], and the timer stays
    unarmed. *)
Lemma node_tick_single now n q :
  Spinner.wf (Node.spinner n) →
  Spinner._clientCallQueue (Node.spinner n) = [Publisher._getSpinnerId (Node.publisher n)] →
  Js.Map_get (Publisher._getSpinnerId (Node.publisher n))
    (Spinner._clientQueueMap (Node.spinner n)) = Some q →
  Spinner._client q = Publisher._getSpinnerId (Node.publisher n) →
  Spinner.eligible now q = true →
  Js.result (Node.tick now n) = Ok tt
  ∧ Js.out (Node.tick now n)
    = Node.OfPublisher
        <$> Js.out (Publisher._handleMsgQueue (Spinner._queue q) (Node.publisher n))
  ∧ Spinner._spinTimer (Node.spinner (Js.state (Node.tick now n))) = false
  ∧ Spinner._clientCallQueue (Node.spinner (Js.state (Node.tick now n))) = [].
Proof.
  intros Hwf Hcq Hq Hclient Hel.
  assert (Hkeep : Spinner.tick_keep now [Publisher._getSpinnerId (Node.publisher n)]
                    (Spinner._clientQueueMap (Node.spinner n)) = []).
  { unfold Spinner.tick_keep, Spinner.stays. cbn [fmap list_fmap concat].
    by rewrite Hq, Hel. }
  assert (Hout : Spinner.tick_out now [Publisher._getSpinnerId (Node.publisher n)]
                   (Spinner._clientQueueMap (Node.spinner n))
                 = [Spinner.HandleMsgQueue (Publisher._getSpinnerId (Node.publisher n))
                      (Spinner._queue q)]).
  { unfold Spinner.tick_out. cbn [fmap list_fmap concat]. rewrite Hq.
    unfold Spinner.handleClientMessages. rewrite Hel, Hclient. reflexivity. }
  assert (Htick : Node.tick now n
    = (Node.mkNode
         (Spinner.mkGlobalSpinner false []
            (Spinner.tick_map now [Publisher._getSpinnerId (Node.publisher n)]
               (Spinner._clientQueueMap (Node.spinner n))))
         (Js.state (Publisher._handleMsgQueue (Spinner._queue q) (Node.publisher n))),
       Node.OfPublisher
         <$> Js.out (Publisher._handleMsgQueue (Spinner._queue q) (Node.publisher n)),
       Ok tt)).
  { unfold Node.tick. rewrite handleQueue_spec by done. rewrite Hcq, Hkeep, Hout.
    rewrite bool_decide_false by (intros H; by apply H).
    rewrite app_nil_r. cbn [Node.dispatch].
    unfold mbind, eff_bind, Js.bind.
    cbn [Js.get Node.publisher]. rewrite bool_decide_true by reflexivity.
    unfold Node.on_publisher. cbn [Node.publisher Node.spinner].
    rewrite handleMsgQueue_cases.
    unfold Js.out, Js.state. cbn [fst snd mret eff_ret Js.ret].
    by rewrite !app_nil_l, app_nil_r. }
  rewrite Htick. unfold Js.result, Js.out, Js.state. cbn [fst snd]. done.
Qed.

Lemma connect_frame n (conn : Socket * gmap string string) :
  Node.spinner (Node.connect Serialize n conn) = Node.spinner n
  ∧ Publisher._topic (Node.publisher (Node.connect Serialize n conn))
    = Publisher._topic (Node.publisher n)
  ∧ Publisher._throttleMs (Node.publisher (Node.connect Serialize n conn))
    = Publisher._throttleMs (Node.publisher n).
Proof.
  destruct conn as [subscriber header]. unfold Node.connect, Node.on_publisher.
  cbn [fst snd].
  destruct (TcprosUtils.validateSubHeader header (Publisher._topic (Node.publisher n))
              (Publisher._type (Node.publisher n))
              (md5sum (Publisher._messageHandler (Node.publisher n))))
    as [[error|]|e] eqn:Hv.
  - rewrite (handleSubscriberConnection_error _ _ _ _ error) by done. done.
  - rewrite handleSubscriberConnection_ok by done. done.
  - assert (Publisher.handleSubscriberConnection Serialize subscriber header
              (Node.publisher n) = (Node.publisher n, [], Throw e)) as ->; [|done].
    unfold Publisher.handleSubscriberConnection, mbind, eff_bind.
    unfold Js.bind at 1. cbn [Js.get]. unfold Js.bind at 1. by rewrite Hv.
Qed.

Lemma connects_frame (conns : list (Socket * gmap string string)) : ∀ n,
  Node.spinner (foldl (Node.connect Serialize) n conns) = Node.spinner n
  ∧ Publisher._topic (Node.publisher (foldl (Node.connect Serialize) n conns))
    = Publisher._topic (Node.publisher n)
  ∧ Publisher._throttleMs (Node.publisher (foldl (Node.connect Serialize) n conns))
    = Publisher._throttleMs (Node.publisher n).
Proof.
  induction conns as [|conn conns IH]; intros n; [done|].
  cbn [foldl]. destruct (IH (Node.connect Serialize n conn)) as (-> & -> & ->).
  apply connect_frame.
Qed.
End NodeTick.

(** X24.  From [publish] to the sockets.  A publisher constructed with a
    positive queue size [N] and a throttle that is not negative, on a spinner
    of its own, with any subscribers connected: publishing the messages
    [msgs] one after the other writes nothing and arms the spin timer once;
    when the timer fires, whatever the time, the publisher handles the last
    [min (length msgs) N] of them as one batch, which is all that reaches the
    sockets, and the timer is not armed again. *)
Theorem X24_published_messages_reach_the_sockets_at_the_next_tick
    {Msg : Type} (Serialize : Wire.Buffer → Wire.Buffer)
    (options : PublisherLife.Options Msg) (nodeName : string)
    (conns : list (Socket * gmap string string)) (msgs : list Msg) (now : Z) :
  let p0 := PublisherLife.Publisher_new options nodeName in
  Publisher._queueSize p0 > 0 → Publisher._throttleMs p0 >= 0 → msgs ≠ [] →
  let n := foldl (Node.connect Serialize) (Node.Node_new options nodeName) conns in
  let r := Js.forEach (λ msg, Node.publish msg None) msgs n in
  let r' := Node.tick now (Js.state r) in
  Js.result r = Ok tt ∧ Js.out r = [Node.SetTimeout]
  ∧ Js.result r' = Ok tt
  ∧ Js.out r'
    = Node.OfPublisher
        <$> Js.out (Publisher._handleMsgQueue
                      (drop (length msgs - Z.to_nat (Publisher._queueSize p0)) msgs)
                      (Node.publisher n))
  ∧ Spinner._spinTimer (Node.spinner (Js.state r')) = false.
Proof.
  intros p0 HN Hthr Hne n r r'.
  destruct (connects_frame Serialize conns (Node.Node_new options nodeName))
    as (Hsp & Htopic & Hthr').
  fold n in Hsp, Htopic, Hthr'.
  set (id := Publisher._getSpinnerId p0).
  assert (Hid : Publisher._getSpinnerId (Node.publisher n) = id).
  { unfold Publisher._getSpinnerId. by rewrite Htopic. }
  set (q0 := Spinner.mkClientQueue id ([] : list Msg) (Publisher._queueSize p0)
               (Publisher._throttleMs p0) None).
  assert (Hsp0 : Node.spinner n = Spinner.mkGlobalSpinner false [] [(id, q0)]).
  { rewrite Hsp. unfold Node.Node_new. cbn [Node.spinner].
    rewrite addClient_spec. unfold Js.state. cbn [fst].
    rewrite bool_decide_true by done. reflexivity. }
  assert (Hwf0 : Spinner.wf (Node.spinner n)).
  { rewrite Hsp. unfold Node.Node_new. cbn [Node.spinner].
    apply wf_addClient, wf_new. }
  assert (Hq0 : Js.Map_get (Publisher._getSpinnerId (Node.publisher n))
                  (Spinner._clientQueueMap (Node.spinner n)) = Some q0).
  { rewrite Hid, Hsp0. cbn. by rewrite decide_True. }
  destruct (node_publish_all msgs n q0) as (sp & Hrun & Ht & Hcq & Hmap & Hwf);
    [by rewrite Hthr'|done|done|].
  destruct (pushes_lastn msgs q0) as (Hqueue & Hc & Hsz & _ & Hht);
    [unfold q0; cbn [Spinner._queueSize]; lia|reflexivity|].
  assert (Hr : r = (Node.mkNode sp (Node.publisher n), [Node.SetTimeout], Ok tt)).
  { subst r. rewrite Hrun. by rewrite Hsp0. }
  subst r'. rewrite Hr.
  change (Js.state (Node.mkNode sp (Node.publisher n), [Node.SetTimeout], Ok tt))
    with (Node.mkNode sp (Node.publisher n)).
  split; [reflexivity|]. split; [reflexivity|].
  destruct (node_tick_single now (Node.mkNode sp (Node.publisher n))
              (foldl (λ q m, Spinner.push m q) q0 msgs)) as (H1 & H2 & H3 & _).
  - by apply Hwf.
  - cbn [Node.spinner Node.publisher]. rewrite Hcq, Hsp0. reflexivity.
  - exact Hmap.
  - cbn [Node.publisher]. by rewrite Hc, Hid.
  - unfold Spinner.eligible. by rewrite Hht.
  - split; [exact H1|]. split; [|exact H3].
    rewrite H2. cbn [Node.publisher]. rewrite Hqueue. reflexivity.
Qed.

(** X24 at a talker with queue size 2 and one listener, publishing "A", "B"
    and "C": the listener is written "B" and "C". *)
Lemma X24_witness :
  let options := PublisherLife.mkOptions "/chatter" "std_msgs/String" false false
                   (Some 2) None false Wire.StringMsg in
  let header : gmap string string :=
    {[ "callerid" := "/listener"; "topic" := "/chatter";
       "type" := "std_msgs/String";
       "md5sum" := "992ce8a1687cec8c8bd883ec73ca41d1" ]} in
  let listener := mkSocket "127.0.0.1:40000" 1 in
  let n := foldl (Node.connect (λ b, b)) (Node.Node_new options "/talker")
             [(listener, header)] in
  Js.out (Node.tick 7 (Js.state (Js.forEach (λ msg, Node.publish msg None)
                                   ["A"; "B"; "C"] n)))
  = [Node.OfPublisher (Publisher.SocketWrite listener
                         (Wire.received [5; 0; 0; 0; 1; 0; 0; 0; 66]));
     Node.OfPublisher (Publisher.SocketWrite listener
                         (Wire.received [5; 0; 0; 0; 1; 0; 0; 0; 67]))].
Proof.
  destruct (X24_published_messages_reach_the_sockets_at_the_next_tick (λ b, b)
              (PublisherLife.mkOptions "/chatter" "std_msgs/String" false false
                 (Some 2) None false Wire.StringMsg) "/talker"
              [(mkSocket "127.0.0.1:40000" 1,
                ({[ "callerid" := "/listener"; "topic" := "/chatter";
                    "type" := "std_msgs/String";
                    "md5sum" := "992ce8a1687cec8c8bd883ec73ca41d1" ]}
                   : gmap string string))]
              ["A"; "B"; "C"] 7) as (_ & _ & _ & Hout & _);
    [vm_compute; reflexivity|vm_compute; discriminate|discriminate|].
  cbv zeta. rewrite Hout. vm_compute. reflexivity.
Defined.

(** X25.  A publisher constructed with a negative queue size is not added
    to the spinner ([addClient] asks for a positive size), so with a throttle
    that is not negative [publish] throws 'Unable to queue message for unknown
    client' and nothing is written. *)
Theorem X25_negative_queue_size_cannot_publish
    {Msg : Type} (options : PublisherLife.Options Msg) (nodeName : string)
    (size : Z) (msg : Msg) :
  PublisherLife.queueSize options = Some size → size < 0 →
  default 0 (PublisherLife.throttleMs options) >= 0 →
  let n := Node.Node_new options nodeName in
  Node.publish msg None n
  = (n, [], Throw (Js.Error "Unable to queue message for unknown client")).
Proof.
  intros Hsize Hneg Hthr n.
  assert (Hsp : Node.spinner n = Spinner.GlobalSpinner_new).
  { subst n. unfold Node.Node_new. cbn [Node.spinner]. rewrite addClient_spec.
    unfold Js.state. cbn [fst PublisherLife.Publisher_new Publisher._queueSize].
    rewrite Hsize. rewrite (bool_decide_false (size = 0)) by lia.
    by rewrite bool_decide_false by lia. }
  unfold Node.publish, mbind, eff_bind, Js.bind. cbn [Js.get default].
  rewrite bool_decide_false by (subst n; cbn; lia).
  rewrite ping_unknown by (by rewrite Hsp).
  by destruct n.
Qed.

(** X25 at a talker advertised with queue size -1. *)
Lemma X25_witness :
  let options := PublisherLife.mkOptions "/chatter" "std_msgs/String" false false
                   (Some (-1)) None false Wire.StringMsg in
  Node.publish "A" None (Node.Node_new options "/talker")
  = (Node.Node_new options "/talker", [],
     Throw (Js.Error "Unable to queue message for unknown client")).
Proof.
  apply (X25_negative_queue_size_cannot_publish
           (PublisherLife.mkOptions "/chatter" "std_msgs/String" false false
              (Some (-1)) None false Wire.StringMsg) "/talker" (-1) "A");
    [reflexivity|lia|cbn; lia].
Defined.

(** ** The logger *)

Section LoggerLemmas.
Import Logger.
Implicit Types (s : Logger) (k : string).

Lemma Set_has_true k (l : list string) : Js.Set_has k l = true ↔ k ∈ l.
Proof. unfold Js.Set_has. apply bool_decide_eq_true. Qed.

Lemma elem_of_Set_delete k k' (l : list string) :
  k ∈ Js.Set_delete k' l ↔ k ≠ k' ∧ k ∈ l.
Proof. unfold Js.Set_delete. by rewrite list_elem_of_filter. Qed.

Lemma once_spec arg k s :
  key_of arg = Ok (Some k) →
  _once arg s
  = if Js.Set_has k (_onceLogs s) then (s, [], Ok false)
    else (mkLogger (_throttledLogs s) (Js.Set_add k (_onceLogs s)), [], Ok true).
Proof.
  intros Hk. unfold _once. rewrite Hk. unfold mbind, eff_bind, Js.bind. cbn [Js.get].
  by destruct (Js.Set_has k (_onceLogs s)).
Qed.

Lemma throttle_spec t arg k s :
  key_of arg = Ok (Some k) →
  _throttle t arg s
  = if Js.Set_has k (_throttledLogs s) then (s, [], Ok true)
    else (mkLogger (Js.Set_add k (_throttledLogs s)) (_onceLogs s),
          [SetTimeout k t], Ok false).
Proof.
  intros Hk. unfold _throttle. rewrite Hk. unfold mbind, eff_bind, Js.bind. cbn [Js.get].
  by destruct (Js.Set_has k (_throttledLogs s)).
Qed.

Lemma onceMethod_spec method args k s :
  key_of (nth_arg 0 args) = Ok (Some k) →
  onceMethod method true args s
  = if Js.Set_has k (_onceLogs s) then (s, [], Ok tt)
    else (mkLogger (_throttledLogs s) (Js.Set_add k (_onceLogs s)),
          [Write method args], Ok tt).
Proof.
  intros Hk. unfold onceMethod, mbind, eff_bind, Js.bind. rewrite (once_spec _ k) by done.
  by destruct (Js.Set_has k (_onceLogs s)).
Qed.

Lemma throttleMethod_spec method t args k s :
  key_of (nth_arg 0 args) = Ok (Some k) →
  throttleMethod method true t args s
  = if Js.Set_has k (_throttledLogs s) then (s, [], Ok tt)
    else (mkLogger (Js.Set_add k (_throttledLogs s)) (_onceLogs s),
          [SetTimeout k t; Write method args], Ok tt).
Proof.
  intros Hk. unfold throttleMethod, mbind, eff_bind, Js.bind.
  rewrite (throttle_spec _ _ k) by done.
  by destruct (Js.Set_has k (_throttledLogs s)).
Qed.

(** Whatever a once method is given, it forgets no key. *)
Lemma onceMethod_mono method enabled args s k :
  k ∈ _onceLogs s → k ∈ _onceLogs (Js.state (onceMethod method enabled args s)).
Proof.
  intros Hin. destruct enabled; [|done].
  destruct (key_of (nth_arg 0 args)) as [[k'|]|e] eqn:Hk.
  - rewrite (onceMethod_spec _ _ k') by done.
    destruct (Js.Set_has k' (_onceLogs s)); [done|].
    unfold Js.state. cbn. apply elem_of_Set_add. by right.
  - unfold onceMethod, _once, mbind, eff_bind, Js.bind. by rewrite Hk.
  - unfold onceMethod, _once, mbind, eff_bind, Js.bind. by rewrite Hk.
Qed.

(** Whatever a throttled method is given, it forgets no key, and it leaves
    the keys of the once methods alone. *)
Lemma throttleMethod_mono method enabled t args s :
  _onceLogs (Js.state (throttleMethod method enabled t args s)) = _onceLogs s
  ∧ ∀ k, k ∈ _throttledLogs s →
         k ∈ _throttledLogs (Js.state (throttleMethod method enabled t args s)).
Proof.
  destruct enabled; [|done].
  destruct (key_of (nth_arg 0 args)) as [[k'|]|e] eqn:Hk.
  - rewrite (throttleMethod_spec _ _ _ k') by done.
    destruct (Js.Set_has k' (_throttledLogs s)); [done|].
    unfold Js.state. cbn. split; [done|]. intros k Hin. apply elem_of_Set_add. by right.
  - unfold throttleMethod, _throttle, mbind, eff_bind, Js.bind. by rewrite Hk.
  - unfold throttleMethod, _throttle, mbind, eff_bind, Js.bind. by rewrite Hk.
Qed.

Lemma run_onceLogs (ops : list Op) k : ∀ s,
  k ∈ _onceLogs s → k ∈ _onceLogs (run ops s).
Proof.
  unfold run. induction ops as [|op ops IH]; intros s Hin; [done|].
  cbn [foldl]. apply IH. destruct op as [method enabled t args|method enabled args|id];
    cbn [exec].
  - by rewrite (proj1 (throttleMethod_mono method enabled t args s)).
  - by apply onceMethod_mono.
  - done.
Qed.

Lemma run_throttledLogs (ops : list Op) k : ∀ s,
  Forall (keeps k) ops → k ∈ _throttledLogs s → k ∈ _throttledLogs (run ops s).
Proof.
  unfold run. induction ops as [|op ops IH]; intros s Hall Hin; [done|].
  apply Forall_cons in Hall as [Hop Hall]. cbn [foldl]. apply IH; [done|].
  destruct op as [method enabled t args|method enabled args|id]; cbn [exec].
  - by apply (proj2 (throttleMethod_mono method enabled t args s)).
  - destruct enabled; [|done].
    destruct (key_of (nth_arg 0 args)) as [[k'|]|e] eqn:Hk.
    + rewrite (onceMethod_spec _ _ k') by done.
      by destruct (Js.Set_has k' (_onceLogs s)).
    + unfold onceMethod, _once, mbind, eff_bind, Js.bind. by rewrite Hk.
    + unfold onceMethod, _once, mbind, eff_bind, Js.bind. by rewrite Hk.
  - unfold Js.state. cbn. apply elem_of_Set_delete. split; [|done].
    cbn in Hop. congruence.
Qed.
End LoggerLemmas.

(** X26.  The once methods of a logger share one memory.  After an entry
    has gone through a once method whose level is written, no once method,
    of whatever level, writes an entry with the same key again, however many
    other entries are logged in between; the key of an entry is its first
    argument, a string, or the comma-joined keys of an object. *)
Theorem X26_once_methods_write_a_key_once
    (s : Logger.Logger) (ops : list Logger.Op) (method1 method2 : string)
    (enabled2 : bool) (args1 args2 : list Logger.Arg) (k : string) :
  Logger.key_of (Logger.nth_arg 0 args1) = Ok (Some k) →
  Logger.key_of (Logger.nth_arg 0 args2) = Ok (Some k) →
  let s1 := Js.state (Logger.onceMethod method1 true args1 s) in
  let s2 := Logger.run ops s1 in
  Logger.onceMethod method2 enabled2 args2 s2 = (s2, [], Ok tt).
Proof.
  intros Hk1 Hk2 s1 s2.
  assert (Hin1 : k ∈ Logger._onceLogs s1).
  { subst s1. rewrite (onceMethod_spec _ _ k) by done.
    destruct (Js.Set_has k (Logger._onceLogs s)) eqn:Hhas.
    - by apply Set_has_true.
    - unfold Js.state. cbn. apply elem_of_Set_add. by left. }
  assert (Hin2 : k ∈ Logger._onceLogs s2) by (by apply run_onceLogs).
  destruct enabled2; [|reflexivity].
  rewrite (onceMethod_spec _ _ k) by done.
  by rewrite (proj2 (Set_has_true k _) Hin2).
Qed.

(** X26 at [infoOnce('Connected to master!')] followed, after other
    entries, by [warnOnce] of an object whose one key is that text. *)
Lemma X26_witness :
  let s1 := Js.state (Logger.onceMethod "info" true
                        [Logger.AString "Connected to master!"] Logger.Logger_new) in
  let s2 := Logger.run [Logger.Once "warn" true [Logger.AString "other"];
                        Logger.Throttle "debug" true 2000 [Logger.AString "x"]] s1 in
  Logger.onceMethod "warn" true [Logger.AObject ["Connected to master!"]] s2
  = (s2, [], Ok tt).
Proof.
  apply (X26_once_methods_write_a_key_once Logger.Logger_new
           [Logger.Once "warn" true [Logger.AString "other"];
            Logger.Throttle "debug" true 2000 [Logger.AString "x"]]
           "info" "warn" true [Logger.AString "Connected to master!"]
           [Logger.AObject ["Connected to master!"]] "Connected to master!");
    reflexivity.
Defined.

(** X27.  A throttled method holds an entry back from the moment an entry
    with the same key went through a throttled method whose level is written
    until the timer set then fires: in between, whatever else is logged and
    whichever other timers fire, an entry with that key is not written, sets
    no timer of its own and changes nothing, whatever throttle time it names;
    once the timer has fired the next such entry is written and sets a
    timer. *)
Theorem X27_throttled_entries_wait_for_the_timer
    (s : Logger.Logger) (ops : list Logger.Op) (method1 method2 : string)
    (enabled2 : bool) (time1 time2 : Z) (args1 args2 : list Logger.Arg) (k : string) :
  Logger.key_of (Logger.nth_arg 0 args1) = Ok (Some k) →
  Logger.key_of (Logger.nth_arg 0 args2) = Ok (Some k) →
  Forall (Logger.keeps k) ops →
  let s1 := Js.state (Logger.throttleMethod method1 true time1 args1 s) in
  let s2 := Logger.run ops s1 in
  Logger.throttleMethod method2 enabled2 time2 args2 s2 = (s2, [], Ok tt)
  ∧ Js.out (Logger.throttleMethod method2 true time2 args2
              (Js.state (Logger.expire k s2)))
    = [Logger.SetTimeout k time2; Logger.Write method2 args2].
Proof.
  intros Hk1 Hk2 Hkeeps s1 s2.
  assert (Hin1 : k ∈ Logger._throttledLogs s1).
  { subst s1. rewrite (throttleMethod_spec _ _ _ k) by done.
    destruct (Js.Set_has k (Logger._throttledLogs s)) eqn:Hhas.
    - by apply Set_has_true.
    - unfold Js.state. cbn. apply elem_of_Set_add. by left. }
  assert (Hin2 : k ∈ Logger._throttledLogs s2) by (by apply run_throttledLogs).
  split.
  - destruct enabled2; [|reflexivity].
    rewrite (throttleMethod_spec _ _ _ k) by done.
    by rewrite (proj2 (Set_has_true k _) Hin2).
  - rewrite (throttleMethod_spec _ _ _ k) by done.
    destruct (Js.Set_has k (Logger._throttledLogs (Js.state (Logger.expire k s2)))) eqn:Hhas;
      [|reflexivity].
    apply Set_has_true in Hhas. unfold Js.state in Hhas. cbn in Hhas.
    apply elem_of_Set_delete in Hhas as [Hne _]. done.
Qed.

(** X27 at the entry that a publisher without subscribers logs with
    [debugThrottle(2000, …)]. *)
Lemma X27_witness :
  let entry := [Logger.AString "Publishing message on /chatter with no subscribers"] in
  let s1 := Js.state (Logger.throttleMethod "debug" true 2000 entry Logger.Logger_new) in
  let s2 := Logger.run [Logger.Once "info" true [Logger.AString "x"];
                        Logger.Expire "y"] s1 in
  Logger.throttleMethod "debug" true 2000 entry s2 = (s2, [], Ok tt).
Proof.
  refine (proj1 (X27_throttled_entries_wait_for_the_timer Logger.Logger_new
            [Logger.Once "info" true [Logger.AString "x"]; Logger.Expire "y"]
            "debug" "debug" true 2000 2000
            [Logger.AString "Publishing message on /chatter with no subscribers"]
            [Logger.AString "Publishing message on /chatter with no subscribers"]
            "Publishing message on /chatter with no subscribers" eq_refl eq_refl _)).
  repeat (apply Forall_cons; split; [cbn; done|]). apply Forall_nil_2.
Defined.

(** ** The entry point *)

Section RosnodejsLemmas.
Import Rosnodejs.

Lemma validateNodeName_slash nodeName :
  TcprosUtils.startsWith "/" (_validateNodeName nodeName) = true.
Proof.
  unfold _validateNodeName.
  destruct (TcprosUtils.startsWith "/" nodeName) eqn:Hs; [done|].
  destruct nodeName; reflexivity.
Qed.

Lemma validateNodeName_idem nodeName :
  _validateNodeName (_validateNodeName nodeName) = _validateNodeName nodeName.
Proof.
  unfold _validateNodeName at 1. by rewrite validateNodeName_slash.
Qed.

Lemma initNode_existing nodeName anonymous pid now existing :
  Js.state (initNode nodeName anonymous pid now (Some existing)) = Some existing
  ∧ created (Js.out (initNode nodeName anonymous pid now (Some existing))) = [].
Proof.
  unfold initNode, mbind, eff_bind, Js.bind. cbn [Js.get].
  by case_bool_decide.
Qed.

Lemma trace_existing (calls : list Call) : ∀ existing,
  created (trace calls (Some existing)) = [].
Proof.
  induction calls as [|c calls IH]; intros existing; [done|].
  cbn [trace]. unfold created in *. rewrite omap_app. unfold exec.
  destruct (initNode_existing (call_nodeName c) (call_anonymous c) (call_pid c)
              (call_now c) existing) as [-> Hout].
  unfold created in Hout. by rewrite Hout, IH.
Qed.
End RosnodejsLemmas.

(** X28.  A process gets one node.  Whatever calls of [initNode] are made,
    with whatever names and options, at most one node is created, by the
    first of them, under the name asked for with a slash put in front where
    it has none (and the process id and the time behind it when an anonymous
    node is asked for); the name that is kept starts with a slash, so asking
    again for the same node with or without the slash resolves a handle of
    the node that exists, the node answering with the name it was created
    with. *)
Theorem X28_one_node_for_a_process (c : Rosnodejs.Call) (calls : list Rosnodejs.Call) :
  let nodeName :=
    Rosnodejs._validateNodeName
      (if Rosnodejs.call_anonymous c
       then Rosnodejs._anonymizeNodeName (Rosnodejs.call_nodeName c)
              (Rosnodejs.call_pid c) (Rosnodejs.call_now c)
       else Rosnodejs.call_nodeName c) in
  Rosnodejs.created (Rosnodejs.trace (c :: calls) None) = [nodeName]
  ∧ Rosnodejs._validateNodeName nodeName = nodeName
  ∧ (∀ name pid now,
       Rosnodejs._validateNodeName name = nodeName →
       Rosnodejs.initNode name false pid now (Some nodeName)
       = (Some nodeName, [Rosnodejs.ResolveNodeHandle], Ok tt)).
Proof.
  intros nodeName. split; [|split].
  - cbn [Rosnodejs.trace]. unfold Rosnodejs.created. rewrite omap_app.
    fold (Rosnodejs.created (Rosnodejs.trace calls (Js.state (Rosnodejs.exec c None)))).
    assert (Hr : Rosnodejs.exec c None
                 = (Some nodeName, [Rosnodejs.NewRosNode nodeName], Ok tt)) by reflexivity.
    rewrite Hr. unfold Js.state, Js.out. cbn [fst snd].
    by rewrite trace_existing.
  - apply validateNodeName_idem.
  - intros name pid now Hname.
    unfold Rosnodejs.initNode, mbind, eff_bind, Js.bind. cbn [Js.get].
    rewrite Hname. by rewrite bool_decide_eq_true_2.
Qed.

(** X28 at a node created as [/talker] and asked for again as [talker]. *)
Lemma X28_witness :
  Rosnodejs.initNode "talker" false 1 2 (Some "/talker")
  = (Some "/talker", [Rosnodejs.ResolveNodeHandle], Ok tt).
Proof.
  exact (proj2 (proj2 (X28_one_node_for_a_process
                         (Rosnodejs.mkCall "/talker" false 0 0) []))
           "talker" 1 2 eq_refl).
Defined.

(** ** Pings from inside a run of the spinner *)

Section SpinnerReentryLemmas.
Context {Client Msg : Type}.
Implicit Types (s : Spinner.GlobalSpinner Client Msg)
               (q : Spinner.ClientQueue Client Msg).

(** A message pushed on a queue with room for it. *)
Lemma push_room (m : Msg) q :
  Z.of_nat (length (Spinner._queue q)) < Spinner._queueSize q →
  Spinner.push m q = Spinner.with_queue q (Spinner._queue q ++ [m]).
Proof.
  intros Hroom. unfold Spinner.push. rewrite bool_decide_false; [reflexivity|].
  unfold Spinner.length_. cbn. rewrite length_app. cbn. lia.
Qed.

(** Two clients are added and pinged once each. *)
Lemma two_clients_pinged (cA cB : Client) (idA idB : string) (nA nB thrA thrB : Z)
    (a b : Msg) :
  idA ≠ idB → nA > 0 → nB > 0 →
  Spinner.run [Spinner.AddClient cA idA nA thrA; Spinner.AddClient cB idB nB thrB;
               Spinner.Ping idA a; Spinner.Ping idB b] Spinner.GlobalSpinner_new
  = Spinner.mkGlobalSpinner true [idA; idB]
      [(idA, Spinner.mkClientQueue cA [a] nA thrA None);
       (idB, Spinner.mkClientQueue cB [b] nB thrB None)].
Proof.
  intros Hne HA HB. unfold Spinner.run. cbn [foldl Spinner.exec].
  rewrite !addClient_spec. unfold Js.state. cbn [fst].
  rewrite !bool_decide_true by done. cbn.
  rewrite decide_False by done.
  rewrite (ping_known idA a _ (Spinner.mkClientQueue cA [] nA thrA None))
    by (cbn; by rewrite decide_True).
  cbn. rewrite decide_True by done.
  rewrite (ping_known idB b _ (Spinner.mkClientQueue cB [] nB thrB None))
    by (cbn; rewrite decide_False by done; by rewrite decide_True).
  cbn. rewrite decide_False by done. rewrite decide_True by done.
  rewrite !push_room by (cbn; lia). cbn.
  unfold Js.Set_add, Js.Set_has. cbn.
  rewrite (bool_decide_false (idA ∈ [])) by apply not_elem_of_nil.
  rewrite (bool_decide_false (idB ∈ [idA]))
    by (intros H%list_elem_of_singleton; congruence).
  reflexivity.
Qed.

Section HandleAllSteps.
Variable react : Client → list Msg → list (string * Msg).

Lemma handleAll_done rounds now i keep s :
  Spinner._clientCallQueue s !! i = None →
  SpinnerReentry.handleAll react rounds now i keep s = (s, [], Ok keep).
Proof.
  intros Hnone. destruct rounds as [|rounds]; [reflexivity|].
  cbn [SpinnerReentry.handleAll]. unfold mbind, eff_bind, Js.bind. cbn [Js.get].
  by rewrite Hnone.
Qed.

Lemma handleAll_visit rounds now i keep s id q s' out (handled : bool) :
  SpinnerReentry.handleClientMessages react now id q s = (s', out, Ok handled) →
  Spinner._clientCallQueue s !! i = Some id →
  Js.Map_get id (Spinner._clientQueueMap s) = Some q →
  SpinnerReentry.handleAll react (S rounds) now i keep s
  = match SpinnerReentry.handleAll react rounds now (S i)
            (if handled then keep else keep ++ [id]) s' with
    | (s2, out2, res) => (s2, out ++ out2, res)
    end.
Proof.
  intros Hh Hid Hq. cbn [SpinnerReentry.handleAll].
  unfold mbind, eff_bind. unfold Js.bind at 1. cbn [Js.get]. rewrite Hid, Hq.
  unfold Js.bind at 1. rewrite Hh.
  destruct (SpinnerReentry.handleAll react rounds now (S i)
              (if handled then keep else keep ++ [id]) s') as [[s2 out2] res].
  reflexivity.
Qed.

(** *** Clients that do not ping *)

Lemma Map_set_same {V} k (v : V) (mp : Js.Map V) :
  Js.Map_get k mp = Some v → Js.Map_set k v mp = mp.
Proof.
  induction mp as [|[k0 v0] mp IH]; cbn; [discriminate|].
  destruct (decide (k0 = k)) as [->|Hne]; [by intros [= ->]|].
  intros H. by rewrite IH.
Qed.

Lemma Map_set_twice {V} k (v1 v2 : V) (mp : Js.Map V) :
  Js.Map_set k v2 (Js.Map_set k v1 mp) = Js.Map_set k v2 mp.
Proof.
  induction mp as [|[k0 v0] mp IH]; cbn.
  - by rewrite decide_True.
  - destruct (decide (k0 = k)) as [->|Hne]; cbn.
    + by rewrite decide_True.
    + rewrite decide_False by done. by rewrite IH.
Qed.

(** For a client that pings nothing, [handleClientMessages] is the one of
    the spinner without callbacks. *)
Lemma handleClientMessages_silent now id q s :
  react (Spinner._client q) (Spinner._queue q) = [] →
  Js.Map_get id (Spinner._clientQueueMap s) = Some q →
  SpinnerReentry.handleClientMessages react now id q s
  = (Spinner.set_clientQueueMap
       (Js.Map_set id (Spinner.dispatched now q) (Spinner._clientQueueMap s)) s,
     snd (fst (Spinner.handleClientMessages now q)),
     Ok (Spinner.eligible now q)).
Proof.
  intros Hsilent Hq. unfold SpinnerReentry.handleClientMessages, Spinner.dispatched,
    Spinner.handleClientMessages.
  destruct (Spinner.eligible now q) eqn:Hel; cbn [fst snd].
  - rewrite Hsilent. unfold mbind, eff_bind, Js.bind, SpinnerReentry.assign.
    cbn [Js.modify Js.emit Js.forEach Js.ret mret eff_ret]. rewrite Hq.
    cbn [Spinner._clientQueueMap Spinner.set_clientQueueMap].
    rewrite Map_get_set, decide_True by done. rewrite Map_set_twice.
    destruct s; reflexivity.
  - rewrite Map_set_same by done. by destruct s.
Qed.

(** Going through the call queue by place is going through its list when no
    client pings. *)
Lemma handleAll_silent now (ids : list string) :
  (∀ c l, react c l = []) → ∀ pre rounds keep s,
  Spinner._clientCallQueue s = pre ++ ids → (length ids ≤ rounds)%nat →
  SpinnerReentry.handleAll react rounds now (length pre) keep s
  = Spinner.handleAll now ids keep s.
Proof.
  intros Hsilent. induction ids as [|id ids IH]; intros pre rounds keep s Hcq Hr.
  - rewrite handleAll_done; [reflexivity|].
    rewrite Hcq, app_nil_r. apply lookup_ge_None_2. lia.
  - destruct rounds as [|rounds]; [cbn in Hr; lia|].
    assert (Hid : Spinner._clientCallQueue s !! length pre = Some id).
    { rewrite Hcq. by rewrite list_lookup_middle. }
    cbn [Spinner.handleAll].
    destruct (Js.Map_get id (Spinner._clientQueueMap s)) as [q|] eqn:Hq.
    + rewrite (handleAll_visit rounds now (length pre) keep s id q _ _ _
                 (handleClientMessages_silent now id q s (Hsilent _ _) Hq)) by done.
      unfold mbind, eff_bind, Js.bind. rewrite (handleOne_spec now id s q Hq).
      replace (S (length pre)) with (length (pre ++ [id]))
        by (rewrite length_app; cbn; lia).
      rewrite IH.
      * by destruct (Spinner.eligible now q).
      * cbn. by rewrite <- app_assoc.
      * cbn in Hr. lia.
    + cbn [SpinnerReentry.handleAll]. unfold Spinner.handleOne.
      unfold mbind, eff_bind, Js.bind. cbn [Js.get]. by rewrite Hid, Hq.
Qed.

(** With clients that do not ping, a run is the run of the spinner without
    callbacks. *)
Lemma handleQueue_silent now s :
  (∀ c l, react c l = []) →
  SpinnerReentry._handleQueue react now s = Spinner._handleQueue now s.
Proof.
  intros Hsilent. unfold SpinnerReentry._handleQueue, Spinner._handleQueue.
  unfold mbind at 1 5, eff_bind. unfold Js.bind at 1 5. cbn [Js.get].
  unfold mbind at 1 5, eff_bind. unfold Js.bind at 1 5.
  rewrite (handleAll_silent now (Spinner._clientCallQueue s) Hsilent [])
    by (done || lia).
  reflexivity.
Qed.

(** *** The rounds of a run *)

Lemma Map_get_Some_keys {V} k (v : V) (mp : Js.Map V) :
  Js.Map_get k mp = Some v → k ∈ mp.*1.
Proof.
  intros Hget. destruct (decide (k ∈ mp.*1)) as [|Hnot]; [done|].
  apply Map_get_None_keys in Hnot. congruence.
Qed.

Lemma filter_not_in_snoc (cq keys : list string) id :
  id ∈ keys → id ∉ cq →
  (length (filter (λ k, k ∉ cq ++ [id]) keys) < length (filter (λ k, k ∉ cq) keys))%nat.
Proof.
  intros Hin Hnot. induction keys as [|k keys IH]; [by apply elem_of_nil in Hin|].
  rewrite !filter_cons. apply elem_of_cons in Hin as [<-|Hin].
  - rewrite decide_False by (rewrite elem_of_app, list_elem_of_singleton; tauto).
    rewrite decide_True by done. cbn.
    assert (length (filter (λ k, k ∉ cq ++ [id]) keys)
            ≤ length (filter (λ k, k ∉ cq) keys))%nat; [|lia].
    clear IH. induction keys as [|k keys IH]; [done|]. rewrite !filter_cons.
    destruct (decide (k ∉ cq ++ [id])) as [H1|H1].
    + rewrite decide_True by (rewrite elem_of_app in H1; tauto). cbn. lia.
    + destruct (decide (k ∉ cq)); cbn; lia.
  - specialize (IH Hin).
    destruct (decide (k ∉ cq ++ [id])) as [H1|H1].
    + rewrite decide_True by (rewrite elem_of_app in H1; tauto). cbn. lia.
    + destruct (decide (k ∉ cq)); cbn; lia.
Qed.

Lemma ping_run_bound n len id (msg : Msg) :
  Js.preserves (SpinnerReentry.run_bound (Client:=Client) (Msg:=Msg) n len) (Spinner.ping id msg).
Proof.
  intros s [Hn Hlen].
  destruct (Js.Map_get id (Spinner._clientQueueMap s)) as [q|] eqn:Hq.
  - rewrite (ping_known _ _ _ q) by done. unfold Js.state, SpinnerReentry.run_bound.
    cbn [fst Spinner._clientCallQueue Spinner._clientQueueMap].
    rewrite (Map_set_keys_present _ _ q) by done.
    unfold Js.Set_add, Js.Set_has. case_bool_decide as Hin; [done|].
    pose proof (filter_not_in_snoc (Spinner._clientCallQueue s)
                  (Spinner._clientQueueMap s).*1 id
                  (Map_get_Some_keys _ _ _ Hq) Hin) as Hlt.
    rewrite length_app. cbn. lia.
  - by rewrite ping_unknown.
Qed.

Lemma assign_run_bound n len id (f : Spinner.ClientQueue Client Msg → _) :
  Js.preserves (SpinnerReentry.run_bound (Client:=Client) (Msg:=Msg) n len) (SpinnerReentry.assign id f).
Proof.
  apply preserves_modify. intros s Hs.
  destruct (Js.Map_get id (Spinner._clientQueueMap s)) as [q|] eqn:Hq; [|done].
  unfold SpinnerReentry.run_bound. cbn [Spinner.set_clientQueueMap Spinner._clientCallQueue
                         Spinner._clientQueueMap].
  by rewrite (Map_set_keys_present _ _ q).
Qed.

Lemma handleClientMessages_run_bound n len now id q :
  Js.preserves (SpinnerReentry.run_bound (Client:=Client) (Msg:=Msg) n len) (SpinnerReentry.handleClientMessages react now id q).
Proof.
  unfold SpinnerReentry.handleClientMessages.
  destruct (Spinner.eligible now q); [|apply preserves_ret].
  apply preserves_bind; [apply assign_run_bound|intros _].
  apply preserves_bind; [apply preserves_emit|intros _].
  apply preserves_bind.
  { apply preserves_forEach. intros p. apply ping_run_bound. }
  intros _. apply preserves_bind; [apply assign_run_bound|intros _].
  apply preserves_ret.
Qed.

(** Every visit leaves less to do. *)
Lemma to_visit_next now i id q s :
  Spinner._clientCallQueue s !! i = Some id →
  (SpinnerReentry.to_visit (S i)
     (Js.state (SpinnerReentry.handleClientMessages react now id q s))
   < SpinnerReentry.to_visit i s)%nat.
Proof.
  intros Hid. apply lookup_lt_Some in Hid.
  destruct (handleClientMessages_run_bound
              (length (Spinner._clientCallQueue s)
               + length (filter (λ id, id ∉ Spinner._clientCallQueue s)
                           (Spinner._clientQueueMap s).*1))
              (length (Spinner._clientCallQueue s)) now id q s) as [Hn Hlen].
  { split; lia. }
  unfold SpinnerReentry.to_visit. lia.
Qed.

(** The rounds of [_handleQueue] suffice: from the number of ids left to
    visit on, more rounds change nothing. *)
Lemma handleAll_rounds now (rounds1 : nat) : ∀ rounds2 i keep s,
  (SpinnerReentry.to_visit i s ≤ rounds1)%nat →
  (SpinnerReentry.to_visit i s ≤ rounds2)%nat →
  SpinnerReentry.handleAll react rounds1 now i keep s
  = SpinnerReentry.handleAll react rounds2 now i keep s.
Proof.
  assert (Hzero : ∀ rounds i keep s, SpinnerReentry.to_visit i s = 0%nat →
            SpinnerReentry.handleAll react rounds now i keep s = (s, [], Ok keep)).
  { intros rounds i keep s Hz. apply handleAll_done. apply lookup_ge_None_2.
    unfold SpinnerReentry.to_visit in Hz. lia. }
  induction rounds1 as [|rounds1 IH]; intros rounds2 i keep s H1 H2.
  { rewrite !Hzero by lia. reflexivity. }
  destruct rounds2 as [|rounds2]; [rewrite !Hzero by lia; reflexivity|].
  cbn [SpinnerReentry.handleAll]. unfold mbind, eff_bind. unfold Js.bind at 1 3.
  cbn [Js.get].
  destruct (Spinner._clientCallQueue s !! i) as [id|] eqn:Hid; [|reflexivity].
  destruct (Js.Map_get id (Spinner._clientQueueMap s)) as [q|]; [|reflexivity].
  unfold Js.bind.
  pose proof (to_visit_next now i id q s Hid) as Hlt.
  destruct (SpinnerReentry.handleClientMessages react now id q s)
    as [[s' out] [handled|e]]; [|reflexivity].
  unfold Js.state in Hlt. cbn [fst] in Hlt.
  rewrite (IH rounds2) by lia. reflexivity.
Qed.

Lemma handleQueue_rounds now rounds keep s :
  (length (Spinner._clientCallQueue s) + length (Spinner._clientQueueMap s) ≤ rounds)%nat →
  SpinnerReentry.handleAll react rounds now 0 keep s
  = SpinnerReentry.handleAll react
      (length (Spinner._clientCallQueue s) + length (Spinner._clientQueueMap s))
      now 0 keep s.
Proof.
  intros Hr.
  assert (SpinnerReentry.to_visit 0 s
          ≤ length (Spinner._clientCallQueue s) + length (Spinner._clientQueueMap s))%nat.
  { unfold SpinnerReentry.to_visit.
    pose proof (length_filter (λ id, id ∉ Spinner._clientCallQueue s)
                  (Spinner._clientQueueMap s).*1) as Hf.
    rewrite length_fmap in Hf. lia. }
  apply handleAll_rounds; lia.
Qed.
End HandleAllSteps.

Section Stranded.
Variable react : Client → list Msg → list (string * Msg).
Variables (cA cB : Client) (idA idB : string) (nA nB thrA thrB : Z) (a b m : Msg).
Hypothesis Hne : idA ≠ idB.
Hypothesis HA : nA > 0.
Hypothesis HB : nB > 0.
Hypothesis HreactA : react cA [a] = [].
Hypothesis HreactB : react cB [b] = [(idA, m)].

Lemma first_client_handled (now : Z) :
  SpinnerReentry.handleClientMessages react now idA
    (Spinner.mkClientQueue cA [a] nA thrA None)
    (Spinner.mkGlobalSpinner true [idA; idB]
       [(idA, Spinner.mkClientQueue cA [a] nA thrA None);
        (idB, Spinner.mkClientQueue cB [b] nB thrB None)])
  = (Spinner.mkGlobalSpinner true [idA; idB]
       [(idA, Spinner.mkClientQueue cA [] nA thrA (Some now));
        (idB, Spinner.mkClientQueue cB [b] nB thrB None)],
     [Spinner.HandleMsgQueue cA [a]], Ok true).
Proof.
  unfold SpinnerReentry.handleClientMessages. cbn [Spinner.eligible Spinner._handleTime].
  cbn [Spinner._client Spinner._queue]. rewrite HreactA.
  unfold mbind, eff_bind, Js.bind, SpinnerReentry.assign. cbn.
  rewrite !decide_True by done. cbn. rewrite !decide_True by done. reflexivity.
Qed.

Lemma second_client_pings_first (now : Z) :
  SpinnerReentry.handleClientMessages react now idB
    (Spinner.mkClientQueue cB [b] nB thrB None)
    (Spinner.mkGlobalSpinner true [idA; idB]
       [(idA, Spinner.mkClientQueue cA [] nA thrA (Some now));
        (idB, Spinner.mkClientQueue cB [b] nB thrB None)])
  = (Spinner.mkGlobalSpinner true [idA; idB]
       [(idA, Spinner.mkClientQueue cA [m] nA thrA (Some now));
        (idB, Spinner.mkClientQueue cB [] nB thrB (Some now))],
     [Spinner.HandleMsgQueue cB [b]], Ok true).
Proof.
  unfold SpinnerReentry.handleClientMessages. cbn [Spinner.eligible Spinner._handleTime].
  cbn [Spinner._client Spinner._queue]. rewrite HreactB.
  assert (Hne' : idB ≠ idA) by congruence.
  unfold mbind, eff_bind. unfold Js.bind at 1.
  unfold SpinnerReentry.assign at 1. cbn [Js.modify Spinner._clientQueueMap Js.Map_get fst snd].
  rewrite (decide_False (P := idA = idB)) by done. rewrite (decide_True (P := idB = idB)) by done.
  cbn [Js.Map_set fst snd Spinner.set_clientQueueMap Spinner._spinTimer
       Spinner._clientCallQueue SpinnerReentry.set_handleTime Spinner._client
       Spinner._queue Spinner._queueSize Spinner.throttleMs].
  rewrite (decide_False (P := idA = idB)) by done. rewrite (decide_True (P := idB = idB)) by done.
  unfold Js.bind at 1. cbn [Js.emit]. unfold Js.bind at 1.
  cbn [Js.forEach fst snd]. unfold Js.bind at 1.
  rewrite (ping_known idA m _ (Spinner.mkClientQueue cA [] nA thrA (Some now)))
    by (cbn; by rewrite decide_True).
  rewrite push_room by (cbn; lia).
  cbn [Spinner.set_clientQueueMap Spinner._clientCallQueue Spinner._clientQueueMap
       Spinner._spinTimer Js.Map_set fst snd Spinner.with_queue Spinner._queue
       Spinner._client Spinner._queueSize Spinner.throttleMs Spinner._handleTime app
       SpinnerReentry.set_handleTime].
  rewrite (decide_True (P := idA = idA)) by done.
  assert (Js.Set_add idA [idA; idB] = [idA; idB]) as ->.
  { unfold Js.Set_add, Js.Set_has. rewrite bool_decide_true by left. reflexivity. }
  unfold Js.bind, SpinnerReentry.assign.
  cbn [Js.ret Js.modify mret eff_ret Spinner._clientQueueMap Js.Map_get fst snd].
  rewrite (decide_False (P := idA = idB)) by done. rewrite (decide_True (P := idB = idB)) by done.
  cbn [Js.Map_set fst snd Spinner.set_clientQueueMap Spinner._spinTimer
       Spinner._clientCallQueue Spinner.with_queue Spinner._client
       Spinner._queue Spinner._queueSize Spinner.throttleMs Spinner._handleTime app].
  rewrite (decide_False (P := idA = idB)) by done. rewrite (decide_True (P := idB = idB)) by done.
  reflexivity.
Qed.

(** The run in which the second client pings the first: both batches are
    handed over, the message of the ping stays on the queue of the first
    client, the call queue is cleared and no timer is armed. *)
Lemma run_with_ping_back (now : Z) :
  SpinnerReentry._handleQueue react now
    (Spinner.mkGlobalSpinner true [idA; idB]
       [(idA, Spinner.mkClientQueue cA [a] nA thrA None);
        (idB, Spinner.mkClientQueue cB [b] nB thrB None)])
  = (Spinner.mkGlobalSpinner false []
       [(idA, Spinner.mkClientQueue cA [m] nA thrA (Some now));
        (idB, Spinner.mkClientQueue cB [] nB thrB (Some now))],
     [Spinner.HandleMsgQueue cA [a]; Spinner.HandleMsgQueue cB [b]], Ok tt).
Proof.
  unfold SpinnerReentry._handleQueue.
  unfold mbind at 1, eff_bind. unfold Js.bind at 1. cbn [Js.get].
  unfold mbind at 1, eff_bind. unfold Js.bind at 1.
  cbn [Spinner._clientCallQueue Spinner._clientQueueMap length Nat.add].
  rewrite (handleAll_visit react _ now 0 [] _ idA _ _ _ true (first_client_handled now))
    by (cbn; rewrite ?decide_True by done; reflexivity).
  rewrite (handleAll_visit react _ now 1 [] _ idB _ _ _ true
             (second_client_pings_first now))
    by (cbn; rewrite ?(decide_False (P := idA = idB)) by done;
        rewrite ?decide_True by done; reflexivity).
  rewrite handleAll_done by reflexivity.
  unfold mbind, eff_bind. unfold Js.bind at 1. cbn [Js.modify].
  unfold Js.bind at 1.
  rewrite check_passes.
  2:{ cbn. intros id q Hin Hq.
      apply elem_of_cons in Hin as [[= -> ->]|Hin]; [left|].
      apply list_elem_of_singleton in Hin as [= -> ->]. done. }
  unfold Js.bind. cbn. reflexivity.
Qed.

(** A later run, after a ping of the second client that the client answers
    with no ping: the message left on the queue of the first client fails the
    check of the run. *)
Lemma later_run_throws (now now' : Z) (b' : Msg) :
  react cB [b'] = [] →
  Js.result
    (SpinnerReentry._handleQueue react now'
       (Js.state
          (Spinner.ping idB b'
             (Spinner.mkGlobalSpinner false []
                [(idA, Spinner.mkClientQueue cA [m] nA thrA (Some now));
                 (idB, Spinner.mkClientQueue cB [] nB thrB (Some now))]))))
  = Throw (Js.Error ("Client " +:+ idA
                       +:+ " has 1 queued messages but is not in call list!")).
Proof.
  intros Hsilent.
  assert (Hne' : idB ≠ idA) by congruence.
  rewrite (ping_known idB b' _ (Spinner.mkClientQueue cB [] nB thrB (Some now)))
    by (cbn; rewrite (decide_False (P := idA = idB)) by done; by rewrite decide_True).
  unfold Js.state. cbn [fst Spinner._clientCallQueue Spinner._clientQueueMap].
  rewrite push_room by (cbn; lia).
  assert (Js.Set_add idB [] = [idB]) as -> by reflexivity.
  cbn [Js.Map_set fst snd]. rewrite (decide_False (P := idA = idB)) by done.
  cbn [Js.Map_set fst snd]. rewrite (decide_True (P := idB = idB)) by done.
  cbn [Spinner.with_queue Spinner._client Spinner._queue Spinner._queueSize
       Spinner.throttleMs Spinner._handleTime app].
  unfold SpinnerReentry._handleQueue.
  unfold mbind at 1, eff_bind. unfold Js.bind at 1. cbn [Js.get].
  unfold mbind at 1, eff_bind. unfold Js.bind at 1.
  cbn [Spinner._clientCallQueue Spinner._clientQueueMap length Nat.add].
  set (s2 := Spinner.mkGlobalSpinner true [idB] _).
  assert (Hq : Js.Map_get idB (Spinner._clientQueueMap s2)
               = Some (Spinner.mkClientQueue cB [b'] nB thrB (Some now))).
  { subst s2. cbn. rewrite (decide_False (P := idA = idB)) by done.
    by rewrite decide_True. }
  rewrite (handleAll_visit react _ now' 0 [] s2 idB _ _ _ _
             (handleClientMessages_silent react now' idB
                (Spinner.mkClientQueue cB [b'] nB thrB (Some now)) s2 Hsilent Hq))
    by done.
  subst s2.
  rewrite handleAll_done by reflexivity.
  unfold mbind, eff_bind. unfold Js.bind at 1. cbn [Js.modify].
  unfold Js.bind at 1.
  unfold Spinner._getClientsWithQueuedMessages.
  unfold mbind, eff_bind. unfold Js.bind at 1.
  cbn [Js.get Spinner._clientQueueMap Spinner.set_spinTimer Spinner.set_clientQueueMap
       Spinner._clientCallQueue Spinner._spinTimer Js.Map_set fst snd].
  rewrite (decide_False (P := idA = idB)) by done.
  cbn [Js.forEach fst snd]. unfold Js.bind at 1.
  unfold Spinner.length_ at 1. cbn [Spinner._queue length].
  rewrite (bool_decide_true (Z.of_nat 1 > 0)) by lia.
  unfold Js.Set_has at 1.
  rewrite (bool_decide_false (idA ∈ [idB]))
    by (intros H%list_elem_of_singleton; congruence).
  cbn [andb negb Js.throw]. unfold Js.result. cbn [snd].
  unfold Spinner.length_. cbn [Spinner._queue length]. reflexivity.
Qed.
End Stranded.
End SpinnerReentryLemmas.

(** X29.  A message pinged from inside a run of [_handleQueue] to a client
    that the run has already dispatched is stranded.  Two clients are added
    and pinged, the first before the second, and the timer fires; the second
    client, handed its batch, pings the first (a subscriber whose listener
    publishes on a publisher of the node).  The run hands over both batches
    and returns, and the message of the ping is on the queue of the first
    client, which is no longer on the call queue, with no timer armed: nothing
    will deliver it.  When the second client is pinged again, with a message
    that it answers with no ping, and the timer fires, that run throws at its
    check, 'Client … has 1 queued messages but is not in call list!'. *)
Theorem X29_ping_from_inside_a_run_is_stranded
    {Client Msg : Type} (react : Client → list Msg → list (string * Msg))
    (cA cB : Client) (idA idB : string) (nA nB thrA thrB : Z)
    (a b m b' : Msg) (now now' : Z) :
  idA ≠ idB → nA > 0 → nB > 0 →
  react cA [a] = [] → react cB [b] = [(idA, m)] → react cB [b'] = [] →
  let s0 := Spinner.run [Spinner.AddClient cA idA nA thrA;
                         Spinner.AddClient cB idB nB thrB;
                         Spinner.Ping idA a; Spinner.Ping idB b]
              Spinner.GlobalSpinner_new in
  let r := SpinnerReentry._handleQueue react now s0 in
  let s1 := Js.state r in
  Spinner._spinTimer s0 = true
  ∧ Js.result r = Ok tt
  ∧ Js.out r = [Spinner.HandleMsgQueue cA [a]; Spinner.HandleMsgQueue cB [b]]
  ∧ Spinner._queue <$> Js.Map_get idA (Spinner._clientQueueMap s1) = Some [m]
  ∧ Spinner._clientCallQueue s1 = []
  ∧ Spinner._spinTimer s1 = false
  ∧ Js.result (SpinnerReentry._handleQueue react now'
                 (Js.state (Spinner.ping idB b' s1)))
    = Throw (Js.Error ("Client " +:+ idA
                         +:+ " has 1 queued messages but is not in call list!")).
Proof.
  intros Hne HA HB HreactA HreactB Hsilent s0 r s1. subst s1 r s0.
  rewrite two_clients_pinged by done.
  rewrite (run_with_ping_back react cA cB idA idB nA nB thrA thrB a b m) by done.
  unfold Js.state, Js.out. cbn [fst snd Js.result Spinner._spinTimer
    Spinner._clientCallQueue Spinner._clientQueueMap].
  split; [reflexivity|]. split; [reflexivity|]. split; [reflexivity|]. split.
  { cbn. by rewrite decide_True. }
  split; [reflexivity|]. split; [reflexivity|].
  by apply later_run_throws.
Qed.

(** X29 at a relay: a subscriber on [/in] whose listener publishes the
    messages above 0 on [/out], with a publisher on [/out] that was pinged
    first. *)
Lemma X29_witness :
  let react (c : string) (batch : list Z) : list (string * Z) :=
    if bool_decide (c = "relay")
    then (λ x, ("Publisher:///out", x)) <$> filter (λ x, 0 < x) batch
    else [] in
  let s0 := Spinner.run [Spinner.AddClient "talker" "Publisher:///out" 1 0;
                         Spinner.AddClient "relay" "Subscriber:///in" 1 0;
                         Spinner.Ping "Publisher:///out" 1;
                         Spinner.Ping "Subscriber:///in" 2]
              Spinner.GlobalSpinner_new in
  let s1 := Js.state (SpinnerReentry._handleQueue react 10 s0) in
  Spinner._queue <$> Js.Map_get "Publisher:///out" (Spinner._clientQueueMap s1) = Some [2]
  ∧ Spinner._clientCallQueue s1 = []
  ∧ Spinner._spinTimer s1 = false
  ∧ Js.result (SpinnerReentry._handleQueue react 20
                 (Js.state (Spinner.ping "Subscriber:///in" 0 s1)))
    = Throw (Js.Error
               "Client Publisher:///out has 1 queued messages but is not in call list!").
Proof.
  destruct (X29_ping_from_inside_a_run_is_stranded
              (λ (c : string) (batch : list Z),
                 if bool_decide (c = "relay")
                 then (λ x, ("Publisher:///out", x)) <$> filter (λ x, 0 < x) batch
                 else [])
              "talker" "relay" "Publisher:///out" "Subscriber:///in" 1 1 0 0
              1 2 2 0 10 20)
    as (_ & _ & _ & H1 & H2 & H3 & H4);
    [discriminate|lia|lia|reflexivity|reflexivity|reflexivity|].
  split; [exact H1|]. split; [exact H2|]. split; [exact H3|exact H4].
Defined.
